(** * Proyecto1: the xv6 teaching shell

    A shallow embedding of [Proyecto1.c] and the properties of its history
    buffer, tokenizer, builtin dispatcher, process launchers and prompt loop.

    Conventions of the embedding:
    - a [char] is an [ascii]; a [char] array is a [list ascii] indexed by
      [nat]; a [char *] into an array is the array and an offset;
    - an [int] is a [Z] kept in the 32-bit signed range by [wrap];
    - code without system calls computes in [res]: a value, or [Undef] on
      undefined behaviour (an access outside an array, a read of an
      uninitialised pointer), or [NoFuel] when a loop of the embedding was
      given too little fuel;
    - the code of one process is a [prog]: a tree of system calls whose
      answers are supplied by the kernel model [run]. *)

From Stdlib Require Import ZArith Lia Ascii String.
From stdpp Require Import base list strings.

Open Scope Z_scope.

(** ** Characters and C strings *)

Definition NUL : ascii := Ascii.zero.
Definition SP : ascii := " "%char.
Definition NL : ascii := "010"%char.
Definition BAR : ascii := "|"%char.

(** The contents of a C string: the characters before its terminator. *)
Abbreviation cstr := (list ascii) (only parsing).

Definition lit (s : string) : cstr := list_ascii_of_string s.

(** ** 32-bit [int] arithmetic *)

Definition INT_MAX : Z := 2147483647.
Definition INT_MIN : Z := -2147483648.

Definition wrap (z : Z) : Z := (z + 2147483648) mod 4294967296 - 2147483648.

Definition int_add (a b : Z) : Z := wrap (a + b).
Definition int_sub (a b : Z) : Z := wrap (a - b).
Definition int_mul (a b : Z) : Z := wrap (a * b).
(** C division and remainder truncate towards zero. [a / b] and [a % b]
    have a value only when [b] is not 0 and the quotient is an [int], which
    leaves out [INT_MIN / -1]: [div_defined] says when, and [int_div] and
    [int_rem] are the values there. *)
Definition div_defined (a b : Z) : Prop := b ≠ 0 ∧ ¬ (a = INT_MIN ∧ b = -1).
Definition int_div (a b : Z) : Z := wrap (Z.quot a b).
Definition int_rem (a b : Z) : Z := wrap (Z.rem a b).

(** ** Constants of the program *)

Definition MAXLINE : Z := 100.
Definition MAXARGS : nat := 10.
Definition HISTORY_SIZE : Z := 10.
Definition START_TIME : Z := 0.
Definition TIMEZONE_OFFSET : Z := -5 * 3600.
Definition TICKS_PER_SECOND : Z := 100.

Definition COLOR_RED : string := "\033[31m".
Definition COLOR_GREEN : string := "\033[32m".
Definition COLOR_YELLOW : string := "\033[33m".
Definition COLOR_CYAN : string := "\033[36m".
Definition COLOR_WHITE : string := "\033[37m".
Definition COLOR_RESET : string := "\033[0m".

(** ** Computations without system calls *)

Inductive res (A : Type) : Type :=
| Ok (a : A)
| Undef                       (* undefined behaviour of the C program *)
| NoFuel.                     (* the embedding ran out of fuel *)

Arguments Ok {A} a.
Arguments Undef {A}.
Arguments NoFuel {A}.

#[global] Instance res_ret : MRet res := λ A a, Ok a.
#[global] Instance res_bind : MBind res := λ A B f r,
  match r with
  | Ok a => f a
  | Undef => Undef
  | NoFuel => NoFuel
  end.

(** ** Memory: character arrays and pointer arrays *)

Abbreviation mem := (list ascii) (only parsing).

Definition load (m : mem) (p : nat) : res ascii :=
  match m !! p with
  | Some c => Ok c
  | None => Undef
  end.

Definition store (m : mem) (p : nat) (c : ascii) : res mem :=
  if decide (p < length m)%nat then Ok (<[p:=c]> m) else Undef.

(** The string that starts at the head of [l]. *)
Fixpoint cstring (l : list ascii) : res cstr :=
  match l with
  | [] => Undef
  | c :: l' => if (c =? NUL)%char then Ok [] else s ← cstring l'; Ok (c :: s)
  end.

(** The string a [char *] at offset [p] of [m] points to. *)
Definition cstring_at (m : mem) (p : nat) : res cstr :=
  if decide (p < length m)%nat then cstring (drop p m) else Undef.

(** [strcpy(m + p, s)]. *)
Definition strcpy (m : mem) (p : nat) (s : cstr) : res mem :=
  if decide (p + length s < length m)%nat
  then Ok (take p m ++ s ++ NUL :: drop (S (p + length s)) m)
  else Undef.

(** An element of a [char *] array over one character array. *)
Inductive ptr : Type :=
| Uninit
| Null
| Ptr (p : nat).

Definition ptr_get (a : list ptr) (i : nat) : res ptr :=
  match a !! i with
  | Some Uninit | None => Undef
  | Some v => Ok v
  end.

Definition ptr_set (a : list ptr) (i : nat) (v : ptr) : res (list ptr) :=
  if decide (i < length a)%nat then Ok (<[i:=v]> a) else Undef.

(** What [exec] reads through an argument vector: the strings of its
    elements up to the null sentinel. *)
Fixpoint read_argv (m : mem) (a : list ptr) : res (list cstr) :=
  match a with
  | [] | Uninit :: _ => Undef
  | Null :: _ => Ok []
  | Ptr p :: a' => s ← cstring_at m p; ss ← read_argv m a'; Ok (s :: ss)
  end.

(** ** [parse] (lines 94-112) *)

(** [while ( *buf == ' ') *buf++ = '\0';] *)
Fixpoint parse_blanks (fuel : nat) (m : mem) (buf : nat) : res (mem * nat) :=
  match fuel with
  | O => NoFuel
  | S fuel =>
      c ← load m buf;
      if (c =? SP)%char
      then m' ← store m buf NUL; parse_blanks fuel m' (S buf)
      else Ok (m, buf)
  end.

(** [while ( *buf != ' ' && *buf != '\0') buf++;] *)
Fixpoint parse_word (fuel : nat) (m : mem) (buf : nat) : res nat :=
  match fuel with
  | O => NoFuel
  | S fuel =>
      c ← load m buf;
      if negb (c =? SP)%char && negb (c =? NUL)%char
      then parse_word fuel m (S buf)
      else Ok buf
  end.

(** The outer [while ( *buf != '\0')] and the final [argv[i] = 0]. *)
Fixpoint parse_loop (fuel : nat) (m : mem) (buf : nat)
    (argv : list ptr) (i : nat) : res (mem * list ptr) :=
  match fuel with
  | O => NoFuel
  | S fuel =>
      c ← load m buf;
      if (c =? NUL)%char then argv' ← ptr_set argv i Null; Ok (m, argv')
      else
        '(m1, buf1) ← parse_blanks (S (length m)) m buf;
        c1 ← load m1 buf1;
        if (c1 =? NUL)%char then argv' ← ptr_set argv i Null; Ok (m1, argv')
        else
          argv1 ← ptr_set argv i (Ptr buf1);
          buf2 ← parse_word (S (length m)) m1 buf1;
          parse_loop fuel m1 buf2 argv1 (S i)
  end.

(** [parse(buf, argv)], with [buf] an offset into [m]. The fuel is one more
    than the size of the array: every round of every loop moves [buf]
    forward inside it. *)
Definition parse (m : mem) (buf : nat) (argv : list ptr) : res (mem * list ptr) :=
  parse_loop (S (length m)) m buf argv 0.

(** ** What the tokenizer is expected to produce *)

(** [runs_at b line ts]: [ts] lists, left to right, the maximal runs of
    non-space characters of [line], each with its offset when [line] starts
    at offset [b]. A run is preceded by the start of the line or a space
    and followed by a space or the end of the line. *)
Inductive runs_at : nat → cstr → list (nat * cstr) → Prop :=
| runs_blank b k : runs_at b (replicate k SP) []
| runs_word b k w rest ts :
    w ≠ [] → SP ∉ w → (rest = [] ∨ ∃ r, rest = SP :: r) →
    runs_at (b + k + length w) rest ts →
    runs_at b (replicate k SP ++ w ++ rest) ((b + k, w)%nat :: ts).

(** The same runs computed: a non-space character either starts a run, when
    the next character is a space or the end, or extends the run that starts
    right after it. *)
Fixpoint tokens (line : cstr) : list cstr :=
  match line with
  | [] => []
  | c :: line' =>
      let ws := tokens line' in
      if (c =? SP)%char then ws
      else match head line', ws with
           | Some c', w :: ws' =>
               if (c' =? SP)%char then [c] :: ws else (c :: w) :: ws'
           | _, _ => [c] :: ws
           end
  end.

(** Spaces become terminators. *)
Definition blank_to_nul (c : ascii) : ascii := if (c =? SP)%char then NUL else c.

(** ** Programs: system calls and their continuations *)

(** An argument of [printf]. *)
Inductive parg : Type :=
| PInt (z : Z)
| PStr (s : cstr).

(** The system calls the shell makes, indexed by the type of their answer.
    Pointer arguments are passed as what the kernel reads through them:
    [exec] gets the path string ([None] for a null pointer) and the strings
    of the argument vector up to its null sentinel. *)
Inductive call : Type → Type :=
| Read1 : call (option ascii)
    (* read(0, &c, 1): [Some c] when it returns 1, [None] when it returns
       less (end of input) *)
| Printf (fmt : string) (args : list parg) : call unit
| Fork : call Z
| Pipe : call (option (Z * Z))
    (* pipe(p): [Some (p[0], p[1])] on success; on failure p is not written *)
| Close (fd : Z) : call Z
| Dup (fd : Z) : call Z
| Exec (path : option cstr) (argv : list cstr) : call Z
    (* answers only when the image replacement failed *)
| Wait (status : Z) : call Z
| Uptime : call Z.

Inductive prog (A : Type) : Type :=
| Ret (a : A)
| Crash                       (* undefined behaviour of the C program *)
| Starve                      (* the embedding ran out of fuel *)
| Exit (status : Z)           (* exit(status) *)
| Sys {X : Type} (c : call X) (k : X → prog A).

Arguments Ret {A} a.
Arguments Crash {A}.
Arguments Starve {A}.
Arguments Exit {A} status.
Arguments Sys {A X} c k.

Fixpoint bind {A B : Type} (p : prog A) (f : A → prog B) : prog B :=
  match p with
  | Ret a => f a
  | Crash => Crash
  | Starve => Starve
  | Exit st => Exit st
  | Sys c k => Sys c (λ x, bind (k x) f)
  end.

#[global] Instance prog_ret : MRet prog := λ A a, Ret a.
#[global] Instance prog_bind : MBind prog := λ A B f p, bind p f.

Definition sys {X : Type} (c : call X) : prog X := Sys c Ret.

(** A computation without system calls as part of a program. *)
Definition lift {A : Type} (r : res A) : prog A :=
  match r with
  | Ok a => Ret a
  | Undef => Crash
  | NoFuel => Starve
  end.

Definition printf (fmt : string) (args : list parg) : prog unit :=
  sys (Printf fmt args).

(** ** The kernel as the shell sees it

    [run p w] answers the system calls of the program [p] of one process
    from the state [w] of the machine: console input, the descriptor table
    of the process, the process table and the programs [exec] can load.
    A successful [fork] runs the child, the same program answered with 0 and
    a copy of the descriptor table, to its end and keeps what it did.

    The model follows the code of this program and stops where it stops: a
    process whose [exec] loads a program ends as [Replaced], and what the
    loaded program then does (what it reads from the console it shares with
    the shell, what it prints, when and how it exits) is not part of it.
    The calls of a process are ordered, not timed: [wait] is answered with
    a child that has ended, never with how long that took. *)

Inductive file : Type :=
| Console
| PipeRead (id : nat)
| PipeWrite (id : nat).

(** A system call of a process and the answer it got. *)
Inductive event : Type :=
| EvRead (answer : option ascii)
| EvPrintf (fmt : string) (args : list parg)
| EvFork (answer : Z)
| EvPipe (answer : option (Z * Z))
| EvClose (fd : Z) (answer : Z)
| EvDup (fd : Z) (answer : Z)
| EvExec (path : option cstr) (argv : list cstr) (loaded : bool)
| EvWait (status : Z) (answer : Z)
| EvUptime (answer : Z).

(** How the program of a process ends. *)
Inductive ending (A : Type) : Type :=
| Returned (a : A)            (* reached the end of the embedded code *)
| Crashed                     (* undefined behaviour *)
| Starved                     (* the embedding ran out of fuel *)
| Exited (status : Z)         (* called exit(status) *)
| Replaced (path : cstr) (argv : list cstr).   (* exec loaded a new image *)

Arguments Returned {A} a.
Arguments Crashed {A}.
Arguments Starved {A}.
Arguments Exited {A} status.
Arguments Replaced {A} path argv.

(** What a child did between [fork] and its end. *)
Record child : Type := Child {
  c_pid : Z;
  c_log : list event;
  c_fds : list (option file);
  c_end : ending unit
}.

Record world : Type := World {
  w_stdin : list ascii;          (* console input not yet read *)
  w_ticks : Z;                   (* the answer of uptime() *)
  w_programs : cstr → bool;      (* the paths exec can load *)
  w_first : list Z → Z;          (* of these running children, the first to end *)
  w_fds : list (option file);    (* descriptor table of the process *)
  w_pipes : nat;                 (* pipes created so far *)
  w_slots : nat;                 (* free entries of the process table *)
  w_next : positive;                   (* the next process id *)
  w_live : list Z;               (* children not yet waited for *)
  w_kids : list child;           (* children spawned, oldest first *)
  w_log : list event             (* calls of this process, oldest first *)
}.

Definition emit (e : event) (w : world) : world :=
  World (w_stdin w) (w_ticks w) (w_programs w) (w_first w) (w_fds w) (w_pipes w)
        (w_slots w) (w_next w) (w_live w) (w_kids w) (w_log w ++ [e]).

Definition set_stdin (i : list ascii) (w : world) : world :=
  World i (w_ticks w) (w_programs w) (w_first w) (w_fds w) (w_pipes w)
        (w_slots w) (w_next w) (w_live w) (w_kids w) (w_log w).

Definition set_fds (t : list (option file)) (w : world) : world :=
  World (w_stdin w) (w_ticks w) (w_programs w) (w_first w) t (w_pipes w)
        (w_slots w) (w_next w) (w_live w) (w_kids w) (w_log w).

(** The lowest free descriptor. *)
Fixpoint fd_alloc (t : list (option file)) : option nat :=
  match t with
  | [] => None
  | None :: _ => Some O
  | Some _ :: t' => S <$> fd_alloc t'
  end.

(** The open file behind descriptor [fd]. *)
Definition fd_file (t : list (option file)) (fd : Z) : option file :=
  if decide (0 ≤ fd) then mjoin (t !! Z.to_nat fd) else None.

(** pipe(): two fresh descriptors, read end first. *)
Definition sys_pipe (w : world) : world * option (Z * Z) :=
  match fd_alloc (w_fds w) with
  | Some r =>
      let t := <[r:=Some (PipeRead (w_pipes w))]> (w_fds w) in
      match fd_alloc t with
      | Some wr =>
          let t' := <[wr:=Some (PipeWrite (w_pipes w))]> t in
          (World (w_stdin w) (w_ticks w) (w_programs w) (w_first w) t'
                 (S (w_pipes w)) (w_slots w) (w_next w) (w_live w) (w_kids w)
                 (w_log w),
           Some (Z.of_nat r, Z.of_nat wr))
      | None => (w, None)
      end
  | None => (w, None)
  end.

Definition sys_close (fd : Z) (w : world) : world * Z :=
  match fd_file (w_fds w) fd with
  | Some _ => (set_fds (<[Z.to_nat fd:=None]> (w_fds w)) w, 0)
  | None => (w, -1)
  end.

Definition sys_dup (fd : Z) (w : world) : world * Z :=
  match fd_file (w_fds w) fd, fd_alloc (w_fds w) with
  | Some f, Some n => (set_fds (<[n:=Some f]> (w_fds w)) w, Z.of_nat n)
  | _, _ => (w, -1)
  end.

(** The child of a fork: same console and descriptors, nothing done yet. *)
Definition child_world (w : world) : world :=
  World (w_stdin w) (w_ticks w) (w_programs w) (w_first w) (w_fds w) (w_pipes w)
        (pred (w_slots w)) (Pos.succ (w_next w)) [] [] [].

(** The parent after a fork that made child [c]. *)
Definition parent_world (c : child) (w : world) : world :=
  World (w_stdin w) (w_ticks w) (w_programs w) (w_first w) (w_fds w) (w_pipes w)
        (pred (w_slots w)) (Pos.succ (w_next w)) (w_live w ++ [c_pid c])
        (w_kids w ++ [c]) (w_log w).

Definition forget {A} (e : ending A) : ending unit :=
  match e with
  | Returned _ => Returned tt
  | Crashed => Crashed
  | Starved => Starved
  | Exited st => Exited st
  | Replaced p a => Replaced p a
  end.

(** wait(): the child that ended first, or -1 without children. The
    status pointer of the shell's calls is null, so nothing is stored. *)
Definition sys_wait (w : world) : world * Z :=
  match w_live w with
  | [] => (w, -1)
  | pid0 :: _ =>
      let pid := if decide (w_first w (w_live w) ∈ w_live w)
                 then w_first w (w_live w) else pid0 in
      (World (w_stdin w) (w_ticks w) (w_programs w) (w_first w) (w_fds w)
             (w_pipes w) (S (w_slots w)) (w_next w)
             (filter (λ q, q ≠ pid) (w_live w)) (w_kids w) (w_log w),
       pid)
  end.

Fixpoint run {A : Type} (p : prog A) (w : world) : world * ending A :=
  match p with
  | Ret a => (w, Returned a)
  | Crash => (w, Crashed)
  | Starve => (w, Starved)
  | Exit st => (w, Exited st)
  | Sys c k =>
      match c in call X return (X → prog A) → world * ending A with
      | Read1 => λ k,
          match w_stdin w with
          | [] => run (k None) (emit (EvRead None) w)
          | c :: rest => run (k (Some c)) (emit (EvRead (Some c)) (set_stdin rest w))
          end
      | Printf fmt args => λ k, run (k tt) (emit (EvPrintf fmt args) w)
      | Fork => λ k,
          match w_slots w with
          | O => run (k (-1)) (emit (EvFork (-1)) w)
          | S _ =>
              let pid := Z.pos (w_next w) in
              let '(wc, ec) := run (k 0) (child_world w) in
              let c := Child pid (w_log wc) (w_fds wc) (forget ec) in
              run (k pid) (emit (EvFork pid) (parent_world c w))
          end
      | Pipe => λ k,
          let '(w', r) := sys_pipe w in run (k r) (emit (EvPipe r) w')
      | Close fd => λ k,
          let '(w', r) := sys_close fd w in run (k r) (emit (EvClose fd r) w')
      | Dup fd => λ k,
          let '(w', r) := sys_dup fd w in run (k r) (emit (EvDup fd r) w')
      | Exec path argv => λ k,
          match path with
          | Some f =>
              if w_programs w f
              then (emit (EvExec path argv true) w, Replaced f argv)
              else run (k (-1)) (emit (EvExec path argv false) w)
          | None => run (k (-1)) (emit (EvExec path argv false) w)
          end
      | Wait st => λ k,
          let '(w', r) := sys_wait w in run (k r) (emit (EvWait st r) w')
      | Uptime => λ k, run (k (w_ticks w)) (emit (EvUptime (w_ticks w)) w)
      end k
  end.


(** ** The history buffer (lines 30-62) *)

(** [char history[HISTORY_SIZE][MAXLINE]] and [int history_count]. A row is
    kept as the string it holds. *)
Record history_buffer : Type := History {
  history : list cstr;
  history_count : Z
}.

(** Globals start zeroed: ten empty rows and a count of 0. *)
Definition history_init : history_buffer :=
  History (replicate (Z.to_nat HISTORY_SIZE) []) 0.

(** [strcpy(history[index], s)]: the row must exist and hold [s] and its
    terminator. *)
Definition row_set (rows : list cstr) (index : Z) (s : cstr) : res (list cstr) :=
  if decide (0 ≤ index < Z.of_nat (length rows) ∧ Z.of_nat (length s) < MAXLINE)
  then Ok (<[Z.to_nat index:=s]> rows)
  else Undef.

(** [history[index]] read as a string. *)
Definition row_get (rows : list cstr) (index : Z) : res cstr :=
  if decide (0 ≤ index)
  then match rows !! Z.to_nat index with
       | Some s => Ok s
       | None => Undef
       end
  else Undef.

Definition add_history (cmd : cstr) (h : history_buffer) : res history_buffer :=
  match cmd with
  | [] => Ok h                                 (* cmd[0] == '\0' *)
  | _ =>
      let index := Z.rem (history_count h) HISTORY_SIZE in
      rows ← row_set (history h) index cmd;
      Ok (History rows (int_add (history_count h) 1))
  end.

(** [for (int i = start; i < history_count; i++)]: at most [HISTORY_SIZE]
    rounds are ever needed. *)
Fixpoint show_history_loop (fuel : nat) (h : history_buffer) (i : Z) : prog unit :=
  if decide (i < history_count h) then
    match fuel with
    | O => Starve
    | S fuel =>
        let index := Z.rem i HISTORY_SIZE in
        e ← lift (row_get (history h) index);
        printf "%d  %s\n" [PInt (int_add i 1); PStr e];;
        show_history_loop fuel h (int_add i 1)
    end
  else Ret tt.

Definition show_history (h : history_buffer) : prog unit :=
  printf (COLOR_CYAN +:+ "\nUltimos comandos:\n" +:+ COLOR_RESET) [];;
  let start := int_sub (history_count h) HISTORY_SIZE in
  let start := if decide (start < 0) then 0 else start in
  show_history_loop (Z.to_nat HISTORY_SIZE) h start;;
  printf "\n" [].

Definition clear_screen : prog unit := printf "\033[2J\033[H" [].

(** ** [readline] (lines 73-89) *)

(** The [while (i < max - 1)] loop; [rounds] is [max - 1 - i]. *)
Fixpoint readline_loop (rounds : nat) (buf : mem) (i : nat) : prog (mem * nat) :=
  match rounds with
  | O => Ret (buf, i)
  | S rounds =>
      r ← sys Read1;
      match r with
      | None => Ret (buf, i)                   (* read(0, &c, 1) < 1 *)
      | Some c =>
          if (c =? NL)%char then Ret (buf, i)
          else buf' ← lift (store buf i c); readline_loop rounds buf' (S i)
      end
  end.

Definition readline (buf : mem) (max : Z) : prog (mem * Z) :=
  '(buf, i) ← readline_loop (Z.to_nat (max - 1)) buf 0;
  buf ← lift (store buf i NUL);
  Ret (buf, Z.of_nat i).

(** ** The launchers (lines 117-159) *)

(** [exec(argv[0], argv)]: the path is the first string of the vector, null
    when the vector is empty. *)
Definition exec (m : mem) (argv : list ptr) : prog Z :=
  args ← lift (read_argv m argv);
  sys (Exec (head args) args).

Definition run_cmd (m : mem) (argv : list ptr) : prog unit :=
  pid ← sys Fork;
  if decide (pid = 0) then
    exec m argv;;
    printf (COLOR_RED +:+ "Error ejecutando comando\n" +:+ COLOR_RESET) [];;
    Exit 1
  else
    sys (Wait 0);; Ret tt.

(** [p[i]] of [int p[2]], written only by a successful [pipe(p)]. *)
Definition pipe_end (p : option (Z * Z)) (i : nat) : res Z :=
  match p, i with
  | Some (r, _), O => Ok r
  | Some (_, w), 1%nat => Ok w
  | _, _ => Undef
  end.

(** The body of the first [if (fork() == 0)] (lines 137-142): child A. *)
Definition pipe_child_a (p : option (Z * Z)) (m : mem) (left : list ptr) : prog unit :=
  sys (Close 1);;
  p1 ← lift (pipe_end p 1); sys (Dup p1);;
  p0 ← lift (pipe_end p 0); sys (Close p0);;
  p1 ← lift (pipe_end p 1); sys (Close p1);;
  exec m left;;
  Exit 1.

(** The body of the second [if (fork() == 0)] (lines 146-151): child B. *)
Definition pipe_child_b (p : option (Z * Z)) (m : mem) (right : list ptr) : prog unit :=
  sys (Close 0);;
  p0 ← lift (pipe_end p 0); sys (Dup p0);;
  p1 ← lift (pipe_end p 1); sys (Close p1);;
  p0 ← lift (pipe_end p 0); sys (Close p0);;
  exec m right;;
  Exit 1.

Definition run_pipe (m : mem) (left right : list ptr) : prog unit :=
  p ← sys Pipe;
  pid ← sys Fork;
  (if decide (pid = 0) then pipe_child_a p m left else Ret tt);;
  pid ← sys Fork;
  (if decide (pid = 0) then pipe_child_b p m right else Ret tt);;
  p0 ← lift (pipe_end p 0); sys (Close p0);;
  p1 ← lift (pipe_end p 1); sys (Close p1);;
  sys (Wait 0);;
  sys (Wait 0);;
  Ret tt.

(** ** Helpers of [main] (lines 163-187) *)

(** On strings: when [str] ends first, its terminator differs from the next
    character of [prefix]. *)
Fixpoint starts_with (str prefix : cstr) {struct prefix} : bool :=
  match prefix with
  | [] => true
  | p :: prefix' =>
      match str with
      | [] => false
      | c :: str' => if (c =? p)%char then starts_with str' prefix' else false
      end
  end.

Definition print_two_digits (n : Z) : prog unit :=
  if decide (n < 10) then printf "0%d" [PInt n] else printf "%d" [PInt n].

Definition print_banner : prog unit :=
  printf (COLOR_CYAN +:+ "BIENVENIDO EAFITOS\n" +:+ COLOR_RESET) [];;
  printf "Escribe 'ayuda' para ver comandos\n\n" [].

Definition is_digit (c : ascii) : bool :=
  (48 <=? nat_of_ascii c)%nat && (nat_of_ascii c <=? 57)%nat.

(** Modelled from the spec: [atoi] is declared in user/user.h and defined
    outside src/. Operands are parsed permissively: the leading decimal
    digits give the value, accumulated in an [int], and text that does not
    start with a digit parses as 0. *)
Fixpoint atoi_from (n : Z) (s : cstr) : Z :=
  match s with
  | [] => n
  | c :: s' =>
      if is_digit c
      then atoi_from (int_sub (int_add (int_mul n 10) (Z.of_nat (nat_of_ascii c))) 48) s'
      else n
  end.

Definition atoi (s : cstr) : Z := atoi_from 0 s.

(** ** [main] (lines 190-329) *)

(** The locals of [main] that live across iterations, and the globals. *)
Record shell : Type := Shell {
  hist : history_buffer;
  buf : mem;                     (* char buf[MAXLINE] *)
  argv : list ptr                (* char *argv[MAXARGS] *)
}.

(** Nothing reads [buf] or [argv] before [readline] and [parse] write them. *)
Definition shell_init : shell :=
  Shell history_init (replicate (Z.to_nat MAXLINE) NUL) (replicate MAXARGS Uninit).

Definition invalid_operation : prog unit :=
  printf (COLOR_RED +:+ "Operacion invalida\n" +:+ COLOR_RESET) [].

Definition usage : prog unit :=
  printf (COLOR_RED +:+ "Uso: calc n1 op n2\n" +:+ COLOR_RESET) [].

(** [a / b] at line 253: the test before it excludes [b == 0] only, so the
    division is undefined for [INT_MIN / -1]. *)
Definition checked_div (a b : Z) : res Z :=
  if decide (div_defined a b) then Ok (int_div a b) else Undef.

(** The calculator (lines 240-257), entered when [buf] starts with "calc ".
    [args[0] && args[1] && args[2]] reads [args[1]] only when [args[0]] is
    not null, and [args[2]] only when [args[1]] is not null either. *)
Definition calc (buf : mem) : prog mem :=
  '(buf, args) ← lift (parse buf 5 (replicate 4 Uninit));
  a0 ← lift (ptr_get args 0);
  match a0 with
  | Ptr p0 =>
      a1 ← lift (ptr_get args 1);
      match a1 with
      | Ptr p1 =>
          a2 ← lift (ptr_get args 2);
          match a2 with
          | Ptr p2 =>
              s0 ← lift (cstring_at buf p0);
              let a := atoi s0 in
              s2 ← lift (cstring_at buf p2);
              let b := atoi s2 in
              op ← lift (load buf p1);
              printf (COLOR_YELLOW +:+ "Resultado: " +:+ COLOR_RESET) [];;
              (if (op =? "+")%char then printf "%d\n" [PInt (int_add a b)]
               else if (op =? "-")%char then printf "%d\n" [PInt (int_sub a b)]
               else if (op =? "*")%char then printf "%d\n" [PInt (int_mul a b)]
               else if (op =? "/")%char && negb (b =? 0)
                    then q ← lift (checked_div a b); printf "%d\n" [PInt q]
               else invalid_operation);;
              Ret buf
          | _ => usage;; Ret buf
          end
      | _ => usage;; Ret buf
      end
  | _ => usage;; Ret buf
  end.

(** The simulated clock (lines 263-286). Its divisors are the constants
    100, 3600, 60 and 24: every division and remainder is defined. *)
Definition tiempo : prog unit :=
  ticks ← sys Uptime;
  let segundos_sistema := int_div ticks TICKS_PER_SECOND in
  let tiempo_total := int_add START_TIME segundos_sistema in
  let tiempo_total := int_add tiempo_total TIMEZONE_OFFSET in
  let horas := int_rem (int_div tiempo_total 3600) 24 in
  let minutos := int_rem (int_div tiempo_total 60) 60 in
  let seg := int_rem tiempo_total 60 in
  let horas := if decide (horas < 0) then int_add horas 24 else horas in
  printf (COLOR_YELLOW +:+ "Hora actual: " +:+ COLOR_RESET) [];;
  print_two_digits horas;;
  printf ":" [];;
  print_two_digits minutos;;
  printf ":" [];;
  print_two_digits seg;;
  printf "\n" [].

Definition ayuda : prog unit :=
  printf (COLOR_CYAN +:+ "\nComandos disponibles\n" +:+ COLOR_RESET) [];;
  printf "listar\n" [];;
  printf "leer <archivo>\n" [];;
  printf "calc n1 op n2\n" [];;
  printf "tiempo\n" [];;
  printf "historial\n" [];;
  printf "limpiar\n" [];;
  printf "salir\n\n" [].

(** [for (int i = 0; buf[i]; i++) if (buf[i] == '|') { pipepos = &buf[i];
    break; }]: the offset of the first '|' of the string, if any. *)
Fixpoint find_pipe (fuel : nat) (buf : mem) (i : nat) : res (option nat) :=
  match fuel with
  | O => NoFuel
  | S fuel =>
      c ← load buf i;
      if (c =? NUL)%char then Ok None
      else if (c =? BAR)%char then Ok (Some i)
      else find_pipe fuel buf (S i)
  end.

(** [while ( *right == ' ') right++;] *)
Fixpoint skip_blanks (fuel : nat) (buf : mem) (right : nat) : res nat :=
  match fuel with
  | O => NoFuel
  | S fuel =>
      c ← load buf right;
      if (c =? SP)%char then skip_blanks fuel buf (S right) else Ok right
  end.

(** The aliases (lines 289-297): "listar" becomes "ls" and "leer x" becomes
    "cat x", through the local [char temp[MAXLINE]]. *)
Definition rewrite_aliases (buf : mem) : res mem :=
  line ← cstring_at buf 0;
  buf ← (if decide (line = lit "listar") then strcpy buf 0 (lit "ls") else Ok buf);
  line ← cstring_at buf 0;
  if starts_with line (lit "leer ") then
    let temp := replicate (Z.to_nat MAXLINE) NUL in
    temp ← strcpy temp 0 (lit "cat ");
    rest ← cstring_at buf 5;
    temp ← strcpy temp 4 rest;
    copy ← cstring_at temp 0;
    strcpy buf 0 copy
  else Ok buf.

(** Generic execution (lines 299-325): split at the first '|' and launch a
    pipe, or launch one command. *)
Definition execute (s : shell) : prog shell :=
  pipepos ← lift (find_pipe (S (length (buf s))) (buf s) 0);
  match pipepos with
  | Some pos =>
      b ← lift (store (buf s) pos NUL);
      right ← lift (skip_blanks (S (length b)) b (S pos));
      '(b, left_args) ← lift (parse b 0 (replicate MAXARGS Uninit));
      '(b, right_args) ← lift (parse b right (replicate MAXARGS Uninit));
      run_pipe b left_args right_args;;
      Ret (Shell (hist s) b (argv s))
  | None =>
      '(b, argv) ← lift (parse (buf s) 0 (argv s));
      run_cmd b argv;;
      Ret (Shell (hist s) b argv)
  end.

(** One iteration from [add_history(buf)] on (lines 209-325); [Ret] is the
    end of the iteration, by [continue] or by reaching the closing brace. *)
Definition eval_line (s : shell) : prog shell :=
  line ← lift (cstring_at (buf s) 0);
  h ← lift (add_history line (hist s));
  let s := Shell h (buf s) (argv s) in
  if decide (line = lit "salir") then
    printf (COLOR_WHITE +:+ "\nCerrando eafitos...\n" +:+ COLOR_RESET) [];;
    Exit 0
  else if decide (line = lit "limpiar") then clear_screen;; Ret s
  else if decide (line = lit "historial") then show_history h;; Ret s
  else if decide (line = lit "ayuda") then ayuda;; Ret s
  else if starts_with line (lit "calc ") then
    b ← calc (buf s); Ret (Shell h b (argv s))
  else if decide (line = lit "tiempo") then tiempo;; Ret s
  else
    b ← lift (rewrite_aliases (buf s));
    execute (Shell h b (argv s)).

Definition prompt : string := COLOR_GREEN +:+ "Proyecto1 ❯ " +:+ COLOR_RESET.

(** One iteration of [while (1)] (lines 201-325). *)
Definition main_iteration (s : shell) : prog shell :=
  printf prompt [];;
  '(b, n) ← readline (buf s) MAXLINE;
  let s := Shell (hist s) b (argv s) in
  if decide (n ≤ 0) then Ret s
  else
    c ← lift (load b 0);
    if (c =? NUL)%char then Ret s
    else eval_line s.

(** The first [rounds] iterations of the loop. *)
Fixpoint main_loop (rounds : nat) (s : shell) : prog shell :=
  match rounds with
  | O => Ret s
  | S rounds => s' ← main_iteration s; main_loop rounds s'
  end.

Definition main (rounds : nat) : prog shell :=
  print_banner;; main_loop rounds shell_init.

(** A machine at boot: console on descriptors 0, 1 and 2 of the sixteen a
    process has, [slots] free process-table entries, no children. *)
Definition boot (input : list ascii) (programs : cstr → bool) (slots : nat) : world :=
  World input 0 programs (λ live, default 0 (head live))
        (replicate 3 (Some Console) ++ replicate 13 None)
        0 slots 3%positive [] [] [].

(** ** Notions used to state the properties *)

(** Successive calls of [add_history], oldest line first. *)
Fixpoint record_all (lines : list cstr) (h : history_buffer) : res history_buffer :=
  match lines with
  | [] => Ok h
  | l :: lines' => h' ← add_history l h; record_all lines' h'
  end.

(** [retains h es]: [h] is the buffer after the entries [es], numbered from
    1 in the order of entry. Entry number [i + 1] of the last ten is in row
    [i mod 10]; a row never written holds the empty string. *)
Definition retains (h : history_buffer) (es : list cstr) : Prop :=
  history_count h = Z.of_nat (length es)
  ∧ length (history h) = 10%nat
  ∧ (∀ i, (length es - 10 ≤ i < length es)%nat → history h !! (i mod 10)%nat = es !! i)
  ∧ (∀ k, (length es ≤ k < 10)%nat → history h !! k = Some []).

(** The non-empty lines of a sequence: the ones [add_history] records. *)
Definition entries (lines : list cstr) : list cstr := filter (λ l, l ≠ []) lines.

(** The machine after the calls [es] of the running process were logged. *)
Definition emits (es : list event) (w : world) : world :=
  World (w_stdin w) (w_ticks w) (w_programs w) (w_first w) (w_fds w) (w_pipes w)
        (w_slots w) (w_next w) (w_live w) (w_kids w) (w_log w ++ es).

(** Each entry with its sequence number, counted from 1. *)
Definition numbered (es : list cstr) : list (Z * cstr) :=
  imap (λ i e, (Z.of_nat i + 1, e)) es.

(** The last [min (length es) 10] entries, oldest first. *)
Definition retained (es : list cstr) : list (Z * cstr) :=
  drop (length es - 10) (numbered es).

(** The call that prints one line of the history listing. *)
Definition history_line (ne : Z * cstr) : event :=
  EvPrintf "%d  %s\n" [PInt ne.1; PStr ne.2].

(** What [readline] does with the console input [inp] in at most [rounds]
    rounds: the characters it stores, the input it leaves unread and the
    reads it makes. *)
Fixpoint line_of (rounds : nat) (inp : list ascii) : cstr :=
  match rounds, inp with
  | S rounds, c :: inp' => if (c =? NL)%char then [] else c :: line_of rounds inp'
  | _, _ => []
  end.

Fixpoint rest_of (rounds : nat) (inp : list ascii) : list ascii :=
  match rounds, inp with
  | S rounds, c :: inp' => if (c =? NL)%char then inp' else rest_of rounds inp'
  | _, _ => inp
  end.

Fixpoint reads_of (rounds : nat) (inp : list ascii) : list event :=
  match rounds, inp with
  | O, _ => []
  | S rounds, [] => [EvRead None]
  | S rounds, c :: inp' =>
      EvRead (Some c) :: (if (c =? NL)%char then [] else reads_of rounds inp')
  end.

(** The longest line [readline(buf, MAXLINE)] stores. *)
Definition LINE_CAP : nat := Z.to_nat (MAXLINE - 1).

(** The [printf] calls of a log, oldest first. *)
Definition printed (log : list event) : list (string * list parg) :=
  omap (λ e, match e with EvPrintf fmt args => Some (fmt, args) | _ => None end) log.

(** The [read] calls of a log, oldest first. *)
Definition reads (log : list event) : list (option ascii) :=
  omap (λ e, match e with EvRead r => Some r | _ => None end) log.

(** What the calculator prints for the tokens that follow "calc ". *)
Definition calc_output (ts : list cstr) : list event :=
  match ts with
  | x :: (op :: _) :: y :: _ =>
      let a := atoi x in
      let b := atoi y in
      [EvPrintf (COLOR_YELLOW +:+ "Resultado: " +:+ COLOR_RESET) [];
       if (op =? "+")%char then EvPrintf "%d\n" [PInt (int_add a b)]
       else if (op =? "-")%char then EvPrintf "%d\n" [PInt (int_sub a b)]
       else if (op =? "*")%char then EvPrintf "%d\n" [PInt (int_mul a b)]
       else if (op =? "/")%char && negb (b =? 0) then EvPrintf "%d\n" [PInt (int_div a b)]
       else EvPrintf (COLOR_RED +:+ "Operacion invalida\n" +:+ COLOR_RESET) []]
  | _ => [EvPrintf (COLOR_RED +:+ "Uso: calc n1 op n2\n" +:+ COLOR_RESET) []]
  end.

(** The tokens that follow "calc " ask for no division without a value:
    not for [INT_MIN / -1] (a division by 0 is refused by the calculator). *)
Definition calc_defined (ts : list cstr) : Prop :=
  match ts with
  | x :: (op :: _) :: y :: _ => op = "/"%char → ¬ (atoi x = INT_MIN ∧ atoi y = -1)
  | _ => True
  end.

(** A string without its leading spaces. *)
Fixpoint trim_left (s : cstr) : cstr :=
  match s with
  | c :: s' => if (c =? SP)%char then trim_left s' else s
  | [] => []
  end.

(** The line generic execution sees: "listar" has become "ls" and "leer x"
    has become "cat x". *)
Definition aliased (line : cstr) : cstr :=
  if decide (line = lit "listar") then lit "ls"
  else if starts_with line (lit "leer ") then lit "cat " ++ drop 5 line
  else line.

(** How a process ends at [exec(args[0], args)] followed by [exit(1)]: with
    the new image when the path can be loaded, with status 1 otherwise. *)
Definition exec_loads (w : world) (args : list cstr) : bool :=
  match head args with
  | Some path => w_programs w path
  | None => false
  end.

Definition exec_or_exit (w : world) (args : list cstr) : ending unit :=
  match head args with
  | Some path => if w_programs w path then Replaced path args else Exited 1
  | None => Exited 1
  end.

(** The parent after [wait] collected child [pid], [live] being the children
    still running. *)
Definition reaped (pid : Z) (live : list Z) (w : world) : world :=
  World (w_stdin w) (w_ticks w) (w_programs w) (w_first w) (w_fds w) (w_pipes w)
        (S (w_slots w)) (w_next w) live (w_kids w) (w_log w).

(** The characters of [l] before its first NUL. *)
Fixpoint upto_nul (l : list ascii) : cstr :=
  match l with
  | [] => []
  | c :: l' => if (c =? NUL)%char then [] else c :: upto_nul l'
  end.

(** The command line the shell holds after [readline] read from [inp]. *)
Definition command_line (inp : list ascii) : cstr :=
  upto_nul (line_of LINE_CAP inp).

(** The answers a call can give to the process that keeps running the
    shell: of [fork], all but 0, which is the answer in the child. *)
Definition parent_answer {X : Type} (c : call X) : X → Prop :=
  match c in call X return X → Prop with
  | Fork => λ pid, pid ≠ 0
  | _ => λ _, True
  end.

(** [quiet p]: no path of [p] in the shell process reaches [exit]. *)
Inductive quiet {A : Type} : prog A → Prop :=
| quiet_Ret a : quiet (Ret a)
| quiet_Crash : quiet Crash
| quiet_Starve : quiet Starve
| quiet_Sys {X} (c : call X) k :
    (∀ x, parent_answer c x → quiet (k x)) → quiet (Sys c k).

(** ** Notions used to state further properties *)

(** The calls that only write to the console or ask the time. *)
Definition console_call {X : Type} (c : call X) : bool :=
  match c with
  | Printf _ _ | Uptime => true
  | _ => false
  end.

(** The calls that take nothing from the console input. *)
Definition no_read {X : Type} (c : call X) : bool :=
  match c with
  | Read1 => false
  | _ => true
  end.

(** The record of a call that only wrote to the console or asked the time. *)
Definition is_output (e : event) : bool :=
  match e with
  | EvPrintf _ _ | EvUptime _ => true
  | _ => false
  end.

(** [within ok P p]: on every path of [p], whatever the answers of the
    kernel, each call is one of [ok] and a value returned satisfies [P]. *)
Inductive within {A : Type} (ok : ∀ X, call X → bool) (P : A → Prop) : prog A → Prop :=
| within_Ret a : P a → within ok P (Ret a)
| within_Crash : within ok P Crash
| within_Starve : within ok P Starve
| within_Exit st : within ok P (Exit st)
| within_Sys {X} (c : call X) k :
    ok X c → (∀ x, within ok P (k x)) → within ok P (Sys c k).

(** The call [print_two_digits(n)] makes. *)
Definition two_digits (n : Z) : event :=
  if decide (n < 10) then EvPrintf "0%d" [PInt n] else EvPrintf "%d" [PInt n].

(** The calls of the clock after [uptime], for the fields it computed. *)
Definition clock_output (horas minutos seg : Z) : list event :=
  [EvPrintf (COLOR_YELLOW +:+ "Hora actual: " +:+ COLOR_RESET) [];
   two_digits horas; EvPrintf ":" []; two_digits minutos; EvPrintf ":" [];
   two_digits seg; EvPrintf "\n" []].

(** The command lines that the answers [rs] to the successive [read] calls
    of a process make when [readline(buf, MAXLINE)] is what reads them: a
    line ends with a newline, with the end of the input and with its
    [LINE_CAP]th character, and is a command line up to its first NUL.
    [cur] is the part already read of the line being read. *)
Fixpoint lines_read (cur : list ascii) (rs : list (option ascii)) : list cstr :=
  match rs with
  | [] => []
  | None :: rs => upto_nul cur :: lines_read [] rs
  | Some c :: rs =>
      if (c =? NL)%char then upto_nul cur :: lines_read [] rs
      else if decide (S (length cur) = LINE_CAP) then upto_nul (cur ++ [c]) :: lines_read [] rs
      else lines_read (cur ++ [c]) rs
  end.

(** The machine without the record of the children spawned, which no call
    reads. *)
Definition strip (w : world) : world :=
  World (w_stdin w) (w_ticks w) (w_programs w) (w_first w) (w_fds w) (w_pipes w)
        (w_slots w) (w_next w) (w_live w) [] (w_log w).

(** The calls that touch nothing but the console. *)
Definition local_call {X : Type} (c : call X) : bool :=
  match c with
  | Read1 | Printf _ _ | Uptime => true
  | _ => false
  end.


(** [ends_with P p]: no path of [p], whatever the answers of the kernel,
    stops for lack of fuel, and a value returned satisfies [P]. *)
Inductive ends_with {A : Type} (P : A → Prop) : prog A → Prop :=
| ends_Ret a : P a → ends_with P (Ret a)
| ends_Crash : ends_with P Crash
| ends_Exit st : ends_with P (Exit st)
| ends_Sys {X} (c : call X) k : (∀ x, ends_with P (k x)) → ends_with P (Sys c k).

(** A child that was not cut short by the fuel of the embedding. *)
Definition child_ended (c : child) : Prop := c_end c ≠ Starved.

(** The value of an [int]. *)
Definition is_int (z : Z) : Prop := INT_MIN ≤ z ≤ INT_MAX.

(** [exits_1 p]: the code of a child: no path of [p] returns, and its only
    [exit] is [exit(1)]. *)
Inductive exits_1 {A : Type} : prog A → Prop :=
| exits_Crash : exits_1 Crash
| exits_Exit : exits_1 (Exit 1)
| exits_Sys {X} (c : call X) k : (∀ x, exits_1 (k x)) → exits_1 (Sys c k).

Definition is_fork {X : Type} (c : call X) : bool :=
  match c with
  | Fork => true
  | _ => false
  end.

(** [spawns p]: wherever [p] forks, the code of the child is one of
    [exits_1]. *)
Inductive spawns {A : Type} : prog A → Prop :=
| spawns_Ret a : spawns (Ret a)
| spawns_Crash : spawns Crash
| spawns_Starve : spawns Starve
| spawns_Exit st : spawns (Exit st)
| spawns_Fork k :
    exits_1 (k 0) → (∀ pid, pid ≠ 0 → spawns (k pid)) → spawns (Sys Fork k)
| spawns_Sys {X} (c : call X) k :
    is_fork c = false → (∀ x, spawns (k x)) → spawns (Sys c k).

(** How a child of the shell can end: with the image [exec] loaded, with
    [exit(1)], or in undefined behaviour. *)
Definition child_end (c : child) : Prop :=
  c_end c = Exited 1 ∨ c_end c = Crashed ∨ ∃ path args, c_end c = Replaced path args.

(** * Properties *)

(** ** Lemmas on memory and [parse] *)

Lemma bind_Ok {A B} (a : A) (f : A → res B) : (Ok a ≫= f) = f a.
Proof. reflexivity. Qed.

Lemma load_app_r (pre : mem) c post : load (pre ++ c :: post) (length pre) = Ok c.
Proof. unfold load. by rewrite list_lookup_middle. Qed.

Lemma store_app_r (pre : mem) c d post :
  store (pre ++ c :: post) (length pre) d = Ok (pre ++ d :: post).
Proof.
  unfold store. rewrite decide_True.
  - f_equal. rewrite insert_app_r_alt by lia. by rewrite Nat.sub_diag.
  - rewrite length_app. simpl. lia.
Qed.

Lemma eqb_SP_false c : c ≠ SP → (c =? SP)%char = false.
Proof. by intros ?%Ascii.eqb_neq. Qed.

Lemma eqb_NUL_false c : c ≠ NUL → (c =? NUL)%char = false.
Proof. by intros ?%Ascii.eqb_neq. Qed.

Lemma parse_blanks_run k : ∀ fuel pre c post,
  c ≠ SP → (k < fuel)%nat →
  parse_blanks fuel (pre ++ replicate k SP ++ c :: post) (length pre)
  = Ok (pre ++ replicate k NUL ++ c :: post, (length pre + k)%nat).
Proof.
  induction k as [|k IH]; intros fuel pre c post Hc Hf;
    (destruct fuel as [|fuel]; [lia|]); simpl.
  - rewrite load_app_r. simpl. rewrite eqb_SP_false by done.
    by rewrite Nat.add_0_r.
  - rewrite load_app_r. simpl. rewrite store_app_r. simpl.
    specialize (IH fuel (pre ++ [NUL]) c post Hc ltac:(lia)).
    rewrite length_app in IH. simpl in IH.
    rewrite <- !(assoc_L (++)) in IH. simpl in IH.
    rewrite Nat.add_1_r in IH. rewrite IH.
    do 2 f_equal. lia.
Qed.

Lemma parse_word_run w : ∀ fuel pre c post,
  SP ∉ w → NUL ∉ w → c = SP ∨ c = NUL → (length w < fuel)%nat →
  parse_word fuel (pre ++ w ++ c :: post) (length pre)
  = Ok (length pre + length w)%nat.
Proof.
  induction w as [|a w IH]; intros fuel pre c post Hsp Hnul Hc Hf;
    (destruct fuel as [|fuel]; [simpl in Hf; lia|]); simpl.
  - rewrite load_app_r. simpl.
    destruct Hc as [-> | ->]; simpl; by rewrite Nat.add_0_r.
  - rewrite load_app_r. simpl.
    apply not_elem_of_cons in Hsp as [? ?], Hnul as [? ?].
    rewrite eqb_SP_false, eqb_NUL_false by done. simpl.
    specialize (IH fuel (pre ++ [a]) c post).
    rewrite length_app in IH. simpl in IH.
    rewrite <- !(assoc_L (++)) in IH. simpl in IH.
    rewrite Nat.add_1_r in IH. rewrite IH; [|done..|simpl in Hf; lia].
    f_equal. lia.
Qed.

Lemma cstring_app (w : cstr) post : NUL ∉ w → cstring (w ++ NUL :: post) = Ok w.
Proof.
  induction w as [|a w IH]; intros Hw; simpl; [done|].
  apply not_elem_of_cons in Hw as [? ?].
  rewrite eqb_NUL_false by done. by rewrite IH.
Qed.

Lemma cstring_at_app (pre w : cstr) post :
  NUL ∉ w → cstring_at (pre ++ w ++ NUL :: post) (length pre) = Ok w.
Proof.
  intros Hw. unfold cstring_at. rewrite decide_True.
  - rewrite drop_app_length. by apply cstring_app.
  - rewrite !length_app. simpl. lia.
Qed.

Lemma blank_to_nul_id (w : cstr) : SP ∉ w → blank_to_nul <$> w = w.
Proof.
  induction w as [|a w IH]; intros Hw; [done|].
  apply not_elem_of_cons in Hw as [? ?].
  rewrite fmap_cons, IH by done.
  unfold blank_to_nul. by rewrite eqb_SP_false.
Qed.

Lemma blank_to_nul_blanks k : blank_to_nul <$> replicate k SP = replicate k NUL.
Proof. by rewrite fmap_replicate. Qed.

(** [parse_loop] on a line whose runs are [ts]: every space of the line is
    overwritten by a terminator and the offsets of the runs are stored from
    [argv[i]] on, followed by the null sentinel. *)
Lemma parse_loop_runs b line ts :
  runs_at b line ts →
  ∀ pre post argv i fuel,
    length pre = b → NUL ∉ line →
    (i + length ts < length argv)%nat → (length ts < fuel)%nat →
    parse_loop fuel (pre ++ line ++ NUL :: post) b argv i
    = Ok (pre ++ (blank_to_nul <$> line) ++ NUL :: post,
           take i argv ++ (Ptr <$> ts.*1) ++ Null :: drop (S (i + length ts)) argv).
Proof.
  induction 1 as [b k | b k w rest ts Hw Hsp Hrest Hruns IH];
    intros pre post argv i fuel Hb Hnul Hi Hf;
    (destruct fuel as [|fuel]; [simpl in Hf; lia|]); subst b.
  - (* only blanks are left *)
    rewrite blank_to_nul_blanks, Nat.add_0_r. cbn [parse_loop].
    assert (Hset : ptr_set argv i Null = Ok (take i argv ++ Null :: drop (S i) argv)).
    { unfold ptr_set. rewrite decide_True by (simpl in Hi; lia). f_equal.
      apply insert_take_drop. simpl in Hi. lia. }
    destruct k as [|k].
    + cbn [replicate app]. rewrite load_app_r, bind_Ok. cbn [Ascii.eqb NUL zero Bool.eqb].
      by rewrite Hset.
    + assert (Hhd : load (pre ++ replicate (S k) SP ++ NUL :: post) (length pre) = Ok SP).
      { cbn [replicate app]. apply load_app_r. }
      rewrite Hhd, bind_Ok. cbn [Ascii.eqb NUL SP zero Bool.eqb].
      rewrite parse_blanks_run by (done || (rewrite !length_app, length_replicate; simpl; lia)).
      rewrite bind_Ok. cbn beta iota.
      replace (pre ++ replicate (S k) NUL ++ NUL :: post)
        with ((pre ++ replicate (S k) NUL) ++ NUL :: post)
        by (by rewrite <- (assoc_L (++))).
      replace (length pre + S k)%nat with (length (pre ++ replicate (S k) NUL))
        by (by rewrite length_app, length_replicate).
      rewrite load_app_r, bind_Ok. cbn [Ascii.eqb NUL zero Bool.eqb].
      rewrite Hset. rewrite bind_Ok.
      by rewrite <- (assoc_L (++)).
  - (* blanks, a run, and the rest of the line *)
    destruct w as [|c w]; [done|].
    apply not_elem_of_app in Hnul as [_ Hnul].
    apply not_elem_of_app in Hnul as [Hnulw Hnulr].
    pose proof Hnulw as Hnulw'. pose proof Hsp as Hsp'.
    apply not_elem_of_cons in Hnulw as [Hc0 Hw0], Hsp as [Hc1 Hw1].
    assert (∃ d tl, rest ++ NUL :: post = d :: tl ∧ (d = SP ∨ d = NUL))
      as (d & tl & Htl & Hd).
    { destruct Hrest as [-> | [r ->]]; simpl; eauto. }
    set (m := pre ++ (replicate k SP ++ (c :: w) ++ rest) ++ NUL :: post).
    set (post' := w ++ rest ++ NUL :: post).
    assert (Hm : m = pre ++ replicate k SP ++ c :: post').
    { unfold m, post'. by rewrite <- !(assoc_L (++)). }
    assert (Hlen : (k + S (length w) < length m)%nat).
    { unfold m. rewrite !length_app, length_replicate. simpl. lia. }
    cbn [parse_loop]. 
    assert (∃ c', load m (length pre) = Ok c' ∧ c' ≠ NUL) as (c' & -> & Hc').
    { rewrite Hm. destruct k; simpl; rewrite load_app_r; eauto. }
    rewrite bind_Ok, eqb_NUL_false by done.
    rewrite Hm at 2. rewrite parse_blanks_run by (done || lia).
    rewrite bind_Ok. cbn beta iota.
    set (pre1 := pre ++ replicate k NUL).
    assert (Hpre1 : (length pre + k)%nat = length pre1).
    { unfold pre1. by rewrite length_app, length_replicate. }
    replace (pre ++ replicate k NUL ++ c :: post') with (pre1 ++ c :: post')
      by (unfold pre1; by rewrite <- (assoc_L (++))).
    rewrite Hpre1, load_app_r, bind_Ok, eqb_NUL_false by done.
    unfold ptr_set at 1. rewrite decide_True by (simpl in Hi; lia).
    rewrite bind_Ok.
    replace (pre1 ++ c :: post') with (pre1 ++ (c :: w) ++ d :: tl)
      by (unfold post'; by rewrite <- Htl).
    rewrite parse_word_run by (done || simpl; lia).
    rewrite bind_Ok.
    replace (pre1 ++ (c :: w) ++ d :: tl) with ((pre1 ++ c :: w) ++ rest ++ NUL :: post)
      by (rewrite <- Htl; by rewrite <- !(assoc_L (++))).
    rewrite <- Hpre1.
    rewrite (IH (pre1 ++ c :: w) post); [| | done | |].
    + f_equal. f_equal.
      * unfold pre1. rewrite !fmap_app, blank_to_nul_blanks, (blank_to_nul_id (c :: w)) by done.
        by rewrite <- !(assoc_L (++)).
      * cbn [fmap list_fmap fst length]. simpl in Hi.
        rewrite (take_S_r _ _ (Ptr (length pre + k))) by (apply list_lookup_insert_eq; lia).
        rewrite take_insert_ge, drop_insert_lt by lia.
        rewrite <- !(assoc_L (++)). cbn [app].
        do 5 f_equal. lia.
    + unfold pre1. rewrite !length_app, length_replicate. simpl. lia.
    + rewrite length_insert. simpl in Hi. lia.
    + simpl in Hf. lia.
Qed.

(** After [parse], the stored pointers read back as the runs. *)
Lemma read_argv_runs b line ts :
  runs_at b line ts →
  ∀ pre post tail,
    length pre = b → NUL ∉ line →
    read_argv (pre ++ (blank_to_nul <$> line) ++ NUL :: post)
              ((Ptr <$> ts.*1) ++ Null :: tail)
    = Ok ts.*2.
Proof.
  induction 1 as [b k | b k w rest ts Hw Hsp Hrest Hruns IH];
    intros pre post tail Hb Hnul; subst b; [done|].
  apply not_elem_of_app in Hnul as [_ Hnul].
  apply not_elem_of_app in Hnul as [Hnulw Hnulr].
  rewrite !fmap_app, blank_to_nul_blanks, (blank_to_nul_id w) by done.
  cbn [fmap list_fmap fst snd app read_argv].
  set (pre1 := pre ++ replicate k NUL).
  assert (Hpre1 : (length pre + k)%nat = length pre1).
  { unfold pre1. by rewrite length_app, length_replicate. }
  assert (∃ tl, (blank_to_nul <$> rest) ++ NUL :: post = NUL :: tl) as [tl Htl].
  { destruct Hrest as [-> | [r ->]]; simpl; eauto. }
  assert (Hm : pre ++ (replicate k NUL ++ w ++ (blank_to_nul <$> rest)) ++ NUL :: post
               = pre1 ++ w ++ NUL :: tl).
  { unfold pre1. rewrite <- Htl. by rewrite <- !(assoc_L (++)). }
  rewrite Hm at 1. rewrite Hpre1, cstring_at_app, bind_Ok by done.
  specialize (IH (pre1 ++ w) post tail).
  rewrite <- !(assoc_L (++)) in IH. unfold pre1 in IH.
  rewrite <- !(assoc_L (++)) in IH. rewrite <- !(assoc_L (++)).
  rewrite IH; [done| |done].
  rewrite !length_app, length_replicate. lia.
Qed.

Lemma tokens_blanks k line : tokens (replicate k SP ++ line) = tokens line.
Proof. induction k as [|k IH]; [done|]. simpl. apply IH. Qed.

Lemma tokens_run w rest :
  w ≠ [] → SP ∉ w → (rest = [] ∨ ∃ r, rest = SP :: r) →
  tokens (w ++ rest) = w :: tokens rest.
Proof.
  intros Hw Hsp Hrest. induction w as [|c w IH]; [done|].
  apply not_elem_of_cons in Hsp as [Hc Hsp].
  cbn [app tokens]. rewrite eqb_SP_false by done.
  destruct w as [|c2 w].
  - cbn [app]. destruct Hrest as [-> | [r ->]]; [done|].
    cbn [head]. by destruct (tokens (SP :: r)).
  - rewrite IH by done. cbn [app head].
    apply not_elem_of_cons in Hsp as [Hc2 _].
    by rewrite eqb_SP_false.
Qed.

(** The relation and the function describe the same runs. *)
Lemma runs_at_tokens b line ts : runs_at b line ts → ts.*2 = tokens line.
Proof.
  induction 1 as [b k | b k w rest ts Hw Hsp Hrest Hruns IH].
  - rewrite <- (app_nil_r (replicate k SP)). by rewrite tokens_blanks.
  - rewrite tokens_blanks, tokens_run by done. cbn. by rewrite IH.
Qed.

Lemma runs_at_blank b line ts : runs_at (S b) line ts → runs_at b (SP :: line) ts.
Proof.
  inversion 1 as [b' k | b' k w rest ts' Hw Hsp Hrest Hruns]; subst.
  - apply (runs_blank b (S k)).
  - replace (S b + k)%nat with (b + S k)%nat by lia.
    apply (runs_word b (S k) w rest ts'); try done.
    by replace (b + S k + length w)%nat with (S b + k + length w)%nat by lia.
Qed.

Lemma runs_at_char b c line ts :
  c ≠ SP → runs_at (S b) line ts → ∃ ts', runs_at b (c :: line) ts'.
Proof.
  intros Hc. inversion 1 as [b' k | b' k w rest ts' Hw Hsp Hrest Hruns]; subst.
  - exists [((b + 0)%nat, [c])].
    apply (runs_word b 0 [c] (replicate k SP) []); try done.
    + apply not_elem_of_cons; split; [congruence | done || apply not_elem_of_nil].
    + destruct k; simpl; eauto.
    + apply runs_blank.
  - destruct k as [|k].
    + exists (((b + 0)%nat, c :: w) :: ts').
      apply (runs_word b 0 (c :: w) rest ts'); try done.
      * apply not_elem_of_cons; split; [congruence | done || apply not_elem_of_nil].
      * by replace (b + 0 + length (c :: w))%nat with (S b + 0 + length w)%nat
          by (simpl; lia).
    + eexists. apply (runs_word b 0 [c] (replicate (S k) SP ++ w ++ rest)); try done.
      * apply not_elem_of_cons; split; [congruence | done || apply not_elem_of_nil].
      * simpl; eauto.
      * replace (b + 0 + length [c])%nat with (S b) by (simpl; lia).
        by apply (runs_word (S b) (S k) w rest ts').
Qed.

(** Every line has runs. *)
Lemma runs_at_total line : ∀ b, ∃ ts, runs_at b line ts.
Proof.
  induction line as [|c line IH]; intros b.
  - exists []. apply (runs_blank b 0).
  - destruct (IH (S b)) as [ts Hts].
    destruct (decide (c = SP)) as [-> | Hc].
    + exists ts. by apply runs_at_blank.
    + by apply (runs_at_char b c line ts).
Qed.

(** [parse] on a terminated line, when the pointer array has room for the
    runs and the sentinel. *)
Lemma parse_tokens pre line post argv :
  NUL ∉ line → (length (tokens line) < length argv)%nat →
  ∃ argv',
    parse (pre ++ line ++ NUL :: post) (length pre) argv
    = Ok (pre ++ (blank_to_nul <$> line) ++ NUL :: post, argv')
    ∧ (∀ post', read_argv (pre ++ (blank_to_nul <$> line) ++ NUL :: post') argv'
                = Ok (tokens line))
    ∧ length argv' = length argv
    ∧ argv' !! length (tokens line) = Some Null
    ∧ ∀ j, (j < length (tokens line))%nat → ∃ p, argv' !! j = Some (Ptr p).
Proof.
  intros Hnul Hcap.
  destruct (runs_at_total line (length pre)) as [ts Hts].
  pose proof (runs_at_tokens _ _ _ Hts) as Htok.
  assert (Hlen : length ts = length (tokens line)).
  { by rewrite <- Htok, length_fmap. }
  eexists. split; [|split; [|split; [|split]]].
  - unfold parse. apply (parse_loop_runs _ _ _ Hts); try done.
    + simpl. lia.
    + rewrite !length_app. simpl.
      assert (length ts ≤ length line)%nat; [|lia].
      rewrite Hlen. clear. induction line as [|c l IH]; [done|].
      cbn [tokens]. destruct (c =? SP)%char; [simpl; lia|].
      destruct (head l), (tokens l) as [|w ws]; simpl in *; try lia.
      destruct (a =? SP)%char; simpl; lia.
  - intros post'. rewrite take_0, app_nil_l, Nat.add_0_l.
    rewrite <- Htok. by apply (read_argv_runs _ _ _ Hts).
  - rewrite take_0, app_nil_l, Nat.add_0_l. rewrite length_app, !length_fmap. cbn [length].
    rewrite length_drop. lia.
  - rewrite take_0, app_nil_l, Nat.add_0_l. rewrite <- Hlen.
    rewrite lookup_app_r by (by rewrite !length_fmap).
    by rewrite !length_fmap, Nat.sub_diag.
  - intros j Hj. rewrite take_0, app_nil_l, Nat.add_0_l.
    rewrite lookup_app_l by (rewrite !length_fmap; lia).
    rewrite list_lookup_fmap.
    destruct (ts.*1 !! j) as [p|] eqn:Hp; [by exists p|].
    apply lookup_ge_None in Hp. rewrite length_fmap in Hp. lia.
Qed.

Example tokens_abc : tokens (lit "a  b   c") = [lit "a"; lit "b"; lit "c"].
Proof. reflexivity. Qed.

Example tokens_blank_line : tokens (lit "   ") = [].
Proof. reflexivity. Qed.


(** ** The history buffer *)

Lemma wrap_small z : INT_MIN ≤ z ≤ INT_MAX → wrap z = z.
Proof. unfold wrap, INT_MIN, INT_MAX. intros H. rewrite Z.mod_small; lia. Qed.

Lemma rem_index (n : nat) : Z.to_nat (Z.rem (Z.of_nat n) HISTORY_SIZE) = (n mod 10)%nat.
Proof.
  unfold HISTORY_SIZE. rewrite Z.rem_mod_nonneg by lia.
  change 10 with (Z.of_nat 10). by rewrite <- Nat2Z.inj_mod, Nat2Z.id.
Qed.

Lemma retains_init : retains history_init [].
Proof.
  repeat split; try done.
  - intros i Hi. simpl in Hi. lia.
  - intros k Hk. apply lookup_replicate. split; [done|]. unfold HISTORY_SIZE. lia.
Qed.

Lemma add_history_retains h es e :
  retains h es → e ≠ [] → Z.of_nat (length e) < MAXLINE →
  Z.of_nat (length es) < INT_MAX →
  add_history e h
  = Ok (History (<[(length es mod 10)%nat:=e]> (history h)) (Z.of_nat (length es) + 1))
  ∧ retains (History (<[(length es mod 10)%nat:=e]> (history h))
                     (Z.of_nat (length es) + 1)) (es ++ [e]).
Proof.
  intros (Hcount & Hrows & Hwin & Hfree) He Hlen Hmax.
  assert (Hmod : (length es mod 10 < 10)%nat) by (apply Nat.mod_upper_bound; lia).
  split.
  - destruct e as [|c e]; [done|]. unfold add_history.
    rewrite Hcount. unfold row_set. rewrite decide_True.
    + cbn. rewrite rem_index. do 2 f_equal.
      unfold int_add. apply wrap_small. unfold INT_MIN, INT_MAX in *. lia.
    + split; [|done]. rewrite Hrows. unfold HISTORY_SIZE.
      pose proof (Z.rem_bound_pos (Z.of_nat (length es)) 10). lia.
  - unfold retains. cbn [history history_count].
    rewrite length_app, length_insert. cbn [length].
    split; [lia|]. split; [done|]. split.
    + intros i Hi. destruct (decide (i = length es)) as [-> | Hne].
      * rewrite list_lookup_insert_eq by lia.
        by rewrite lookup_app_r, Nat.sub_diag by lia.
      * rewrite list_lookup_insert_ne.
        -- rewrite lookup_app_l by lia. apply Hwin. lia.
        -- intros Heq.
           pose proof (Nat.div_mod_eq i 10). pose proof (Nat.div_mod_eq (length es) 10).
           lia.
    + intros k Hk. rewrite list_lookup_insert_ne.
      * apply Hfree. lia.
      * rewrite Nat.mod_small by lia. lia.
Qed.

Lemma record_all_retains lines : ∀ h es,
  retains h es →
  Forall (λ l, Z.of_nat (length l) < MAXLINE) lines →
  Z.of_nat (length es + length lines) ≤ INT_MAX →
  ∃ h', record_all lines h = Ok h' ∧ retains h' (es ++ entries lines).
Proof.
  induction lines as [|l lines IH]; intros h es Hret Hlen Hmax.
  - exists h. by rewrite app_nil_r.
  - apply Forall_cons in Hlen as [Hl Hlen]. cbn [length] in Hmax.
    destruct (decide (l = [])) as [-> | Hne].
    + change (record_all ([] :: lines) h) with (record_all lines h).
      unfold entries. rewrite filter_cons_False by naive_solver.
      apply IH; try done. lia.
    + destruct (add_history_retains h es l Hret Hne Hl) as [Hadd Hret']; [lia|].
      cbn [record_all]. rewrite Hadd, bind_Ok.
      unfold entries. rewrite filter_cons_True by done.
      rewrite cons_middle, (assoc_L (++)). apply IH; try done.
      rewrite length_app. cbn [length]. lia.
Qed.

(** C1 (as amended). History record: an empty line changes nothing; a
    non-empty line (shorter than a row) is copied to row
    [history_count mod 10] and the count grows by one. After any sequence of
    fewer than [INT_MAX] records, the entry with sequence number [i],
    counted from 1, of the last ten is in row [(i - 1) mod 10], and every
    row holds one of these entries or was never written: entries numbered
    [history_count - 10] or less are gone. *)
Theorem history_record (lines : list cstr) (line : cstr) :
  Forall (λ l, Z.of_nat (length l) < MAXLINE) (line :: lines) →
  Z.of_nat (length lines) < INT_MAX →
  ∃ h, record_all lines history_init = Ok h
    ∧ history_count h = Z.of_nat (length (entries lines))
    ∧ (∀ i, (length (entries lines) - 10 < i ≤ length (entries lines))%nat →
         history h !! ((i - 1) mod 10)%nat = entries lines !! (i - 1)%nat)
    ∧ (∀ k e, history h !! k = Some e →
         (length (entries lines) ≤ k)%nat ∧ e = []
         ∨ ∃ i, (length (entries lines) - 10 < i ≤ length (entries lines))%nat
              ∧ ((i - 1) mod 10)%nat = k
              ∧ entries lines !! (i - 1)%nat = Some e)
    ∧ add_history [] h = Ok h
    ∧ (line ≠ [] →
       add_history line h
       = Ok (History (<[Z.to_nat (history_count h mod HISTORY_SIZE):=line]> (history h))
                     (history_count h + 1))).
Proof.
  intros [Hline Hlines]%Forall_cons Hmax.
  destruct (record_all_retains lines history_init [] retains_init Hlines)
    as (h & Hrec & Hret); [simpl; lia|].
  rewrite app_nil_l in Hret. set (es := entries lines) in *.
  assert (Hes : (length es ≤ length lines)%nat) by apply length_filter.
  pose proof Hret as (Hcount & Hrows & Hwin & Hfree).
  exists h. repeat split; try done.
  - intros i Hi. apply Hwin. lia.
  - intros k e Hk.
    assert (Hk10 : (k < 10)%nat) by (rewrite <- Hrows; by eapply lookup_lt_Some).
    destruct (decide (length es ≤ k)%nat) as [Hge | Hlt].
    + left. split; [done|]. rewrite Hfree in Hk by lia. congruence.
    + right. exists (length es - (length es - 1 - k) mod 10)%nat.
      pose proof (Nat.mod_upper_bound (length es - 1 - k) 10).
      pose proof (Nat.Div0.mod_le (length es - 1 - k) 10).
      assert (Hm : ((length es - (length es - 1 - k) mod 10 - 1) mod 10 = k)%nat).
      { pose proof (Nat.div_mod_eq (length es - 1 - k) 10).
        pose proof (Nat.div_mod_eq (length es - (length es - 1 - k) mod 10 - 1) 10).
        pose proof (Nat.mod_upper_bound (length es - (length es - 1 - k) mod 10 - 1) 10).
        lia. }
      split; [lia|]. split; [done|].
      rewrite <- Hwin by lia. by rewrite Hm.
  - intros Hne.
    destruct (add_history_retains h es line Hret Hne Hline) as [-> _]; [lia|].
    rewrite Hcount. do 3 f_equal.
    unfold HISTORY_SIZE. change 10 with (Z.of_nat 10).
    by rewrite <- Nat2Z.inj_mod, Nat2Z.id.
Qed.

Lemma history_record_witness :
  ∃ h, record_all [lit "ls"; []; lit "cat x"] history_init = Ok h
     ∧ history_count h = 2
     ∧ history h !! 1%nat = Some (lit "cat x").
Proof.
  destruct (history_record [lit "ls"; []; lit "cat x"] (lit "wc"))
    as (h & Hrec & Hcount & Hwin & _).
  - repeat constructor; by vm_compute.
  - by vm_compute.
  - exists h. split; [done|]. split; [done|]. apply (Hwin 2%nat). simpl. lia.
Defined.

(** C1 as stated fails: the first entry has sequence number 1 and is in row
    0, not in row [1 mod 10]; and were the numbers counted from 0, entry
    number [history_count - 10] would still be held after ten records. *)
Lemma history_record_as_stated :
  let one := [lit "a"] in
  let ten := [lit "0"; lit "1"; lit "2"; lit "3"; lit "4";
              lit "5"; lit "6"; lit "7"; lit "8"; lit "9"] in
  (∃ h, record_all one history_init = Ok h
      ∧ history_count h = 1
      ∧ history h !! (1 mod 10)%nat ≠ Some (lit "a")
      ∧ history h !! 0%nat = Some (lit "a"))
  ∧ (∃ h, record_all ten history_init = Ok h
      ∧ history_count h - HISTORY_SIZE = 0
      ∧ history h !! 0%nat = ten !! 0%nat).
Proof.
  split.
  - eexists. split; [by vm_compute|]. by vm_compute.
  - eexists. split; [by vm_compute|]. by vm_compute.
Qed.

(** ** Running programs *)

Lemma emits_nil w : emits [] w = w.
Proof. destruct w. unfold emits. cbn. by rewrite app_nil_r. Qed.

Lemma emits_cons e es w : emits (e :: es) w = emits es (emit e w).
Proof. unfold emits, emit. cbn. by rewrite <- (assoc_L (++)). Qed.

Lemma emits_app es1 es2 w : emits (es1 ++ es2) w = emits es2 (emits es1 w).
Proof. unfold emits. cbn. by rewrite (assoc_L (++)). Qed.

Lemma emit_emits e w : emit e w = emits [e] w.
Proof. done. Qed.

Lemma run_printf {B} fmt args (f : unit → prog B) w :
  run (printf fmt args ≫= f) w = run (f tt) (emits [EvPrintf fmt args] w).
Proof. done. Qed.

Lemma run_read1 {B} (f : option ascii → prog B) w :
  run (sys Read1 ≫= f) w
  = match w_stdin w with
    | [] => run (f None) (emit (EvRead None) w)
    | c :: rest => run (f (Some c)) (emit (EvRead (Some c)) (set_stdin rest w))
    end.
Proof. done. Qed.

Lemma run_lift_Ok {A B} (a : A) (f : A → prog B) w :
  run (lift (Ok a) ≫= f) w = run (f a) w.
Proof. done. Qed.

Lemma run_assoc {A B C} (p : prog A) (g : A → prog B) (f : B → prog C) : ∀ w,
  run ((p ≫= g) ≫= f) w = run (p ≫= (λ x, g x ≫= f)) w.
Proof.
  induction p as [a| | |st|X c k IH]; intros w; try done.
  change (run (Sys c (λ x, (k x ≫= g) ≫= f)) w
          = run (Sys c (λ x, k x ≫= (λ y, g y ≫= f))) w).
  destruct c as [|fmt args| | |fd|fd|path argv|st|]; cbn [run]; rewrite ?IH; try done.
  - by destruct (w_stdin w).
  - destruct (w_slots w); [done|].
    destruct (run _ (child_world w)) as [wc ec]. by rewrite IH.
  - by destruct (sys_pipe w).
  - by destruct (sys_close fd w).
  - by destruct (sys_dup fd w).
  - by destruct (sys_wait w).
Qed.

Lemma run_ret_r {A} (p : prog A) : ∀ w, run (p ≫= Ret) w = run p w.
Proof.
  induction p as [a| | |st|X c k IH]; intros w; try done.
  change (run (Sys c (λ x, k x ≫= Ret)) w = run (Sys c k) w).
  destruct c as [|fmt args| | |fd|fd|path argv|st|]; cbn [run]; rewrite ?IH; try done.
  - by destruct (w_stdin w).
  - destruct (w_slots w); [done|].
    destruct (run _ (child_world w)) as [wc ec]. by rewrite IH.
  - by destruct (sys_pipe w).
  - by destruct (sys_close fd w).
  - by destruct (sys_dup fd w).
  - by destruct (sys_wait w).
Qed.

(** ** [show_history] *)

Lemma numbered_lookup es i e :
  es !! i = Some e → numbered es !! i = Some (Z.of_nat i + 1, e).
Proof. intros H. unfold numbered. by rewrite list_lookup_imap, H. Qed.

Lemma run_show_history_loop h es k : ∀ i fuel,
  retains h es → (i + k = length es)%nat → (length es - 10 ≤ i)%nat →
  (k ≤ fuel)%nat → Z.of_nat (length es) ≤ INT_MAX →
  ∀ B (f : unit → prog B) w,
    run (show_history_loop fuel h (Z.of_nat i) ≫= f) w
    = run (f tt) (emits (history_line <$> drop i (numbered es)) w).
Proof.
  induction k as [|k IH]; intros i fuel Hret Hik Hwin Hfuel Hmax B f w;
    pose proof Hret as (Hcount & Hrows & Hrow & _).
  - assert (Hlast : show_history_loop fuel h (Z.of_nat i) = Ret tt).
    { destruct fuel; cbn [show_history_loop]; by rewrite decide_False by lia. }
    rewrite Hlast, drop_ge by (unfold numbered; rewrite length_imap; lia).
    by rewrite emits_nil.
  - destruct fuel as [|fuel]; [lia|]. cbn [show_history_loop].
    rewrite decide_True by lia.
    destruct (es !! i) as [e|] eqn:He;
      [|apply lookup_ge_None in He; lia].
    assert (Hget : row_get (history h) (Z.rem (Z.of_nat i) HISTORY_SIZE) = Ok e).
    { unfold row_get. rewrite decide_True, rem_index, Hrow, He; try done; [lia|].
      unfold HISTORY_SIZE. pose proof (Z.rem_bound_pos (Z.of_nat i) 10). lia. }
    rewrite Hget.
    assert (Hnext : int_add (Z.of_nat i) 1 = Z.of_nat (S i)).
    { unfold int_add. rewrite wrap_small; unfold INT_MIN, INT_MAX in *; lia. }
    rewrite Hnext.
    rewrite (drop_S _ _ _ (numbered_lookup _ _ _ He)), fmap_cons, emits_cons.
    replace (Z.of_nat i + 1) with (Z.of_nat (S i)) by lia.
    change (run (show_history_loop fuel h (Z.of_nat (S i)) ≫= f)
                (emit (EvPrintf "%d  %s\n" [PInt (Z.of_nat (S i)); PStr e]) w)
            = run (f tt) (emits (history_line <$> drop (S i) (numbered es))
                (emit (history_line (Z.of_nat (S i), e)) w))).
    apply IH; try done; lia.
Qed.

Lemma run_show_history h es :
  retains h es → Z.of_nat (length es) ≤ INT_MAX →
  ∀ B (f : unit → prog B) w,
    run (show_history h ≫= f) w
    = run (f tt)
        (emits ([EvPrintf (COLOR_CYAN +:+ "\nUltimos comandos:\n" +:+ COLOR_RESET) []]
                ++ (history_line <$> retained es) ++ [EvPrintf "\n" []]) w).
Proof.
  intros Hret Hmax B f w. pose proof Hret as (Hcount & _).
  unfold show_history. rewrite !emits_app.
  set (start := if decide (int_sub (history_count h) HISTORY_SIZE < 0) then 0
                else int_sub (history_count h) HISTORY_SIZE).
  assert (Hstart : start = Z.of_nat (length es - 10)).
  { unfold start, int_sub, HISTORY_SIZE. rewrite Hcount.
    rewrite wrap_small by (unfold INT_MIN, INT_MAX in *; lia).
    case_decide; lia. }
  rewrite Hstart, run_assoc, run_printf, run_assoc.
  rewrite (run_show_history_loop h es (length es - (length es - 10)));
    try done; unfold HISTORY_SIZE; lia.
Qed.

(** C2. History render: after any sequence of records, [show_history]
    prints, between its header and a final newline, exactly the last
    [min n 10] of the [n] recorded entries, oldest first, each with its
    sequence number counted from 1 over all entries ever recorded. *)
Theorem history_render (lines : list cstr) (w : world) :
  Forall (λ l, Z.of_nat (length l) < MAXLINE) lines →
  Z.of_nat (length lines) < INT_MAX →
  ∃ h, record_all lines history_init = Ok h
    ∧ run (show_history h) w
      = (emits ([EvPrintf (COLOR_CYAN +:+ "\nUltimos comandos:\n" +:+ COLOR_RESET) []]
                ++ (history_line <$> retained (entries lines))
                ++ [EvPrintf "\n" []]) w,
         Returned tt).
Proof.
  intros Hlines Hmax.
  destruct (record_all_retains lines history_init [] retains_init Hlines)
    as (h & Hrec & Hret); [simpl; lia|].
  rewrite app_nil_l in Hret. exists h. split; [done|].
  assert (Hes : (length (entries lines) ≤ length lines)%nat) by apply length_filter.
  rewrite <- run_ret_r. by rewrite (run_show_history h _ Hret) by lia.
Qed.

Lemma history_render_witness :
  let lines := lit <$> ["c1"; "c2"; "c3"; "c4"; "c5"; "c6";
                        "c7"; "c8"; "c9"; "c10"; "c11"; "c12"]%string in
  ∃ h, record_all lines history_init = Ok h
     ∧ w_log (run (show_history h) (World [] 0 (λ _, false) (λ _, 0) [] 0 0 1 [] [] [])).1
       = [EvPrintf (COLOR_CYAN +:+ "\nUltimos comandos:\n" +:+ COLOR_RESET) [];
          history_line (3, lit "c3"); history_line (4, lit "c4");
          history_line (5, lit "c5"); history_line (6, lit "c6");
          history_line (7, lit "c7"); history_line (8, lit "c8");
          history_line (9, lit "c9"); history_line (10, lit "c10");
          history_line (11, lit "c11"); history_line (12, lit "c12");
          EvPrintf "\n" []].
Proof.
  intros lines.
  destruct (history_render lines (World [] 0 (λ _, false) (λ _, 0) [] 0 0 1 [] [] []))
    as (h & Hrec & Hrun).
  - repeat constructor; by vm_compute.
  - by vm_compute.
  - exists h. split; [done|]. rewrite Hrun. by vm_compute.
Defined.

(** ** [readline] *)

Lemma set_stdin_id w : set_stdin (w_stdin w) w = w.
Proof. by destruct w. Qed.

Lemma run_readline_loop n : ∀ (b : mem) i inp B (f : mem * nat → prog B) w,
  w_stdin w = inp → (i + n < length b)%nat →
  run (readline_loop n b i ≫= f) w
  = run (f (take i b ++ line_of n inp ++ drop (i + length (line_of n inp)) b,
            (i + length (line_of n inp))%nat))
        (emits (reads_of n inp) (set_stdin (rest_of n inp) w)).
Proof.
  induction n as [|n IH]; intros b i inp B f w Hin Hlen.
  - cbn. rewrite Nat.add_0_r, take_drop, <- Hin, set_stdin_id. by rewrite emits_nil.
  - cbn [readline_loop]. rewrite run_assoc, run_read1, Hin.
    destruct inp as [|c inp].
    + cbn. rewrite Nat.add_0_r, take_drop. by rewrite <- Hin, set_stdin_id.
    + cbn [line_of rest_of reads_of]. destruct (c =? NL)%char eqn:Hc.
      * cbn. by rewrite Nat.add_0_r, take_drop.
      * unfold store. rewrite decide_True by lia. rewrite run_assoc, run_lift_Ok.
        rewrite (IH _ _ inp) by (done || rewrite length_insert; lia).
        rewrite emits_cons. cbn [length].
        rewrite (take_S_r _ _ c) by (apply list_lookup_insert_eq; lia).
        rewrite take_insert_ge, drop_insert_lt by lia.
        rewrite <- (assoc_L (++)), Nat.add_succ_r. done.
Qed.

Lemma length_line_of n inp : (length (line_of n inp) ≤ n)%nat.
Proof.
  revert inp. induction n as [|n IH]; intros [|c inp]; cbn; try lia.
  destruct (c =? NL)%char; cbn; [lia|]. specialize (IH inp). lia.
Qed.

(** [readline(buf, MAXLINE)] on a 100-character buffer. *)
Lemma run_readline (b : mem) B (f : mem * Z → prog B) w :
  length b = Z.to_nat MAXLINE →
  let line := line_of LINE_CAP (w_stdin w) in
  run (readline b MAXLINE ≫= f) w
  = run (f (line ++ NUL :: drop (S (length line)) b, Z.of_nat (length line)))
        (emits (reads_of LINE_CAP (w_stdin w))
               (set_stdin (rest_of LINE_CAP (w_stdin w)) w)).
Proof.
  intros Hb line. unfold readline. rewrite run_assoc.
  change (Z.to_nat (MAXLINE - 1)) with LINE_CAP.
  pose proof (length_line_of LINE_CAP (w_stdin w)) as Hline. fold line in Hline.
  assert (LINE_CAP = 99%nat) as Hcap by done.
  assert (Z.to_nat MAXLINE = 100%nat) as Hmax by done.
  rewrite (run_readline_loop _ _ _ (w_stdin w)) by (done || lia).
  fold line. rewrite take_0, app_nil_l, Nat.add_0_l.
  cbn beta iota. rewrite run_assoc.
  unfold store. rewrite decide_True by (rewrite length_app, length_drop; lia).
  rewrite run_lift_Ok. cbn [mbind prog_bind bind].
  rewrite insert_app_r_alt, Nat.sub_diag by lia.
  destruct (drop (length line) b) as [|c tl] eqn:Hd.
  { apply (f_equal length) in Hd. rewrite length_drop in Hd. simpl in Hd. lia. }
  cbn [insert list_insert]. 
  replace (drop (S (length line)) b) with tl; [done|].
  replace (S (length line)) with (length line + 1)%nat by lia.
  by rewrite <- drop_drop, Hd.
Qed.

Lemma line_of_split n : ∀ line tl,
  NL ∉ line → (tl = [] ∨ ∃ r, tl = NL :: r) →
  line_of n (line ++ tl) = take n line
  ∧ rest_of n (line ++ tl)
    = (if decide (length line < n)%nat then drop 1 tl else drop n line ++ tl).
Proof.
  induction n as [|n IH]; intros line tl Hline Htl.
  - cbn. by rewrite decide_False by lia.
  - destruct line as [|c line].
    + cbn [app length take]. rewrite decide_True by lia.
      destruct Htl as [-> | [r ->]]; done.
    + apply not_elem_of_cons in Hline as [Hc Hline].
      cbn [app line_of rest_of take drop length].
      assert ((c =? NL)%char = false) as -> by (apply Ascii.eqb_neq; congruence).
      destruct (IH line tl Hline Htl) as [-> ->].
      split; [done|]. repeat case_decide; (done || lia).
Qed.

(** C9 (as amended). Line length limit: [readline] stops at a newline, at
    the end of the input or after [MAXLINE - 1 = 99] characters. A longer
    line is cut to its first 99 characters, and the rest of it stays in the
    input, to be read as the next command line. *)
Theorem readline_limit (b : mem) (w : world) (line tl : list ascii) :
  length b = Z.to_nat MAXLINE →
  w_stdin w = line ++ tl → NL ∉ line → (tl = [] ∨ ∃ r, tl = NL :: r) →
  ∃ b' w',
    run (readline b MAXLINE) w = (w', Returned (b', Z.of_nat (length (take LINE_CAP line))))
    ∧ (length (take LINE_CAP line) ≤ LINE_CAP)%nat
    ∧ take (S (length (take LINE_CAP line))) b' = take LINE_CAP line ++ [NUL]
    ∧ (NUL ∉ line → cstring_at b' 0 = Ok (take LINE_CAP line))
    ∧ w_stdin w' = (if decide (length line < LINE_CAP)%nat then drop 1 tl
                    else drop LINE_CAP line ++ tl).
Proof.
  intros Hb Hin Hline Htl.
  destruct (line_of_split LINE_CAP line tl Hline Htl) as [Hl Hr].
  eexists _, _. split; [|split; [|split; [|split]]].
  - rewrite <- run_ret_r, run_readline by done. rewrite Hin, Hl. reflexivity.
  - rewrite length_take. lia.
  - rewrite cons_middle, (assoc_L (++)).
    apply take_app_length'. rewrite length_app. simpl. lia.
  - intros Hnul. apply (cstring_at_app [] (take LINE_CAP line)).
    intros Hin'. apply Hnul. by apply (subseteq_take LINE_CAP line).
  - cbn. by rewrite Hr.
Qed.

Lemma readline_limit_witness :
  ∃ b' w',
    run (readline (replicate 100 NUL) MAXLINE)
        (World (lit "ls" ++ [NL] ++ lit "wc") 0 (λ _, false) (λ _, 0) [] 0 0 1 [] [] [])
    = (w', Returned (b', 2))
    ∧ cstring_at b' 0 = Ok (lit "ls")
    ∧ w_stdin w' = lit "wc".
Proof.
  destruct (readline_limit (replicate 100 NUL)
              (World (lit "ls" ++ [NL] ++ lit "wc") 0 (λ _, false) (λ _, 0) [] 0 0 1 [] [] [])
              (lit "ls") (NL :: lit "wc"))
    as (b' & w' & Hrun & _ & _ & Hstr & Hrest).
  - done.
  - done.
  - vm_compute. intros H.
    repeat (apply elem_of_cons in H as [H|H]; [done|]). by apply elem_of_nil in H.
  - right. by eexists.
  - exists b', w'. split; [exact Hrun|]. split; [|exact Hrest].
    apply Hstr. vm_compute. intros H.
    repeat (apply elem_of_cons in H as [H|H]; [done|]). by apply elem_of_nil in H.
Defined.

(** C9 as stated fails: the characters past the limit are not discarded.
    Of a line of 109 characters, "calc 7 + 1", 89 spaces and "calc 2 + 2",
    the first 99 are the first command and the last 10 are left in the
    input and run as the next command. *)
Lemma readline_excess_processed :
  let typed := lit "calc 7 + 1" ++ replicate 89 SP ++ lit "calc 2 + 2" in
  let w0 := World (typed ++ [NL]) 0 (λ _, false) (λ _, 0)
                  (replicate 3 (Some Console) ++ replicate 13 None) 0 1 3 [] [] [] in
  (∃ b' w', run (readline (replicate 100 NUL) MAXLINE) w0 = (w', Returned (b', 99))
          ∧ w_stdin w' = lit "calc 2 + 2" ++ [NL])
  ∧ printed (w_log (run (main_loop 2 shell_init) w0).1)
    = [(prompt, []);
       (COLOR_YELLOW +:+ "Resultado: " +:+ COLOR_RESET, []); ("%d\n"%string, [PInt 8]);
       (prompt, []);
       (COLOR_YELLOW +:+ "Resultado: " +:+ COLOR_RESET, []); ("%d\n"%string, [PInt 4])].
Proof.
  split.
  - eexists _, _. split; by vm_compute.
  - by vm_compute.
Qed.

(** ** The prompt loop *)

(** One iteration up to the dispatch: the prompt, the line read, and the two
    tests that skip an empty line. *)
Lemma run_main_iteration s B (f : shell → prog B) w :
  length (buf s) = Z.to_nat MAXLINE →
  let line := line_of LINE_CAP (w_stdin w) in
  let s1 := Shell (hist s) (line ++ NUL :: drop (S (length line)) (buf s)) (argv s) in
  let w1 := emits (EvPrintf prompt [] :: reads_of LINE_CAP (w_stdin w))
                  (set_stdin (rest_of LINE_CAP (w_stdin w)) w) in
  run (main_iteration s ≫= f) w
  = match line with
    | [] => run (f s1) w1
    | c :: _ => if (c =? NUL)%char then run (f s1) w1 else run (eval_line s1 ≫= f) w1
    end.
Proof.
  intros Hb line s1 w1. unfold main_iteration.
  rewrite run_assoc, run_printf, run_assoc, run_readline by done.
  fold line. cbn beta iota.
  assert (Hw : emits (reads_of LINE_CAP (w_stdin (emits [EvPrintf prompt []] w)))
                 (set_stdin (rest_of LINE_CAP (w_stdin (emits [EvPrintf prompt []] w)))
                    (emits [EvPrintf prompt []] w)) = w1).
  { unfold w1, emits, set_stdin. cbn. by rewrite <- (assoc_L (++)). }
  change (w_stdin (emits [EvPrintf prompt []] w)) with (w_stdin w) in *.
  fold line. rewrite Hw. fold s1.
  destruct line as [|c line'] eqn:Hline.
  - by rewrite decide_True by (simpl; lia).
  - rewrite decide_False by (simpl; lia).
    rewrite run_assoc. cbn [app load lookup list_lookup]. rewrite run_lift_Ok.
    by destruct (c =? NUL)%char.
Qed.

(** C8 (as amended). End of input: once the console input is exhausted the
    shell neither crashes nor stops. Every further iteration prints the
    prompt, makes one read that gets nothing, and goes on to the next, with
    the history untouched. *)
Theorem end_of_input (n : nat) (s : shell) (w : world) :
  w_stdin w = [] → length (buf s) = Z.to_nat MAXLINE →
  run (main_loop n s) w
  = (emits (concat (replicate n [EvPrintf prompt []; EvRead None])) w,
     Returned (match n with
               | O => s
               | S _ => Shell (hist s) (NUL :: drop 1 (buf s)) (argv s)
               end)).
Proof.
  revert s w. induction n as [|n IH]; intros s w Hin Hb.
  - cbn. by rewrite emits_nil.
  - cbn [main_loop]. rewrite run_main_iteration by done.
    rewrite Hin.
    change (line_of LINE_CAP []) with (@nil ascii).
    change (reads_of LINE_CAP []) with [EvRead None].
    change (rest_of LINE_CAP []) with (@nil ascii).
    cbn [app length]. rewrite <- Hin at 1. rewrite set_stdin_id.
    rewrite IH; [|done|cbn [buf length]; rewrite length_drop, Hb; done].
    rewrite replicate_S, concat_cons, emits_app. f_equal. f_equal.
    by destruct n.
Qed.

Lemma end_of_input_witness :
  reads (w_log (run (main_loop 2 shell_init) (boot [] (λ _, false) 1)).1) = [None; None].
Proof.
  rewrite (end_of_input 2 shell_init (boot [] (λ _, false) 1)).
  - by vm_compute.
  - reflexivity.
  - reflexivity.
Defined.

(** C8 as stated fails: with no input at all the shell does not stop
    reading. Its first three iterations each attempt a read, and the third
    ends ready for a fourth. *)
Lemma end_of_input_keeps_reading :
  let r := run (main_loop 3 shell_init) (boot [] (λ _, false) 1) in
  reads (w_log r.1) = [None; None; None]
  ∧ printed (w_log r.1) = [(prompt, []); (prompt, []); (prompt, [])]
  ∧ ∃ s, r.2 = Returned s.
Proof. split; [|split]; [by vm_compute..|]. eexists. by vm_compute. Qed.

(** ** The tokenizer in its callers *)

Lemma tokens_nonempty line : [] ∉ tokens line.
Proof.
  destruct (runs_at_total line 0) as [ts Hts].
  rewrite <- (runs_at_tokens _ _ _ Hts).
  induction Hts as [b k | b k w rest ts Hw Hsp Hrest Hruns IH]; cbn.
  - apply not_elem_of_nil.
  - apply not_elem_of_cons. split; [congruence | done].
Qed.

Lemma tokens_no_space line w : w ∈ tokens line → SP ∉ w.
Proof.
  destruct (runs_at_total line 0) as [ts Hts].
  rewrite <- (runs_at_tokens _ _ _ Hts).
  induction Hts as [b k | b k w' rest ts Hw Hsp Hrest Hruns IH]; cbn.
  - by intros ?%elem_of_nil.
  - intros [-> | Hin]%elem_of_cons; [done | by apply IH].
Qed.

(** The pointer stored for token [j] reads back as token [j]. *)
Lemma read_argv_lookup m a : ∀ ss j p s,
  read_argv m a = Ok ss → a !! j = Some (Ptr p) → ss !! j = Some s →
  cstring_at m p = Ok s.
Proof.
  induction a as [|x a IH]; intros ss j p s Hread Hj Hs; [done|].
  destruct x as [| |q]; cbn in Hread; try done.
  - by injection Hread as <-.
  - destruct (cstring_at m q) as [sq| |] eqn:Hq; cbn in Hread; try done.
    destruct (read_argv m a) as [ss'| |] eqn:Ha; cbn in Hread; try done.
    injection Hread as <-. destruct j as [|j]; cbn in Hj, Hs.
    + by simplify_eq.
    + by apply (IH ss' j).
Qed.

Lemma cstring_head l c s : cstring l = Ok (c :: s) → head l = Some c.
Proof.
  destruct l as [|d l]; cbn; [done|].
  destruct (d =? NUL)%char; [done|].
  destruct (cstring l); cbn; try done. by intros [= -> _].
Qed.

(** The first character of the string a pointer points to. *)
Lemma cstring_at_load m p c s : cstring_at m p = Ok (c :: s) → load m p = Ok c.
Proof.
  unfold cstring_at, load. case_decide; [|done].
  intros Hc%cstring_head. rewrite head_lookup, lookup_drop, Nat.add_0_r in Hc.
  by rewrite Hc.
Qed.

(** C3 at the failing input. A line of ten words has ten runs; [parse]
    stores their ten pointers in [argv[0..9]] and then writes the sentinel
    to [argv[10]], outside the array of [MAXARGS] pointers it was given: the
    tokenizer, and the iteration of the shell that called it, end in
    undefined behaviour. With nine words it returns the nine runs. *)
Theorem tokenizer_overflow :
  let ten := lit "a b c d e f g h i j" in
  let nine := lit "a b c d e f g h i" in
  tokens ten = lit <$> ["a"; "b"; "c"; "d"; "e"; "f"; "g"; "h"; "i"; "j"]%string
  ∧ parse (ten ++ replicate 81 NUL) 0 (replicate MAXARGS Uninit) = Undef
  ∧ (run (main_iteration shell_init) (boot (ten ++ [NL]) (λ _, true) 8)).2 = Crashed
  ∧ (∃ m a, parse (nine ++ replicate 83 NUL) 0 (replicate MAXARGS Uninit) = Ok (m, a)
          ∧ read_argv m a = Ok (tokens nine)).
Proof.
  repeat split; try by vm_compute.
  eexists _, _. split; by vm_compute.
Qed.

Example tokenize_abc :
  ∃ m a, parse (lit "a  b   c" ++ replicate 92 NUL) 0 (replicate MAXARGS Uninit) = Ok (m, a)
       ∧ read_argv m a = Ok [lit "a"; lit "b"; lit "c"].
Proof. eexists _, _. split; by vm_compute. Qed.

Example tokenize_blank :
  ∃ m a, parse (lit "   " ++ replicate 97 NUL) 0 (replicate MAXARGS Uninit) = Ok (m, a)
       ∧ read_argv m a = Ok [].
Proof. eexists _, _. split; by vm_compute. Qed.

(** ** The calculator *)

Lemma ptr_get_Some a i v : a !! i = Some v → v ≠ Uninit → ptr_get a i = Ok v.
Proof. unfold ptr_get. intros -> ?. by destruct v. Qed.

Lemma run_calc rest post B (f : mem → prog B) w :
  NUL ∉ rest → (length (tokens rest) < 4)%nat → calc_defined (tokens rest) →
  run (calc (lit "calc " ++ rest ++ NUL :: post) ≫= f) w
  = run (f (lit "calc " ++ (blank_to_nul <$> rest) ++ NUL :: post))
        (emits (calc_output (tokens rest)) w).
Proof.
  intros Hnul Hlen Hdef.
  destruct (parse_tokens (lit "calc ") rest post (replicate 4 Uninit) Hnul)
    as (args & Hparse & Hread & _ & Hnull & Hptr); [done|].
  change (length (lit "calc ")) with 5%nat in Hparse. specialize (Hread post).
  set (m' := lit "calc " ++ (blank_to_nul <$> rest) ++ NUL :: post) in *.
  unfold calc, usage. rewrite run_assoc, Hparse, run_lift_Ok. cbn beta iota.
  pose proof (tokens_nonempty rest) as Hne.
  destruct (tokens rest) as [|x [|o [|y [|z ts]]]] eqn:Hts; cbn [length] in *; try lia.
  - rewrite run_assoc, (ptr_get_Some _ _ _ Hnull), run_lift_Ok by done.
    by rewrite run_assoc, run_printf.
  - destruct (Hptr 0%nat) as [p0 H0]; [lia|].
    rewrite run_assoc, (ptr_get_Some _ _ _ H0), run_lift_Ok by done.
    rewrite run_assoc, (ptr_get_Some _ _ _ Hnull), run_lift_Ok by done.
    by rewrite run_assoc, run_printf.
  - destruct (Hptr 0%nat) as [p0 H0]; [lia|]. destruct (Hptr 1%nat) as [p1 H1]; [lia|].
    rewrite run_assoc, (ptr_get_Some _ _ _ H0), run_lift_Ok by done.
    rewrite run_assoc, (ptr_get_Some _ _ _ H1), run_lift_Ok by done.
    rewrite run_assoc, (ptr_get_Some _ _ _ Hnull), run_lift_Ok by done.
    rewrite run_assoc, run_printf. by destruct o.
  - destruct (Hptr 0%nat) as [p0 H0]; [lia|]. destruct (Hptr 1%nat) as [p1 H1]; [lia|].
    destruct (Hptr 2%nat) as [p2 H2]; [lia|].
    destruct o as [|op o].
    { exfalso. apply Hne. apply elem_of_cons. right. apply elem_of_cons. by left. }
    rewrite run_assoc, (ptr_get_Some _ _ _ H0), run_lift_Ok by done.
    rewrite run_assoc, (ptr_get_Some _ _ _ H1), run_lift_Ok by done.
    rewrite run_assoc, (ptr_get_Some _ _ _ H2), run_lift_Ok by done.
    rewrite run_assoc, (read_argv_lookup _ _ _ 0%nat p0 x Hread H0), run_lift_Ok by done.
    rewrite run_assoc, (read_argv_lookup _ _ _ 2%nat p2 y Hread H2), run_lift_Ok by done.
    rewrite run_assoc,
      (cstring_at_load _ _ _ _ (read_argv_lookup _ _ _ 1%nat p1 (op :: o) Hread H1 eq_refl)),
      run_lift_Ok.
    rewrite run_assoc, run_printf, run_assoc. cbn [calc_output].
    unfold invalid_operation.
    destruct (op =? "+")%char; [by rewrite run_printf, <- emits_app|].
    destruct (op =? "-")%char; [by rewrite run_printf, <- emits_app|].
    destruct (op =? "*")%char; [by rewrite run_printf, <- emits_app|].
    destruct ((op =? "/")%char && negb (atoi y =? 0)) eqn:Hdiv;
      [|by rewrite run_printf, <- emits_app].
    apply andb_true_iff in Hdiv as [Hop%Ascii.eqb_eq Hy%negb_true_iff%Z.eqb_neq].
    unfold checked_div. rewrite decide_True by (split; [done|by apply Hdef]).
    by rewrite run_assoc, run_lift_Ok, run_printf, <- emits_app.
Qed.

Lemma starts_with_app (p r : cstr) : starts_with (p ++ r) p = true.
Proof.
  induction p as [|c p IH]; [done|].
  cbn [app starts_with]. by rewrite Ascii.eqb_refl.
Qed.

(** Two strings that differ in their first character. *)
Ltac differ := let H := fresh in intros H; apply (f_equal head) in H; vm_compute in H; discriminate.

(** The dispatch of a line that starts with "calc ". *)
Lemma run_eval_line_calc s es rest post B (f : shell → prog B) w :
  buf s = lit "calc " ++ rest ++ NUL :: post → NUL ∉ rest →
  retains (hist s) es → Z.of_nat (length es) < INT_MAX →
  (length rest < 95)%nat → (length (tokens rest) < 4)%nat → calc_defined (tokens rest) →
  run (eval_line s ≫= f) w
  = run (f (Shell (History (<[(length es mod 10)%nat:=lit "calc " ++ rest]> (history (hist s)))
                           (Z.of_nat (length es) + 1))
                  (lit "calc " ++ (blank_to_nul <$> rest) ++ NUL :: post)
                  (argv s)))
        (emits (calc_output (tokens rest)) w).
Proof.
  intros Hbuf Hnul Hret Hmax Hlen Htok Hdef.
  assert (Hline : cstring_at (buf s) 0 = Ok (lit "calc " ++ rest)).
  { rewrite Hbuf, (assoc_L (++)). apply (cstring_at_app []).
    apply not_elem_of_app. split; [|done]. vm_compute. intros H.
    repeat (apply elem_of_cons in H as [H|H]; [done|]). by apply elem_of_nil in H. }
  destruct (add_history_retains (hist s) es (lit "calc " ++ rest) Hret) as [Hadd _];
    [differ| |done|].
  { rewrite length_app. change (length (lit "calc ")) with 5%nat. unfold MAXLINE. lia. }
  unfold eval_line.
  rewrite run_assoc, Hline, run_lift_Ok, run_assoc, Hadd, run_lift_Ok. cbn zeta.
  rewrite !decide_False by differ.
  rewrite starts_with_app, run_assoc. cbn [buf]. rewrite Hbuf, run_calc by done.
  done.
Qed.

(** C4 (as amended). Calculator: a line "calc " followed by at most three
    tokens, which asks for no division without a value ([INT_MIN / -1]),
    ends its iteration normally, after being recorded in the history. With
    fewer than three tokens the usage error is printed. With three, the
    operands are parsed by [atoi] and, after the label "Resultado: ", [+],
    [-] and [*] print the result, [/] prints the quotient when the second
    operand is not 0, and a division by 0 prints the same
    "Operacion invalida" as any other operator character. *)
Theorem calculator (s : shell) (w : world) (es : list cstr) (rest post : list ascii) :
  buf s = lit "calc " ++ rest ++ NUL :: post → NUL ∉ rest →
  retains (hist s) es → Z.of_nat (length es) < INT_MAX →
  (length rest < 95)%nat → (length (tokens rest) ≤ 3)%nat → calc_defined (tokens rest) →
  ∃ s' out,
    run (eval_line s) w = (emits out w, Returned s')
    ∧ history_count (hist s') = history_count (hist s) + 1
    ∧ ((length (tokens rest) < 3)%nat →
       out = [EvPrintf (COLOR_RED +:+ "Uso: calc n1 op n2\n" +:+ COLOR_RESET) []])
    ∧ (∀ x op o y, tokens rest = [x; op :: o; y] →
       ∃ ev, out = [EvPrintf (COLOR_YELLOW +:+ "Resultado: " +:+ COLOR_RESET) []; ev]
         ∧ (op = "+"%char → ev = EvPrintf "%d\n" [PInt (int_add (atoi x) (atoi y))])
         ∧ (op = "-"%char → ev = EvPrintf "%d\n" [PInt (int_sub (atoi x) (atoi y))])
         ∧ (op = "*"%char → ev = EvPrintf "%d\n" [PInt (int_mul (atoi x) (atoi y))])
         ∧ (op = "/"%char → atoi y ≠ 0 →
            div_defined (atoi x) (atoi y)
            ∧ ev = EvPrintf "%d\n" [PInt (int_div (atoi x) (atoi y))])
         ∧ (op = "/"%char → atoi y = 0 →
            ev = EvPrintf (COLOR_RED +:+ "Operacion invalida\n" +:+ COLOR_RESET) [])
         ∧ (op ≠ "+"%char → op ≠ "-"%char → op ≠ "*"%char → op ≠ "/"%char →
            ev = EvPrintf (COLOR_RED +:+ "Operacion invalida\n" +:+ COLOR_RESET) [])).
Proof.
  intros Hbuf Hnul Hret Hmax Hlen Htok Hdef.
  eexists _, (calc_output (tokens rest)). split; [|split; [|split]].
  - rewrite <- run_ret_r.
    rewrite (run_eval_line_calc s es rest post) by (done || lia). reflexivity.
  - cbn [hist history_count]. destruct Hret as [-> _]. done.
  - intros Hfew. destruct (tokens rest) as [|x [|[|op o] [|y [|z ts]]]]; cbn in *; done || lia.
  - intros x op o y Hts. rewrite Hts in Hdef |- *. eexists. split; [reflexivity|].
    split; [by intros ->|]. split; [by intros ->|]. split; [by intros ->|].
    split; [|split].
    + intros Hop Hy. split; [split; [done|by apply Hdef]|].
      subst op. cbn. by apply Z.eqb_neq in Hy as ->.
    + intros -> ->. done.
    + intros H1%Ascii.eqb_neq H2%Ascii.eqb_neq H3%Ascii.eqb_neq H4%Ascii.eqb_neq.
      by rewrite H1, H2, H3, H4.
Qed.

Lemma calculator_witness :
  let out line :=
    run (eval_line (Shell history_init (lit line ++ replicate 90 NUL)
                          (replicate MAXARGS Uninit)))
        (boot [] (λ _, false) 1) in
  (∃ s', out "calc 4 + 5"%string
         = (emits [EvPrintf (COLOR_YELLOW +:+ "Resultado: " +:+ COLOR_RESET) [];
                   EvPrintf "%d\n" [PInt 9]] (boot [] (λ _, false) 1),
            Returned s'))
  ∧ (∃ s', out "calc x - 5"%string
           = (emits [EvPrintf (COLOR_YELLOW +:+ "Resultado: " +:+ COLOR_RESET) [];
                     EvPrintf "%d\n" [PInt (-5)]] (boot [] (λ _, false) 1),
              Returned s')).
Proof.
  assert (Hnul : ∀ r : string, bool_decide (NUL ∉ lit r) → NUL ∉ lit r).
  { intros r. apply bool_decide_unpack. }
  split.
  - destruct (calculator (Shell history_init (lit "calc 4 + 5" ++ replicate 90 NUL)
                                (replicate MAXARGS Uninit))
                (boot [] (λ _, false) 1) [] (lit "4 + 5") (replicate 89 NUL))
      as (s' & out & Hrun & _ & _ & Hthree).
    + reflexivity.
    + by apply Hnul.
    + apply retains_init.
    + by vm_compute.
    + vm_compute. lia.
    + vm_compute. lia.
    + intros H. discriminate H.
    + destruct (Hthree (lit "4") "+"%char [] (lit "5") eq_refl) as (ev & -> & Hplus & _).
      exists s'. cbn zeta. rewrite Hrun. by rewrite (Hplus eq_refl).
  - destruct (calculator (Shell history_init (lit "calc x - 5" ++ replicate 90 NUL)
                                (replicate MAXARGS Uninit))
                (boot [] (λ _, false) 1) [] (lit "x - 5") (replicate 89 NUL))
      as (s' & out & Hrun & _ & _ & Hthree).
    + reflexivity.
    + by apply Hnul.
    + apply retains_init.
    + by vm_compute.
    + vm_compute. lia.
    + vm_compute. lia.
    + intros H. discriminate H.
    + destruct (Hthree (lit "x") "-"%char [] (lit "5") eq_refl)
        as (ev & -> & _ & Hminus & _).
      exists s'. cbn zeta. rewrite Hrun. by rewrite (Hminus eq_refl).
Defined.

(** C4 as stated fails: a division by zero is not reported by an error of
    its own. "calc 4 / 0" and "calc 4 % 5" print the same lines. Nor does
    the loop continue in all cases: a fourth token makes [parse] write past
    [args], and "calc 2147483648 / 4294967295" divides [INT_MIN] by -1. *)
Lemma calculator_same_error :
  let r line := run (main_iteration shell_init) (boot (lit line ++ [NL]) (λ _, false) 1) in
  let out line := printed (w_log (r line).1) in
  out "calc 4 / 0"%string = out "calc 4 % 5"%string
  ∧ out "calc 4 / 0"%string
    = [(prompt, []);
       (COLOR_YELLOW +:+ "Resultado: " +:+ COLOR_RESET, []);
       (COLOR_RED +:+ "Operacion invalida\n" +:+ COLOR_RESET, [])]
  ∧ (r "calc 1 + 2 3"%string).2 = Crashed
  ∧ (r "calc 2147483648 / 4294967295"%string).2 = Crashed.
Proof. repeat split; by vm_compute. Qed.

(** A fourth token after "calc " makes [parse] write its sentinel to
    [args[4]], outside [char *args[4]]. *)
Example calculator_four_tokens :
  (run (main_iteration shell_init) (boot (lit "calc 1 + 2 3" ++ [NL]) (λ _, false) 1)).2
  = Crashed.
Proof. by vm_compute. Qed.

(** ** Generic execution *)

Lemma find_pipe_first l : ∀ fuel pre tl,
  BAR ∉ l → NUL ∉ l → (length l < fuel)%nat →
  find_pipe fuel (pre ++ l ++ BAR :: tl) (length pre) = Ok (Some (length pre + length l)%nat).
Proof.
  induction l as [|c l IH]; intros fuel pre tl Hbar Hnul Hfuel;
    (destruct fuel as [|fuel]; [simpl in Hfuel; lia|]); cbn [find_pipe app].
  - rewrite load_app_r, bind_Ok. cbn. by rewrite Nat.add_0_r.
  - apply not_elem_of_cons in Hbar as [Hc1 Hbar], Hnul as [Hc2 Hnul].
    rewrite load_app_r, bind_Ok, eqb_NUL_false by done.
    assert ((c =? BAR)%char = false) as -> by (apply Ascii.eqb_neq; congruence).
    specialize (IH fuel (pre ++ [c]) tl Hbar Hnul).
    rewrite length_app, <- (assoc_L (++)) in IH. cbn in IH.
    rewrite Nat.add_1_r in IH. rewrite IH by (simpl in Hfuel; lia).
    do 2 f_equal. cbn. lia.
Qed.

Lemma find_pipe_none l : ∀ fuel pre tl,
  BAR ∉ l → NUL ∉ l → (length l < fuel)%nat →
  find_pipe fuel (pre ++ l ++ NUL :: tl) (length pre) = Ok None.
Proof.
  induction l as [|c l IH]; intros fuel pre tl Hbar Hnul Hfuel;
    (destruct fuel as [|fuel]; [simpl in Hfuel; lia|]); cbn [find_pipe app].
  - by rewrite load_app_r, bind_Ok.
  - apply not_elem_of_cons in Hbar as [Hc1 Hbar], Hnul as [Hc2 Hnul].
    rewrite load_app_r, bind_Ok, eqb_NUL_false by done.
    assert ((c =? BAR)%char = false) as -> by (apply Ascii.eqb_neq; congruence).
    specialize (IH fuel (pre ++ [c]) tl Hbar Hnul).
    rewrite length_app, <- (assoc_L (++)) in IH. cbn in IH.
    rewrite Nat.add_1_r in IH. by rewrite IH by (simpl in Hfuel; lia).
Qed.

Lemma skip_blanks_run k : ∀ fuel pre c tl,
  c ≠ SP → (k < fuel)%nat →
  skip_blanks fuel (pre ++ replicate k SP ++ c :: tl) (length pre) = Ok (length pre + k)%nat.
Proof.
  induction k as [|k IH]; intros fuel pre c tl Hc Hfuel;
    (destruct fuel as [|fuel]; [lia|]); cbn [skip_blanks replicate app].
  - rewrite load_app_r, bind_Ok, eqb_SP_false by done. by rewrite Nat.add_0_r.
  - rewrite load_app_r, bind_Ok. cbn [Ascii.eqb SP Bool.eqb].
    specialize (IH fuel (pre ++ [SP]) c tl Hc).
    rewrite length_app, <- (assoc_L (++)) in IH. cbn in IH.
    rewrite Nat.add_1_r in IH. rewrite IH by lia. f_equal. lia.
Qed.

Lemma trim_left_split r :
  ∃ k, r = replicate k SP ++ trim_left r ∧ head (trim_left r) ≠ Some SP.
Proof.
  induction r as [|c r (k & Hk & Hhd)].
  - by exists 0%nat.
  - cbn [trim_left]. destruct (c =? SP)%char eqn:Hc.
    + apply Ascii.eqb_eq in Hc as ->. exists (S k). split; [|done].
      cbn. by rewrite <- Hk.
    + exists 0%nat. split; [done|]. cbn. apply Ascii.eqb_neq in Hc. congruence.
Qed.

Lemma tokens_trim_left r : tokens (trim_left r) = tokens r.
Proof.
  destruct (trim_left_split r) as (k & Hk & _).
  rewrite Hk at 2. by rewrite tokens_blanks.
Qed.

Lemma cstring_at_0 (w : cstr) post : NUL ∉ w → cstring_at (w ++ NUL :: post) 0 = Ok w.
Proof. apply (cstring_at_app []). Qed.

Lemma lift_Ok_bind {A B} (a : A) (f : A → prog B) : (lift (Ok a) ≫= f) = f a.
Proof. done. Qed.

Lemma starts_with_true (s p : cstr) : starts_with s p = true → s = p ++ drop (length p) s.
Proof.
  revert s. induction p as [|c p IH]; intros s; [done|].
  destruct s as [|d s]; cbn [starts_with]; [done|].
  destruct (d =? c)%char eqn:Hd; [|done].
  apply Ascii.eqb_eq in Hd as ->. intros H%IH. cbn. by rewrite <- H.
Qed.

Lemma not_elem_of_lit (c : ascii) (s : cstr) : bool_decide (c ∈ s) = false → c ∉ s.
Proof. by intros H%bool_decide_eq_false. Qed.

(** The aliases, on a buffer that holds [line]. *)
Lemma rewrite_aliases_line (b : mem) line post :
  b = line ++ NUL :: post → NUL ∉ line → length b = Z.to_nat MAXLINE →
  rewrite_aliases b = Ok (aliased line ++ NUL :: drop (S (length (aliased line))) b).
Proof.
  intros Hb Hnul Hlen.
  assert (Hline : cstring_at b 0 = Ok line) by (rewrite Hb; by apply (cstring_at_app [])).
  change (Z.to_nat MAXLINE) with 100%nat in Hlen.
  assert (Hll : (length line < 100)%nat).
  { rewrite Hb, length_app in Hlen. cbn [length] in Hlen. lia. }
  assert (Hcpy : ∀ (m : mem) p (t : cstr), (p + length t < length m)%nat →
            strcpy m p t = Ok (take p m ++ t ++ NUL :: drop (S (p + length t)) m)).
  { intros m p t H. unfold strcpy. by rewrite decide_True. }
  unfold rewrite_aliases, aliased. rewrite Hline, bind_Ok.
  destruct (decide (line = lit "listar")) as [-> | Hlistar].
  - rewrite (Hcpy b) by (rewrite Hlen; cbn; lia).
    rewrite bind_Ok, take_0, app_nil_l.
    rewrite (cstring_at_0 (lit "ls")), bind_Ok by (by apply not_elem_of_lit).
    done.
  - rewrite bind_Ok, Hline, bind_Ok.
    destruct (starts_with line (lit "leer ")) eqn:Hleer.
    + apply starts_with_true in Hleer.
      change (length (lit "leer ")) with 5%nat in Hleer.
      set (rest := drop 5 line) in *.
      assert (Hrest : NUL ∉ rest).
      { intros H. apply Hnul. rewrite Hleer. apply elem_of_app. by right. }
      assert (Hlr : length line = (5 + length rest)%nat).
      { rewrite Hleer at 1. by rewrite length_app. }
      rewrite Hcpy
        by (rewrite length_replicate; change (Z.to_nat MAXLINE) with 100%nat; cbn; lia).
      rewrite bind_Ok, take_0, app_nil_l.
      assert (Hb5 : cstring_at b 5 = Ok rest).
      { rewrite Hb, Hleer, <- (assoc_L (++)). by apply (cstring_at_app (lit "leer ")). }
      rewrite Hb5, bind_Ok.
      rewrite Hcpy
        by (rewrite length_app; cbn [length]; rewrite length_drop, length_replicate;
            change (Z.to_nat MAXLINE) with 100%nat; cbn; lia).
      rewrite bind_Ok.
      change (take 4 (lit "cat " ++ _)) with (lit "cat ").
      rewrite (assoc_L (++) (lit "cat ") rest).
      rewrite (cstring_at_0 (lit "cat " ++ rest)), bind_Ok.
      * rewrite Hcpy; [by rewrite take_0|].
        rewrite length_app, Hlen. cbn. lia.
      * apply not_elem_of_app. split; [by apply not_elem_of_lit | done].
    + rewrite Hb at 1. do 3 f_equal.
      rewrite Hb, cons_middle, (assoc_L (++)).
      replace (S (length line)) with (length (line ++ [NUL]))
        by (rewrite length_app; cbn; lia).
      by rewrite drop_app_length.
Qed.

(** The dispatch of a line that no builtin takes. *)
Lemma eval_line_generic s es line post :
  buf s = line ++ NUL :: post → NUL ∉ line → length (buf s) = Z.to_nat MAXLINE →
  retains (hist s) es → Z.of_nat (length es) < INT_MAX →
  line ≠ [] →
  line ≠ lit "salir" → line ≠ lit "limpiar" → line ≠ lit "historial" →
  line ≠ lit "ayuda" → line ≠ lit "tiempo" →
  starts_with line (lit "calc ") = false →
  eval_line s
  = execute (Shell (History (<[(length es mod 10)%nat:=line]> (history (hist s)))
                            (Z.of_nat (length es) + 1))
                   (aliased line ++ NUL :: drop (S (length (aliased line))) (buf s))
                   (argv s)).
Proof.
  intros Hbuf Hnul Hlen Hret Hmax Hne H1 H2 H3 H4 H5 Hcalc.
  assert (Hline : cstring_at (buf s) 0 = Ok line).
  { rewrite Hbuf. by apply (cstring_at_app []). }
  assert (Hll : Z.of_nat (length line) < MAXLINE).
  { pose proof Hlen as Hlen'. change (Z.to_nat MAXLINE) with 100%nat in Hlen'.
    rewrite Hbuf, length_app in Hlen'. cbn [length] in Hlen'. unfold MAXLINE. lia. }
  destruct (add_history_retains (hist s) es line Hret Hne Hll Hmax) as [Hadd _].
  unfold eval_line.
  rewrite Hline, lift_Ok_bind, Hadd, lift_Ok_bind. cbn zeta.
  rewrite !decide_False by done. rewrite Hcalc. cbn [buf].
  by rewrite (rewrite_aliases_line _ line post), lift_Ok_bind.
Qed.

(** A buffer with a '|': the split, the two vectors, the pipe launcher. *)
Lemma execute_pipe s l r post :
  buf s = l ++ BAR :: r ++ NUL :: post → BAR ∉ l → NUL ∉ l → NUL ∉ r →
  (length (tokens l) < MAXARGS)%nat → (length (tokens r) < MAXARGS)%nat →
  ∃ m left_args right_args,
    execute s = (run_pipe m left_args right_args ≫= λ _, Ret (Shell (hist s) m (argv s)))
    ∧ read_argv m left_args = Ok (tokens l)
    ∧ read_argv m right_args = Ok (tokens (trim_left r)).
Proof.
  intros Hbuf Hbar Hnull Hnulr Hcapl Hcapr.
  destruct (trim_left_split r) as (k & Hr & Hhd).
  set (r' := trim_left r) in *.
  assert (Hnulr' : NUL ∉ r').
  { intros H. apply Hnulr. rewrite Hr. apply elem_of_app. by right. }
  assert (∃ c tl, r' ++ NUL :: post = c :: tl ∧ c ≠ SP) as (c & tl & Htl & Hc).
  { destruct r' as [|c r'']; cbn in *; [by exists NUL, post|].
    exists c, (r'' ++ NUL :: post). split; [done|]. congruence. }
  (* the search for the first '|' *)
  pose proof (find_pipe_first l (S (length (buf s))) [] (r ++ NUL :: post) Hbar Hnull)
    as Hfind.
  cbn [app length Nat.add] in Hfind. rewrite <- Hbuf in Hfind.
  specialize (Hfind ltac:(rewrite Hbuf, length_app; lia)).
  (* *pipepos = 0 *)
  set (b1 := l ++ NUL :: r ++ NUL :: post).
  assert (Hstore : store (buf s) (length l) NUL = Ok b1).
  { rewrite Hbuf. apply store_app_r. }
  (* while ( *right == ' ') right++ *)
  assert (Hskip : skip_blanks (S (length b1)) b1 (S (length l)) = Ok (S (length l) + k)%nat).
  { pose proof (skip_blanks_run k (S (length b1)) (l ++ [NUL]) c tl Hc) as H.
    rewrite length_app, Nat.add_1_r in H. rewrite <- H.
    - f_equal. unfold b1. rewrite Hr, <- Htl, <- !(assoc_L (++)). done.
    - unfold b1. rewrite Hr, !length_app. cbn [length]. rewrite !length_app, length_replicate. lia. }
  (* parse(buf, left_args) *)
  destruct (parse_tokens [] l (r ++ NUL :: post) (replicate MAXARGS Uninit) Hnull)
    as (la & Hpl & Hrl & _); [by rewrite length_replicate|].
  cbn [app length] in Hpl. fold b1 in Hpl.
  (* parse(right, right_args) *)
  set (pre := (blank_to_nul <$> l) ++ NUL :: replicate k SP).
  assert (Hpre : length pre = (S (length l) + k)%nat).
  { unfold pre. rewrite length_app, length_fmap. cbn [length]. rewrite length_replicate. lia. }
  destruct (parse_tokens pre r' post (replicate MAXARGS Uninit) Hnulr')
    as (ra & Hpr & Hrr & _).
  { rewrite length_replicate. unfold r'. by rewrite tokens_trim_left. }
  rewrite Hpre in Hpr.
  assert (Hb2 : (blank_to_nul <$> l) ++ NUL :: r ++ NUL :: post = pre ++ r' ++ NUL :: post).
  { unfold pre. rewrite Hr at 1. by rewrite <- !(assoc_L (++)). }
  exists (pre ++ (blank_to_nul <$> r') ++ NUL :: post), la, ra.
  split; [|split].
  - unfold execute.
    rewrite Hfind, lift_Ok_bind, Hstore, lift_Ok_bind, Hskip, lift_Ok_bind.
    rewrite Hpl, lift_Ok_bind. cbn [app]. rewrite Hb2, Hpr, lift_Ok_bind. done.
  - specialize (Hrl (replicate k SP ++ (blank_to_nul <$> r') ++ NUL :: post)).
    cbn [app] in Hrl. rewrite <- Hrl. f_equal. unfold pre.
    by rewrite <- !(assoc_L (++)).
  - apply Hrr.
Qed.

(** A buffer without '|': one vector, the single-process launcher. *)
Lemma execute_single s cmd post :
  buf s = cmd ++ NUL :: post → BAR ∉ cmd → NUL ∉ cmd →
  (length (tokens cmd) < length (argv s))%nat →
  ∃ a,
    execute s
    = (run_cmd ((blank_to_nul <$> cmd) ++ NUL :: post) a
       ≫= λ _, Ret (Shell (hist s) ((blank_to_nul <$> cmd) ++ NUL :: post) a))
    ∧ read_argv ((blank_to_nul <$> cmd) ++ NUL :: post) a = Ok (tokens cmd)
    ∧ a !! length (tokens cmd) = Some Null.
Proof.
  intros Hbuf Hbar Hnul Hcap.
  pose proof (find_pipe_none cmd (S (length (buf s))) [] post Hbar Hnul) as Hfind.
  cbn [app length] in Hfind. rewrite <- Hbuf in Hfind.
  destruct (parse_tokens [] cmd post (argv s) Hnul Hcap) as (a & Hp & Hr & _ & Hnull & _).
  cbn [app length] in Hp, Hr. rewrite <- Hbuf in Hp.
  exists a. split; [|split; [apply Hr | done]].
  unfold execute. rewrite Hfind by (rewrite Hbuf, length_app; lia).
  by rewrite lift_Ok_bind, Hp, lift_Ok_bind.
Qed.

(** Every character of a line other than a space is in one of its tokens. *)
Lemma tokens_cover line c : c ∈ line → c ≠ SP → ∃ t, t ∈ tokens line ∧ c ∈ t.
Proof.
  destruct (runs_at_total line 0) as [ts Hts].
  rewrite <- (runs_at_tokens _ _ _ Hts).
  induction Hts as [b k | b k w rest ts Hw Hsp Hrest Hruns IH]; intros Hin Hc.
  - apply elem_of_replicate in Hin as [? _]. done.
  - apply elem_of_app in Hin as [Hin | Hin].
    { apply elem_of_replicate in Hin as [? _]. done. }
    apply elem_of_app in Hin as [Hin | Hin].
    + exists w. split; [|done]. cbn. apply elem_of_cons. by left.
    + destruct (IH Hin Hc) as (t & Ht & Hct). exists t. split; [|done].
      cbn. apply elem_of_cons. by right.
Qed.

Lemma aliased_elem c line : c ∈ aliased line → c ∈ line ∨ c ∈ lit "ls" ∨ c ∈ lit "cat ".
Proof.
  unfold aliased. case_decide; [by eauto|].
  destruct (starts_with line (lit "leer ")); [|by eauto].
  intros [Hc | Hc]%elem_of_app; [by eauto|].
  left. by apply (subseteq_drop 5 line).
Qed.

(** C5 (as amended). Pipe syntax: a line in the buffer that reaches generic
    execution (it does not start with "calc "; the exact builtins contain no
    '|') is recorded in the history, its aliases are rewritten, and the
    first '|' of the result splits it. When each side of that '|' has fewer
    than [MAXARGS] tokens, the tokens of the text before it and the tokens
    of the text after it, leading spaces trimmed, are the two vectors
    handed to [run_pipe]. A later '|' splits nothing: it is a character of
    an argument of the right command. *)
Theorem pipe_syntax (s : shell) (es : list cstr) (line post l r : list ascii) :
  buf s = line ++ NUL :: post → NUL ∉ line → length (buf s) = Z.to_nat MAXLINE →
  retains (hist s) es → Z.of_nat (length es) < INT_MAX →
  starts_with line (lit "calc ") = false →
  aliased line = l ++ BAR :: r → BAR ∉ l →
  (length (tokens l) < MAXARGS)%nat → (length (tokens r) < MAXARGS)%nat →
  ∃ h m left_args right_args,
    add_history line (hist s) = Ok h
    ∧ eval_line s = (run_pipe m left_args right_args ≫= λ _, Ret (Shell h m (argv s)))
    ∧ read_argv m left_args = Ok (tokens l)
    ∧ read_argv m right_args = Ok (tokens (trim_left r))
    ∧ tokens (trim_left r) = tokens r
    ∧ (∀ c, c ∈ r → c ≠ SP → ∃ t, t ∈ tokens r ∧ c ∈ t).
Proof.
  intros Hbuf Hnul Hlen Hret Hmax Hcalc Hsplit Hbar Hcapl Hcapr.
  assert (Hin : BAR ∈ line).
  { destruct (aliased_elem BAR line) as [H | [H | H]]; [|done|..].
    - rewrite Hsplit. apply elem_of_app. right. by left.
    - by apply not_elem_of_lit in H.
    - by apply not_elem_of_lit in H. }
  assert (Hnot : ∀ b : string, bool_decide (BAR ∈ lit b) = false → line ≠ lit b).
  { intros b Hb ->. by apply not_elem_of_lit in Hin. }
  assert (Hne : line ≠ []) by (intros ->; by apply elem_of_nil in Hin).
  assert (Hll : Z.of_nat (length line) < MAXLINE).
  { pose proof Hlen as Hlen'. change (Z.to_nat MAXLINE) with 100%nat in Hlen'.
    rewrite Hbuf, length_app in Hlen'. cbn [length] in Hlen'. unfold MAXLINE. lia. }
  destruct (add_history_retains (hist s) es line Hret Hne Hll Hmax) as [Hadd _].
  assert (Hnula : NUL ∉ aliased line).
  { intros H. apply aliased_elem in H as [H | [H | H]]; [done|..];
      by apply not_elem_of_lit in H. }
  rewrite Hsplit in Hnula.
  apply not_elem_of_app in Hnula as [Hnull Hnulr].
  apply not_elem_of_cons in Hnulr as [_ Hnulr].
  set (s1 := Shell (History (<[(length es mod 10)%nat:=line]> (history (hist s)))
                            (Z.of_nat (length es) + 1))
                   (aliased line ++ NUL :: drop (S (length (aliased line))) (buf s))
                   (argv s)).
  destruct (execute_pipe s1 l r (drop (S (length (aliased line))) (buf s)))
    as (m & la & ra & Hexec & Hla & Hra); try done.
  { unfold s1. cbn [buf]. by rewrite Hsplit, <- (assoc_L (++)). }
  eexists _, m, la, ra. split; [exact Hadd|]. split; [|split; [|split; [|split]]]; try done.
  - rewrite (eval_line_generic s es line post); try done; try (by apply Hnot).
  - apply tokens_trim_left.
  - intros c. apply tokens_cover.
Qed.

Lemma pipe_syntax_witness :
  ∃ h m left_args right_args,
    eval_line (Shell history_init (lit "ls | wc | x" ++ replicate 89 NUL)
                     (replicate MAXARGS Uninit))
    = (run_pipe m left_args right_args ≫= λ _, Ret (Shell h m (replicate MAXARGS Uninit)))
    ∧ read_argv m left_args = Ok [lit "ls"]
    ∧ read_argv m right_args = Ok [lit "wc"; lit "|"; lit "x"].
Proof.
  destruct (pipe_syntax (Shell history_init (lit "ls | wc | x" ++ replicate 89 NUL)
                               (replicate MAXARGS Uninit))
              [] (lit "ls | wc | x") (replicate 88 NUL) (lit "ls ") (lit " wc | x"))
    as (h & m & la & ra & _ & Heval & Hla & Hra & _).
  - reflexivity.
  - by apply not_elem_of_lit.
  - reflexivity.
  - apply retains_init.
  - by vm_compute.
  - reflexivity.
  - reflexivity.
  - by apply not_elem_of_lit.
  - vm_compute. lia.
  - vm_compute. lia.
  - by exists h, m, la, ra.
Defined.

(** C5 as stated fails: a line with a '|' that starts with "calc " is taken
    by the calculator and reaches no launcher; of a "leer" line it is the
    rewritten text that is split, so the left command is "cat"; and with
    ten tokens on a side of the '|' nothing is handed to the launcher:
    [parse] writes past the vector, no pipe is made and no child. *)
Lemma pipe_syntax_builtin_first :
  let r1 := run (main_iteration shell_init) (boot (lit "calc 1|2" ++ [NL]) (λ _, true) 8) in
  let r2 := run (main_iteration shell_init) (boot (lit "leer a|wc" ++ [NL]) (λ _, true) 8) in
  let r3 := run (main_iteration shell_init)
                (boot (lit "a b c d e f g h i j | wc" ++ [NL]) (λ _, true) 8) in
  w_pipes r1.1 = 0%nat ∧ w_kids r1.1 = []
  ∧ printed (w_log r1.1)
    = [(prompt, []); (COLOR_RED +:+ "Uso: calc n1 op n2\n" +:+ COLOR_RESET, [])]
  ∧ c_end <$> w_kids r2.1
    = [Replaced (lit "cat") [lit "cat"; lit "a"]; Replaced (lit "wc") [lit "wc"]]
  ∧ r3.2 = Crashed ∧ w_pipes r3.1 = 0%nat ∧ w_kids r3.1 = [].
Proof. repeat split; by vm_compute. Qed.

(** ** The launchers *)

Lemma run_fork {B} (f : Z → prog B) w :
  run (sys Fork ≫= f) w
  = match w_slots w with
    | O => run (f (-1)) (emit (EvFork (-1)) w)
    | S _ =>
        let pid := Z.pos (w_next w) in
        let '(wc, ec) := run (f 0) (child_world w) in
        run (f pid) (emit (EvFork pid)
                       (parent_world (Child pid (w_log wc) (w_fds wc) (forget ec)) w))
    end.
Proof. done. Qed.

Lemma run_pipe_call {B} (f : option (Z * Z) → prog B) w :
  run (sys Pipe ≫= f) w = run (f (sys_pipe w).2) (emit (EvPipe (sys_pipe w).2) (sys_pipe w).1).
Proof. cbn. by destruct (sys_pipe w). Qed.

Lemma run_close {B} fd (f : Z → prog B) w :
  run (sys (Close fd) ≫= f) w
  = run (f (sys_close fd w).2) (emit (EvClose fd (sys_close fd w).2) (sys_close fd w).1).
Proof. cbn. by destruct (sys_close fd w). Qed.

Lemma run_dup {B} fd (f : Z → prog B) w :
  run (sys (Dup fd) ≫= f) w
  = run (f (sys_dup fd w).2) (emit (EvDup fd (sys_dup fd w).2) (sys_dup fd w).1).
Proof. cbn. by destruct (sys_dup fd w). Qed.

Lemma run_wait {B} st (f : Z → prog B) w :
  run (sys (Wait st) ≫= f) w
  = run (f (sys_wait w).2) (emit (EvWait st (sys_wait w).2) (sys_wait w).1).
Proof. cbn. by destruct (sys_wait w). Qed.

(** Whether [exec] loads a new image. *)
Lemma run_exec {B} m a args (f : Z → prog B) w :
  read_argv m a = Ok args →
  run (exec m a ≫= f) w
  = match head args with
    | Some path =>
        if w_programs w path
        then (emit (EvExec (Some path) args true) w, Replaced path args)
        else run (f (-1)) (emit (EvExec (Some path) args false) w)
    | None => run (f (-1)) (emit (EvExec None args false) w)
    end.
Proof.
  intros Hargs. unfold exec. rewrite run_assoc, Hargs, run_lift_Ok.
  cbn. by destruct (head args).
Qed.

Lemma fd_alloc_Some t : ∀ n,
  fd_alloc t = Some n →
  t !! n = Some None ∧ ∀ j, (j < n)%nat → ∃ f, t !! j = Some (Some f).
Proof.
  induction t as [|[f|] t IH]; intros n; cbn; [done| |].
  - destruct (fd_alloc t) as [n'|]; [|done]. intros [= <-].
    destruct (IH n' eq_refl) as [Hn Hlt]. split; [done|].
    intros [|j] Hj; cbn; [by eauto|]. apply Hlt. lia.
  - intros [= <-]. split; [done|]. intros j Hj. lia.
Qed.

Lemma fd_alloc_lowest t : ∀ n,
  t !! n = Some None → (∀ j, (j < n)%nat → ∃ f, t !! j = Some (Some f)) →
  fd_alloc t = Some n.
Proof.
  induction t as [|[f|] t IH]; intros n Hn Hlt; [done| |].
  - destruct n as [|n]; [done|]. cbn. rewrite (IH n); [done|done|].
    intros j Hj. apply (Hlt (S j)). lia.
  - destruct n as [|n]; [done|]. destruct (Hlt 0%nat) as [f Hf]; [lia|done].
Qed.

Lemma sys_close_open n f w :
  w_fds w !! n = Some (Some f) →
  sys_close (Z.of_nat n) w = (set_fds (<[n:=None]> (w_fds w)) w, 0).
Proof.
  intros H. unfold sys_close, fd_file.
  rewrite decide_True by lia. by rewrite Nat2Z.id, H.
Qed.

Lemma sys_dup_open n f k w :
  w_fds w !! n = Some (Some f) → fd_alloc (w_fds w) = Some k →
  sys_dup (Z.of_nat n) w = (set_fds (<[k:=Some f]> (w_fds w)) w, Z.of_nat k).
Proof.
  intros H Hk. unfold sys_dup, fd_file.
  rewrite decide_True by lia. by rewrite Nat2Z.id, H, Hk.
Qed.

(** Projections of a machine state built by the kernel's steps. *)
Ltac wsimpl :=
  cbn [w_stdin w_ticks w_programs w_first w_fds w_pipes w_slots w_next w_live
       w_kids w_log emit emits reaped set_fds set_stdin parent_world child_world
       c_pid c_log c_fds c_end fst snd Nat.pred].

(** Lookups in a descriptor table after a few updates. *)
Ltac lk :=
  repeat first
    [ rewrite list_lookup_insert_eq by (rewrite ?length_insert; lia)
    | rewrite list_lookup_insert_ne by lia ];
  try done.

Section pipe_children.
Context (t : list (option file)) (r wr : nat) (pr pw f0 f1 : file).
Context (H0 : t !! 0%nat = Some (Some f0)) (H1 : t !! 1%nat = Some (Some f1)).
Context (Hr : t !! r = Some None) (Hwr : t !! wr = Some None) (Hne : r ≠ wr).

Let t2 := <[wr:=Some pw]> (<[r:=Some pr]> t).

Local Lemma fd_bounds :
  (r < length t ∧ wr < length t ∧ 1 < length t ∧ r ≠ 0 ∧ r ≠ 1 ∧ wr ≠ 0 ∧ wr ≠ 1)%nat.
Proof using All.
  pose proof (lookup_lt_Some _ _ _ Hr). pose proof (lookup_lt_Some _ _ _ Hwr).
  pose proof (lookup_lt_Some _ _ _ H1).
  repeat split; try done; intros ->; congruence.
Qed.

(** Child A: standard output becomes the write end, then both pipe
    descriptors are closed, then [exec]. *)
Lemma run_pipe_child_a cw m left ls B (rest : unit → prog B) :
  w_fds cw = t2 → read_argv m left = Ok ls →
  ∃ cw',
    run (pipe_child_a (Some (Z.of_nat r, Z.of_nat wr)) m left ≫= rest) cw
    = (cw', match head ls with
            | Some p => if w_programs cw p then Replaced p ls else Exited 1
            | None => Exited 1
            end)
    ∧ w_log cw'
      = w_log cw ++ [EvClose 1 0; EvDup (Z.of_nat wr) 1;
                     EvClose (Z.of_nat r) 0; EvClose (Z.of_nat wr) 0;
                     EvExec (head ls) ls
                       (match head ls with Some p => w_programs cw p | None => false end)]
    ∧ w_fds cw' = <[1%nat:=Some pw]> t.
Proof using All.
  intros Hfds Hargs. destruct fd_bounds as (? & ? & ? & ? & ? & ? & ?).
  unfold pipe_child_a. cbn [pipe_end].
  rewrite run_assoc, (run_close 1).
  rewrite (sys_close_open 1 f1) by (rewrite Hfds; unfold t2; lk).
  cbn [fst snd]. rewrite !run_assoc, run_lift_Ok, run_assoc, run_dup.
  rewrite (sys_dup_open wr pw 1); cbn [w_fds set_fds emit]; rewrite ?Hfds;
    [|unfold t2; lk|apply fd_alloc_lowest; [unfold t2; lk|]].
  2:{ intros [|j] Hj; [|lia]. exists f0. unfold t2. lk. }
  cbn [fst snd]. rewrite !run_assoc, run_lift_Ok, run_assoc, run_close.
  rewrite (sys_close_open r pr) by (cbn [w_fds set_fds emit]; unfold t2; lk).
  cbn [fst snd]. rewrite !run_assoc, run_lift_Ok, run_assoc, run_close.
  rewrite (sys_close_open wr pw) by (cbn [w_fds set_fds emit]; unfold t2; lk).
  cbn [fst snd]. rewrite !run_assoc, (run_exec _ _ ls) by done.
  assert (Ht6 : <[wr:=None]> (<[r:=None]> (<[1%nat:=Some pw]> (<[1%nat:=None]> t2)))
                = <[1%nat:=Some pw]> t).
  { apply list_eq. intros i. unfold t2.
    destruct (decide (i = wr)) as [-> | ?]; [lk; by rewrite Hwr|].
    destruct (decide (i = r)) as [-> | ?]; [lk; by rewrite Hr|].
    destruct (decide (i = 1%nat)) as [-> | ?]; lk. }
  destruct (head ls) as [p|]; [destruct (w_programs _ p) eqn:Hp|];
    eexists; (split; [cbn; rewrite ?Hp; reflexivity|]);
    cbn; rewrite <- !(assoc_L (++)); cbn; rewrite ?Hp; done.
Qed.

(** Child B: standard input becomes the read end, then both pipe
    descriptors are closed, then [exec]. *)
Lemma run_pipe_child_b cw m right rs B (rest : unit → prog B) :
  w_fds cw = t2 → read_argv m right = Ok rs →
  ∃ cw',
    run (pipe_child_b (Some (Z.of_nat r, Z.of_nat wr)) m right ≫= rest) cw
    = (cw', match head rs with
            | Some p => if w_programs cw p then Replaced p rs else Exited 1
            | None => Exited 1
            end)
    ∧ w_log cw'
      = w_log cw ++ [EvClose 0 0; EvDup (Z.of_nat r) 0;
                     EvClose (Z.of_nat wr) 0; EvClose (Z.of_nat r) 0;
                     EvExec (head rs) rs
                       (match head rs with Some p => w_programs cw p | None => false end)]
    ∧ w_fds cw' = <[0%nat:=Some pr]> t.
Proof using All.
  intros Hfds Hargs. destruct fd_bounds as (? & ? & ? & ? & ? & ? & ?).
  unfold pipe_child_b. cbn [pipe_end].
  rewrite run_assoc, (run_close 0).
  rewrite (sys_close_open 0 f0) by (rewrite Hfds; unfold t2; lk).
  cbn [fst snd]. rewrite !run_assoc, run_lift_Ok, run_assoc, run_dup.
  rewrite (sys_dup_open r pr 0); cbn [w_fds set_fds emit]; rewrite ?Hfds;
    [|unfold t2; lk|apply fd_alloc_lowest; [unfold t2; lk|intros j Hj; lia]].
  cbn [fst snd]. rewrite !run_assoc, run_lift_Ok, run_assoc, run_close.
  rewrite (sys_close_open wr pw) by (cbn [w_fds set_fds emit]; unfold t2; lk).
  cbn [fst snd]. rewrite !run_assoc, run_lift_Ok, run_assoc, run_close.
  rewrite (sys_close_open r pr) by (cbn [w_fds set_fds emit]; unfold t2; lk).
  cbn [fst snd]. rewrite !run_assoc, (run_exec _ _ rs) by done.
  assert (Ht6 : <[r:=None]> (<[wr:=None]> (<[0%nat:=Some pr]> (<[0%nat:=None]> t2)))
                = <[0%nat:=Some pr]> t).
  { apply list_eq. intros i. unfold t2.
    destruct (decide (i = r)) as [-> | ?]; [lk; by rewrite Hr|].
    destruct (decide (i = wr)) as [-> | ?]; [lk; by rewrite Hwr|].
    destruct (decide (i = 0%nat)) as [-> | ?]; lk. }
  destruct (head rs) as [p|]; [destruct (w_programs _ p) eqn:Hp|];
    eexists; (split; [cbn; rewrite ?Hp; reflexivity|]);
    cbn; rewrite <- !(assoc_L (++)); cbn; rewrite ?Hp; done.
Qed.

(** The parent's table after it closed both ends is the one it had. *)
Lemma parent_fds_restored : <[wr:=None]> (<[r:=None]> t2) = t.
Proof using All.
  destruct fd_bounds as (? & ? & ? & ? & ? & ? & ?).
  apply list_eq. intros i. unfold t2.
  destruct (decide (i = wr)) as [-> | ?]; [lk; by rewrite Hwr|].
  destruct (decide (i = r)) as [-> | ?]; [lk; by rewrite Hr|]. lk.
Qed.
End pipe_children.

Lemma ret_bind {A B} (a : A) (f : A → prog B) : (Ret a ≫= f) = f a.
Proof. done. Qed.

Lemma sys_pipe_ok w r wr :
  fd_alloc (w_fds w) = Some r →
  fd_alloc (<[r:=Some (PipeRead (w_pipes w))]> (w_fds w)) = Some wr →
  sys_pipe w
  = (World (w_stdin w) (w_ticks w) (w_programs w) (w_first w)
           (<[wr:=Some (PipeWrite (w_pipes w))]> (<[r:=Some (PipeRead (w_pipes w))]> (w_fds w)))
           (S (w_pipes w)) (w_slots w) (w_next w) (w_live w) (w_kids w) (w_log w),
     Some (Z.of_nat r, Z.of_nat wr)).
Proof. intros Hr Hwr. unfold sys_pipe. by rewrite Hr, Hwr. Qed.

Lemma sys_wait_one w p : w_live w = [p] → sys_wait w = (reaped p [] w, p).
Proof.
  intros Hl. unfold sys_wait, reaped. rewrite Hl.
  assert ((if decide (w_first w [p] ∈ [p]) then w_first w [p] else p) = p) as ->.
  { case_decide as Hin; [|done]. by apply list_elem_of_singleton in Hin. }
  rewrite filter_cons_False by naive_solver. done.
Qed.

Lemma sys_wait_pair w pa pb :
  w_live w = [pa; pb] → pa ≠ pb →
  ∃ x y, (x = pa ∧ y = pb ∨ x = pb ∧ y = pa) ∧ sys_wait w = (reaped x [y] w, x).
Proof.
  intros Hl Hne. unfold sys_wait, reaped. rewrite Hl.
  set (x := if decide (w_first w [pa; pb] ∈ [pa; pb]) then w_first w [pa; pb] else pa).
  assert (x = pa ∨ x = pb) as [-> | ->].
  { unfold x. case_decide as Hin; [|by left].
    apply elem_of_cons in Hin as [-> | Hin]; [by left|].
    apply list_elem_of_singleton in Hin as ->. by right. }
  - exists pa, pb. split; [by left|].
    rewrite filter_cons_False by naive_solver.
    rewrite filter_cons_True by done. done.
  - exists pb, pa. split; [by right|].
    rewrite filter_cons_True by done.
    rewrite filter_cons_False by naive_solver. done.
Qed.

(** C6. Pipe launcher descriptor protocol, for an invocation in which the
    pipe and both children can be created and standard input and output are
    open. Child A closes descriptor 1, duplicates the write end into it,
    closes both pipe descriptors and only then calls [exec] on [left];
    child B does the same with descriptor 0 and the read end for [right].
    The parent closes both ends after the two forks and before the first
    [wait], and its two [wait] calls collect both children in whichever
    order they end. *)
Theorem pipe_protocol (m : mem) (left right : list ptr) (ls rs : list cstr)
    (w : world) (r wr : nat) (f0 f1 : file) :
  read_argv m left = Ok ls → read_argv m right = Ok rs →
  w_fds w !! 0%nat = Some (Some f0) → w_fds w !! 1%nat = Some (Some f1) →
  fd_alloc (w_fds w) = Some r →
  fd_alloc (<[r:=Some (PipeRead (w_pipes w))]> (w_fds w)) = Some wr →
  (2 ≤ w_slots w)%nat → w_live w = [] →
  let pa := Z.pos (w_next w) in
  let pb := Z.pos (Pos.succ (w_next w)) in
  ∃ w' a b x y,
    run (run_pipe m left right) w = (w', Returned tt)
    ∧ w_log w' = w_log w ++ [EvPipe (Some (Z.of_nat r, Z.of_nat wr));
                             EvFork pa; EvFork pb;
                             EvClose (Z.of_nat r) 0; EvClose (Z.of_nat wr) 0;
                             EvWait 0 x; EvWait 0 y]
    ∧ (x = pa ∧ y = pb ∨ x = pb ∧ y = pa)
    ∧ w_live w' = [] ∧ w_fds w' = w_fds w
    ∧ w_kids w' = w_kids w ++ [a; b]
    ∧ a = Child pa
            [EvClose 1 0; EvDup (Z.of_nat wr) 1;
             EvClose (Z.of_nat r) 0; EvClose (Z.of_nat wr) 0;
             EvExec (head ls) ls (exec_loads w ls)]
            (<[1%nat:=Some (PipeWrite (w_pipes w))]> (w_fds w))
            (exec_or_exit w ls)
    ∧ b = Child pb
            [EvClose 0 0; EvDup (Z.of_nat r) 0;
             EvClose (Z.of_nat wr) 0; EvClose (Z.of_nat r) 0;
             EvExec (head rs) rs (exec_loads w rs)]
            (<[0%nat:=Some (PipeRead (w_pipes w))]> (w_fds w))
            (exec_or_exit w rs).
Proof.
  intros Hls Hrs H0 H1 Hr Hwr Hslots Hlive pa pb.
  destruct (fd_alloc_Some _ _ Hr) as [Hr0 _].
  destruct (fd_alloc_Some _ _ Hwr) as [Hwr0 _].
  assert (Hne : r ≠ wr).
  { intros <-. rewrite list_lookup_insert_eq in Hwr0; [done|]. by eapply lookup_lt_Some. }
  rewrite list_lookup_insert_ne in Hwr0 by done.
  pose (t := w_fds w). pose (pr := PipeRead (w_pipes w)).
  pose (pw := PipeWrite (w_pipes w)).
  pose proof (lookup_lt_Some _ _ _ Hr0) as Hrlt.
  pose proof (lookup_lt_Some _ _ _ Hwr0) as Hwrlt.
  unfold run_pipe. rewrite run_pipe_call, (sys_pipe_ok w r wr) by done.
  wsimpl. rewrite run_fork. wsimpl.
  destruct (w_slots w) as [|[|n]] eqn:Hs; [lia..|]. clear Hslots.
  cbn zeta. rewrite decide_True by done.
  rewrite (decide_False (P := Z.pos _ = 0)) by done.
  (* child A *)
  match goal with
  | |- context [run (pipe_child_a _ _ _ ≫= ?rest) ?W] =>
      destruct (run_pipe_child_a t r wr pr pw f0 f1 H0 H1 Hr0 Hwr0 Hne
                  W m left ls _ rest eq_refl Hls)
        as (cwa & -> & Hloga & Hfdsa)
  end.
  cbn iota. rewrite ret_bind, run_fork. wsimpl.
  cbn zeta. rewrite decide_True by done.
  rewrite (decide_False (P := Z.pos _ = 0)) by done.
  (* child B *)
  match goal with
  | |- context [run (pipe_child_b _ _ _ ≫= ?rest) ?W] =>
      destruct (run_pipe_child_b t r wr pr pw f0 f1 H0 H1 Hr0 Hwr0 Hne
                  W m right rs _ rest eq_refl Hrs)
        as (cwb & -> & Hlogb & Hfdsb)
  end.
  cbn iota. rewrite ret_bind. cbn [pipe_end].
  (* the parent closes both ends, then waits twice *)
  rewrite run_lift_Ok, run_close.
  rewrite (sys_close_open r pr) by (wsimpl; lk).
  wsimpl. rewrite run_lift_Ok, run_close.
  rewrite (sys_close_open wr pw) by (wsimpl; lk).
  wsimpl. rewrite run_wait.
  match goal with
  | |- context [sys_wait ?W] =>
      destruct (sys_wait_pair W pa pb) as (x & y & Hxy & ->);
        [wsimpl; by rewrite Hlive | unfold pa, pb; lia |]
  end.
  wsimpl. rewrite run_wait, (sys_wait_one _ y) by done.
  wsimpl.
  eexists _, _, _, x, y. split; [reflexivity|].
  wsimpl. rewrite <- !(assoc_L (++)), Hloga, Hlogb, Hfdsa, Hfdsb.
  subst t pr pw. wsimpl.
  rewrite (parent_fds_restored (w_fds w) r wr _ _ f0 f1) by done.
  unfold exec_or_exit, exec_loads.
  repeat split; try done.
  - by destruct (head ls) as [p|]; [destruct (w_programs w p)|].
  - by destruct (head rs) as [p|]; [destruct (w_programs w p)|].
Qed.

Lemma pipe_protocol_witness :
  let m := lit "ls" ++ [NUL] ++ lit "wc" ++ [NUL] in
  ∃ w' a b,
    run (run_pipe m [Ptr 0; Null] [Ptr 3; Null]) (boot [] (λ _, true) 8) = (w', Returned tt)
    ∧ w_kids w' = [a; b]
    ∧ c_fds a !! 1%nat = Some (Some (PipeWrite 0))
    ∧ c_fds b !! 0%nat = Some (Some (PipeRead 0))
    ∧ c_end a = Replaced (lit "ls") [lit "ls"]
    ∧ c_end b = Replaced (lit "wc") [lit "wc"].
Proof.
  intros m.
  destruct (pipe_protocol m [Ptr 0; Null] [Ptr 3; Null] [lit "ls"] [lit "wc"]
              (boot [] (λ _, true) 8) 3 4 Console Console)
    as (w' & a & b & x & y & Hrun & _ & _ & _ & _ & Hkids & -> & ->);
    try reflexivity.
  - vm_compute. lia.
  - eexists w', _, _. split; [exact Hrun|]. split; [exact Hkids|].
    clear Hrun Hkids. vm_compute. repeat split; reflexivity.
Defined.

(** ** Who can end the shell *)

Lemma quiet_run {A} (p : prog A) : quiet p → ∀ w st, (run p w).2 ≠ Exited st.
Proof.
  induction 1 as [a| | |X c k Hk IH]; intros w st; try done.
  destruct c as [|fmt args| | |fd|fd|path argv|s|]; cbn [run].
  - destruct (w_stdin w); by apply IH.
  - by apply IH.
  - destruct (w_slots w); [by apply IH|].
    destruct (run (k 0) (child_world w)) as [wc ec]. by apply IH.
  - destruct (sys_pipe w). by apply IH.
  - destruct (sys_close fd w). by apply IH.
  - destruct (sys_dup fd w). by apply IH.
  - destruct path as [path|]; [destruct (w_programs w path)|]; try done; by apply IH.
  - destruct (sys_wait w). by apply IH.
  - by apply IH.
Qed.

Lemma quiet_bind {A B} (p : prog A) (f : A → prog B) :
  quiet p → (∀ a, quiet (f a)) → quiet (p ≫= f).
Proof.
  intros Hp Hf. induction Hp as [a| | |X c k Hk IH].
  - apply Hf.
  - constructor.
  - constructor.
  - change (quiet (Sys c (λ x, k x ≫= f))). constructor. intros x Hx. by apply IH.
Qed.

Lemma quiet_lift {A} (r : res A) : quiet (lift r).
Proof. destruct r; constructor. Qed.

Lemma quiet_sys {X} (c : call X) : quiet (sys c).
Proof. constructor. intros x _. constructor. Qed.

Lemma quiet_printf fmt args : quiet (printf fmt args).
Proof. apply quiet_sys. Qed.

(** Programs built from quiet parts. *)
Ltac quiet :=
  repeat first
    [ apply quiet_lift | apply quiet_printf | apply quiet_sys | apply quiet_Ret
    | apply quiet_bind; [|intros ?]
    | match goal with
      | |- quiet (match ?x with _ => _ end) => destruct x
      | |- quiet (let _ := _ in _) => cbn zeta
      end ].

Lemma quiet_readline_loop n : ∀ b i, quiet (readline_loop n b i).
Proof. induction n as [|n IH]; intros b i; cbn [readline_loop]; quiet. apply IH. Qed.

Lemma quiet_show_history_loop fuel : ∀ h i, quiet (show_history_loop fuel h i).
Proof.
  induction fuel as [|fuel IH]; intros h i; cbn [show_history_loop]; quiet;
    try constructor. apply IH.
Qed.

Lemma quiet_sys_bind {X B} (c : call X) (f : X → prog B) :
  (∀ x, parent_answer c x → quiet (f x)) → quiet (sys c ≫= f).
Proof.
  intros Hf. change (quiet (Sys c (λ x, f x))). constructor. apply Hf.
Qed.

Lemma quiet_run_cmd m a : quiet (run_cmd m a).
Proof.
  unfold run_cmd. apply quiet_sys_bind. intros pid Hpid. cbn in Hpid.
  rewrite decide_False by done. quiet.
Qed.

Lemma quiet_run_pipe m l r : quiet (run_pipe m l r).
Proof.
  unfold run_pipe. apply quiet_sys_bind. intros p _.
  apply quiet_sys_bind. intros pid Hpid. cbn in Hpid.
  rewrite decide_False by done. rewrite ret_bind.
  apply quiet_sys_bind. intros pid' Hpid'. cbn in Hpid'.
  rewrite decide_False by done. rewrite ret_bind. quiet.
Qed.

Lemma quiet_show_history h : quiet (show_history h).
Proof. unfold show_history. quiet. apply quiet_show_history_loop. Qed.

Lemma quiet_calc b : quiet (calc b).
Proof. unfold calc, usage, invalid_operation. quiet. Qed.

Lemma quiet_tiempo : quiet tiempo.
Proof. unfold tiempo, print_two_digits. quiet. Qed.

Lemma quiet_execute s : quiet (execute s).
Proof.
  unfold execute.
  apply quiet_bind; [apply quiet_lift|]. intros [pos|].
  - apply quiet_bind; [apply quiet_lift|]. intros b.
    apply quiet_bind; [apply quiet_lift|]. intros right.
    apply quiet_bind; [apply quiet_lift|]. intros [b1 la].
    apply quiet_bind; [apply quiet_lift|]. intros [b2 ra].
    apply quiet_bind; [apply quiet_run_pipe|]. intros _. constructor.
  - apply quiet_bind; [apply quiet_lift|]. intros [b a].
    apply quiet_bind; [apply quiet_run_cmd|]. intros _. constructor.
Qed.

(** Every dispatch but that of "salir" is quiet. *)
Lemma quiet_eval_line s :
  cstring_at (buf s) 0 ≠ Ok (lit "salir") → quiet (eval_line s).
Proof.
  intros Hline. unfold eval_line.
  destruct (cstring_at (buf s) 0) as [line| |]; try constructor.
  rewrite lift_Ok_bind.
  destruct (add_history line (hist s)) as [h| |]; try constructor.
  rewrite lift_Ok_bind. cbn zeta.
  rewrite decide_False by congruence.
  case_decide.
  { apply quiet_bind; [apply quiet_printf | intros; constructor]. }
  case_decide.
  { apply quiet_bind; [apply quiet_show_history | intros; constructor]. }
  case_decide.
  { apply quiet_bind; [unfold ayuda; quiet | intros; constructor]. }
  destruct (starts_with line (lit "calc ")).
  { apply quiet_bind; [apply quiet_calc | intros; constructor]. }
  case_decide.
  { apply quiet_bind; [apply quiet_tiempo | intros; constructor]. }
  apply quiet_bind; [apply quiet_lift|]. intros b. apply quiet_execute.
Qed.

Lemma cstring_upto_nul (l : list ascii) post : cstring (l ++ NUL :: post) = Ok (upto_nul l).
Proof.
  induction l as [|c l IH]; [done|]. cbn [app cstring upto_nul].
  destruct (c =? NUL)%char; [done|]. by rewrite IH.
Qed.

(** [run_cmd] in the parent: one fork, one wait with a null status pointer. *)
Lemma run_run_cmd m a args B (f : unit → prog B) w :
  read_argv m a = Ok args → w_live w = [] → (0 < w_slots w)%nat →
  let pid := Z.pos (w_next w) in
  let c := Child pid
             (EvExec (head args) args (exec_loads w args)
              :: if exec_loads w args then []
                 else [EvPrintf (COLOR_RED +:+ "Error ejecutando comando\n" +:+ COLOR_RESET) []])
             (w_fds w) (exec_or_exit w args) in
  run (run_cmd m a ≫= f) w
  = run (f tt)
        (World (w_stdin w) (w_ticks w) (w_programs w) (w_first w) (w_fds w) (w_pipes w)
               (w_slots w) (Pos.succ (w_next w)) [] (w_kids w ++ [c])
               (w_log w ++ [EvFork pid; EvWait 0 pid])).
Proof.
  intros Hargs Hlive Hslots pid c. unfold run_cmd.
  rewrite run_assoc, run_fork.
  destruct (w_slots w) as [|n] eqn:Hs; [lia|]. cbn zeta.
  rewrite decide_True by done. rewrite (decide_False (P := Z.pos _ = 0)) by done.
  rewrite run_assoc, (run_exec m a args) by done.
  assert (Hparent : ∀ k : child,
            c_pid k = pid →
            run ((sys (Wait 0) ≫= λ _ : Z, Ret tt) ≫= f)
                (emit (EvFork pid) (parent_world k w))
            = run (f tt)
                (World (w_stdin w) (w_ticks w) (w_programs w) (w_first w) (w_fds w)
                       (w_pipes w) (w_slots w) (Pos.succ (w_next w)) []
                       (w_kids w ++ [k]) (w_log w ++ [EvFork pid; EvWait 0 pid]))).
  { intros k Hk. rewrite run_assoc, run_wait.
    rewrite (sys_wait_one _ pid) by (wsimpl; by rewrite Hlive, Hk).
    wsimpl. rewrite ret_bind. f_equal. unfold emit, reaped, parent_world. wsimpl.
    rewrite Hs, <- (assoc_L (++)). done. }
  rewrite Hs in Hparent.
  unfold c, exec_or_exit, exec_loads.
  destruct (head args) as [path|]; wsimpl.
  - destruct (w_programs w path); wsimpl.
    + cbn iota. wsimpl. by rewrite Hparent.
    + rewrite run_assoc, run_printf. cbn [mbind prog_bind bind run]. cbn iota.
      wsimpl. by rewrite Hparent.
  - rewrite run_assoc, run_printf. cbn [mbind prog_bind bind run]. cbn iota.
    wsimpl. by rewrite Hparent.
Qed.

(** C7 at the failing inputs, with what the code keeps of the claim. An
    iteration of the shell ends the shell process by [exit] only with
    status 0 and only when the command line is exactly "salir", and a line
    "salir" does end it, with status 0. A child made by [run_cmd] whose
    [exec] fails prints an error and calls [exit(1)]; the parent calls
    [wait] with a null status pointer and goes on in the same way whether
    the child loaded its program or exited with 1. But [exit] is not the
    only end of the shell process: on the line "a b c d e f g h i j"
    [parse] writes past [argv], and on "calc 2147483648 / 4294967295" the
    division is [INT_MIN / -1]; both are undefined behaviour in the shell
    process itself, no child is made and the line that follows is never
    read. *)
Theorem exit_discipline (s : shell) (w : world) :
  length (buf s) = Z.to_nat MAXLINE →
  (∀ w' st, run (main_iteration s) w = (w', Exited st) →
     st = 0 ∧ command_line (w_stdin w) = lit "salir")
  ∧ (∀ es, retains (hist s) es → Z.of_nat (length es) < INT_MAX →
     command_line (w_stdin w) = lit "salir" →
     ∃ w', run (main_iteration s) w = (w', Exited 0))
  ∧ (∀ m a args, read_argv m a = Ok args → w_live w = [] → (0 < w_slots w)%nat →
     ∃ w' c,
       run (run_cmd m a) w = (w', Returned tt)
       ∧ w_log w' = w_log w ++ [EvFork (c_pid c); EvWait 0 (c_pid c)]
       ∧ w_kids w' = w_kids w ++ [c]
       ∧ c_end c = exec_or_exit w args
       ∧ (exec_loads w args = false →
          c_end c = Exited 1
          ∧ c_log c = [EvExec (head args) args false;
                       EvPrintf (COLOR_RED +:+ "Error ejecutando comando\n"
                                 +:+ COLOR_RESET) []]))
  ∧ (∀ line, line ∈ [lit "a b c d e f g h i j"; lit "calc 2147483648 / 4294967295"] →
     let r := run (main_loop 2 shell_init)
                  (boot (line ++ [NL] ++ lit "salir" ++ [NL]) (λ _, true) 8) in
     r.2 = Crashed ∧ w_kids r.1 = [] ∧ w_stdin r.1 = lit "salir" ++ [NL]).
Proof.
  intros Hb. split; [|split; [|split]].
  - intros w' st Hrun.
    rewrite <- run_ret_r, run_main_iteration in Hrun by done.
    unfold command_line. destruct (line_of LINE_CAP (w_stdin w)) as [|c l] eqn:Hl; [done|].
    destruct (c =? NUL)%char eqn:Hc; [done|]. rewrite run_ret_r in Hrun.
    set (s1 := Shell _ _ _) in Hrun.
    assert (Hline : cstring_at (buf s1) 0 = Ok (upto_nul (c :: l))).
    { unfold cstring_at. rewrite decide_True by (cbn; lia).
      rewrite drop_0. apply cstring_upto_nul. }
    destruct (decide (upto_nul (c :: l) = lit "salir")) as [Heq | Hne].
    + split; [|done]. unfold eval_line in Hrun.
      rewrite Hline, lift_Ok_bind in Hrun.
      destruct (add_history _ (hist s1)) as [h| |]; try done.
      rewrite lift_Ok_bind in Hrun. cbn zeta in Hrun.
      rewrite decide_True in Hrun by done. by injection Hrun.
    + exfalso. eapply (quiet_run (eval_line s1)).
      * apply quiet_eval_line. rewrite Hline. congruence.
      * by rewrite Hrun.
  - intros es Hret Hmax Hcmd. unfold command_line in Hcmd.
    rewrite <- run_ret_r, run_main_iteration by done.
    destruct (line_of LINE_CAP (w_stdin w)) as [|c l] eqn:Hl; [done|].
    destruct (c =? NUL)%char eqn:Hc; [by cbn in Hcmd; rewrite Hc in Hcmd|].
    rewrite run_ret_r. set (s1 := Shell _ _ _).
    assert (Hline : cstring_at (buf s1) 0 = Ok (lit "salir")).
    { unfold cstring_at. rewrite decide_True by (cbn; lia).
      rewrite drop_0, <- Hcmd. apply cstring_upto_nul. }
    destruct (add_history_retains (hist s1) es (lit "salir") Hret) as [Hadd _];
      [done|done|done|].
    unfold eval_line. rewrite Hline, lift_Ok_bind, Hadd, lift_Ok_bind. cbn zeta.
    rewrite decide_True by done. by eexists.
  - intros m a args Hargs Hlive Hslots.
    eexists _, (Child (Z.pos (w_next w))
                  (EvExec (head args) args (exec_loads w args)
                   :: if exec_loads w args then []
                      else [EvPrintf (COLOR_RED +:+ "Error ejecutando comando\n"
                                      +:+ COLOR_RESET) []])
                  (w_fds w) (exec_or_exit w args)).
    split; [|split; [|split; [|split]]].
    + rewrite <- run_ret_r, (run_run_cmd m a args) by done. reflexivity.
    + reflexivity.
    + reflexivity.
    + reflexivity.
    + intros Hfail. cbn [c_end c_log]. rewrite Hfail. split; [|done].
      unfold exec_or_exit, exec_loads in *.
      destruct (head args) as [p|]; [|done]. by rewrite Hfail.
  - intros line Hin.
    repeat (apply elem_of_cons in Hin as [-> | Hin]; [by vm_compute|]).
    by apply elem_of_nil in Hin.
Qed.

Lemma exit_discipline_witness :
  (∃ w', run (main_iteration shell_init) (boot (lit "salir" ++ [NL]) (λ _, true) 8)
         = (w', Exited 0))
  ∧ ∃ w' c, run (run_cmd (lit "nada" ++ [NUL]) [Ptr 0; Null])
                (boot [] (λ _, false) 8) = (w', Returned tt)
          ∧ w_kids w' = [c] ∧ c_end c = Exited 1.
Proof.
  destruct (exit_discipline shell_init (boot (lit "salir" ++ [NL]) (λ _, true) 8) eq_refl)
    as (_ & Hexit & _).
  destruct (exit_discipline shell_init (boot [] (λ _, false) 8) eq_refl)
    as (_ & _ & Hchild & _).
  split.
  - apply (Hexit []); [apply retains_init | by vm_compute | by vm_compute].
  - destruct (Hchild (lit "nada" ++ [NUL]) [Ptr 0; Null] [lit "nada"])
      as (w' & c & Hrun & _ & Hkids & _ & Hfail); [by vm_compute|done|vm_compute; lia|].
    exists w', c. split; [done|]. split; [done|]. by apply Hfail.
Defined.

(** ** A line of spaces *)

Lemma tokens_only_blanks k : tokens (replicate k SP) = [].
Proof. rewrite <- (app_nil_r (replicate k SP)). by rewrite tokens_blanks. Qed.

(** C10. A non-empty line of spaces is a command. The shell records it in
    the history, finds no builtin and no '|' in it, and calls [run_cmd]
    with a vector whose element 0 is the null sentinel. The child's [exec]
    of a null path fails, so the child prints the error and exits with
    status 1, while the parent waits for it and ends the iteration
    normally. *)
Theorem blank_line (s : shell) (w : world) (es : list cstr) (k : nat) (tl : list ascii) :
  length (buf s) = Z.to_nat MAXLINE → length (argv s) = MAXARGS →
  retains (hist s) es → Z.of_nat (length es) < INT_MAX →
  w_stdin w = replicate k SP ++ tl → (tl = [] ∨ ∃ r, tl = NL :: r) → (1 ≤ k)%nat →
  w_live w = [] → (0 < w_slots w)%nat →
  let line := replicate (k `min` LINE_CAP) SP in
  let pid := Z.pos (w_next w) in
  ∃ w' s',
    run (main_iteration s) w = (w', Returned s')
    ∧ history_count (hist s') = history_count (hist s) + 1
    ∧ history (hist s') !! (length es mod 10)%nat = Some line
    ∧ argv s' !! 0%nat = Some Null
    ∧ w_log w' = w_log w ++ EvPrintf prompt [] :: reads_of LINE_CAP (w_stdin w)
                         ++ [EvFork pid; EvWait 0 pid]
    ∧ w_pipes w' = w_pipes w
    ∧ w_kids w'
      = w_kids w ++ [Child pid
                       [EvExec None [] false;
                        EvPrintf (COLOR_RED +:+ "Error ejecutando comando\n"
                                  +:+ COLOR_RESET) []]
                       (w_fds w) (Exited 1)].
Proof.
  intros Hb Ha Hret Hmax Hin Htl Hk Hlive Hslots line pid.
  assert (Hsp : NL ∉ replicate k SP).
  { intros [? _]%elem_of_replicate. done. }
  destruct (line_of_split LINE_CAP _ _ Hsp Htl) as [Hline _].
  rewrite <- Hin, take_replicate, Nat.min_comm in Hline. fold line in Hline.
  assert (∃ j, line = SP :: replicate j SP) as [j Hj].
  { unfold line. assert (LINE_CAP = 99%nat) as -> by done.
    destruct (k `min` 99)%nat as [|j] eqn:Hm; [lia|]. by exists j. }
  rewrite <- run_ret_r, run_main_iteration by done.
  rewrite Hline, Hj. cbn [Ascii.eqb SP NUL zero Bool.eqb]. rewrite <- Hj.
  set (post := drop (S (length line)) (buf s)).
  set (s1 := Shell (hist s) (line ++ NUL :: post) (argv s)).
  set (w1 := emits _ _).
  assert (Hnul : NUL ∉ line) by (intros [? _]%elem_of_replicate; done).
  assert (Hbar : BAR ∉ line) by (intros [? _]%elem_of_replicate; done).
  assert (Hlen1 : length (buf s1) = Z.to_nat MAXLINE).
  { unfold s1, post. cbn [buf]. rewrite length_app. cbn [length].
    rewrite length_drop, Hb. unfold line. rewrite length_replicate.
    change (Z.to_nat MAXLINE) with 100%nat. assert (LINE_CAP = 99%nat) as -> by done. lia. }
  assert (Halias : aliased line = line).
  { unfold aliased. rewrite decide_False by (rewrite Hj; differ). by rewrite Hj. }
  rewrite (eval_line_generic s1 es line post); try done;
    try (rewrite Hj; differ); [|by rewrite Hj].
  cbn [buf argv hist s1]. rewrite Halias.
  set (s2 := Shell _ _ _).
  destruct (execute_single s2 line (drop (S (length line)) (line ++ NUL :: post)))
    as (a & Hexec & Hargs & Hnull); try done.
  { unfold line, s2. cbn [argv]. rewrite tokens_only_blanks, Ha. unfold MAXARGS. cbn. lia. }
  unfold line in Hargs, Hnull. rewrite tokens_only_blanks in Hargs, Hnull.
  fold line in Hargs, Hnull. rewrite Hexec.
  rewrite run_assoc, (run_run_cmd _ a []) by done.
  rewrite ret_bind. cbn [run].
  eexists _, _. split; [reflexivity|].
  cbn [hist history history_count argv w1]. wsimpl.
  destruct Hret as (-> & Hrows & _).
  repeat split; try done.
  - apply list_lookup_insert_eq. rewrite Hrows. apply Nat.mod_upper_bound. lia.
  - unfold w1. wsimpl. rewrite <- !(assoc_L (++)). done.
Qed.

Lemma blank_line_witness :
  ∃ w' s',
    run (main_iteration shell_init) (boot (lit "   " ++ [NL]) (λ _, true) 8)
    = (w', Returned s')
    ∧ history (hist s') !! 0%nat = Some (lit "   ")
    ∧ argv s' !! 0%nat = Some Null
    ∧ c_end <$> w_kids w' = [Exited 1].
Proof.
  destruct (blank_line shell_init (boot (lit "   " ++ [NL]) (λ _, true) 8) [] 3 [NL])
    as (w' & s' & Hrun & _ & Hrow & Hnull & _ & _ & Hkids);
    try reflexivity.
  - apply retains_init.
  - right. by eexists.
  - lia.
  - vm_compute. lia.
  - exists w', s'. split; [exact Hrun|]. split; [exact Hrow|]. split; [exact Hnull|].
    by rewrite Hkids.
Defined.

(** * Further properties of the code *)

(** ** [starts_with] (lines 163-171) *)

(** X1. [starts_with str p] answers 1 exactly when the string [str] is the
    string [p] followed by some text, possibly none. *)
Theorem starts_with_prefix (str p : cstr) :
  starts_with str p = true ↔ p `prefix_of` str.
Proof.
  split.
  - intros H. exists (drop (length p) str). by apply starts_with_true.
  - intros [rest ->]. apply starts_with_app.
Qed.

(** ** [parse] (lines 94-112) *)

(** X2. With room for the runs and the sentinel, [parse] turns every space
    of the line into a terminator and nothing else of the memory, stores the
    pointers to the runs in order followed by the null sentinel, and leaves
    the elements of the vector after the sentinel as they were. *)
Theorem parse_in_bounds (pre line post : list ascii) (argv : list ptr) :
  NUL ∉ line → (length (tokens line) < length argv)%nat →
  ∃ argv',
    parse (pre ++ line ++ NUL :: post) (length pre) argv
    = Ok (pre ++ (blank_to_nul <$> line) ++ NUL :: post, argv')
    ∧ read_argv (pre ++ (blank_to_nul <$> line) ++ NUL :: post) argv' = Ok (tokens line)
    ∧ length argv' = length argv
    ∧ argv' !! length (tokens line) = Some Null
    ∧ drop (S (length (tokens line))) argv' = drop (S (length (tokens line))) argv.
Proof.
  intros Hnul Hcap.
  destruct (runs_at_total line (length pre)) as [ts Hts].
  pose proof (runs_at_tokens _ _ _ Hts) as Htok.
  assert (Hlen : length ts = length (tokens line)).
  { by rewrite <- Htok, length_fmap. }
  destruct (parse_tokens pre line post argv Hnul Hcap) as (argv' & Hp & Hread & Hl & Hnull & _).
  exists argv'. repeat split; try done.
  assert (Hp' : parse (pre ++ line ++ NUL :: post) (length pre) argv
          = Ok (pre ++ (blank_to_nul <$> line) ++ NUL :: post,
                take 0 argv ++ (Ptr <$> ts.*1) ++ Null :: drop (S (0 + length ts)) argv)).
  { unfold parse. apply (parse_loop_runs _ _ _ Hts); try done.
    - simpl. lia.
    - rewrite !length_app. simpl.
      assert (length argv' = length argv) by done.
      assert (length ts ≤ length line)%nat; [|lia].
      rewrite Hlen. clear. induction line as [|c l IH]; [done|].
      cbn [tokens]. destruct (c =? SP)%char; [simpl; lia|].
      destruct (head l), (tokens l) as [|w ws]; simpl in *; try lia.
      destruct (a =? SP)%char; simpl; lia. }
  rewrite Hp in Hp'. injection Hp' as ->.
  rewrite <- Hlen.
  rewrite drop_app_ge by (rewrite !length_fmap; lia).
  rewrite !length_fmap. replace (S (length ts) - length ts)%nat with 1%nat by lia.
  done.
Qed.

Lemma parse_in_bounds_witness :
  ∃ argv',
    parse (lit "x" ++ [NUL] ++ lit "ls  -l a" ++ NUL :: lit "zz") 2 (replicate 5 Uninit)
    = Ok (lit "x" ++ [NUL] ++ lit "ls" ++ [NUL; NUL] ++ lit "-l" ++ [NUL] ++ lit "a"
          ++ NUL :: lit "zz", argv')
    ∧ argv' = [Ptr 2; Ptr 6; Ptr 9; Null; Uninit].
Proof.
  destruct (parse_in_bounds (lit "x" ++ [NUL]) (lit "ls  -l a") (lit "zz") (replicate 5 Uninit))
    as (argv' & Hp & _).
  - apply not_elem_of_lit. reflexivity.
  - vm_compute. lia.
  - exists argv'. split; [exact Hp|].
    vm_compute in Hp. by injection Hp as <-.
Defined.

(** Without room for the sentinel the loop of [parse] stores past the end
    of the vector. *)
Lemma parse_loop_overflow b line ts :
  runs_at b line ts →
  ∀ pre post argv i fuel,
    length pre = b → NUL ∉ line →
    (length argv ≤ i + length ts)%nat → (length ts < fuel)%nat →
    parse_loop fuel (pre ++ line ++ NUL :: post) b argv i = Undef.
Proof.
  induction 1 as [b k | b k w rest ts Hw Hsp Hrest Hruns IH];
    intros pre post argv i fuel Hb Hnul Hi Hf;
    (destruct fuel as [|fuel]; [simpl in Hf; lia|]); subst b.
  - cbn [parse_loop].
    assert (Hset : ptr_set argv i Null = Undef).
    { unfold ptr_set. rewrite decide_False; [done|]. simpl in Hi. lia. }
    destruct k as [|k].
    + cbn [replicate app]. rewrite load_app_r, bind_Ok. cbn [Ascii.eqb NUL zero Bool.eqb].
      by rewrite Hset.
    + assert (Hhd : load (pre ++ replicate (S k) SP ++ NUL :: post) (length pre) = Ok SP).
      { cbn [replicate app]. apply load_app_r. }
      rewrite Hhd, bind_Ok. cbn [Ascii.eqb NUL SP zero Bool.eqb].
      rewrite parse_blanks_run by (done || (rewrite !length_app, length_replicate; simpl; lia)).
      rewrite bind_Ok. cbn beta iota.
      replace (pre ++ replicate (S k) NUL ++ NUL :: post)
        with ((pre ++ replicate (S k) NUL) ++ NUL :: post)
        by (by rewrite <- (assoc_L (++))).
      replace (length pre + S k)%nat with (length (pre ++ replicate (S k) NUL))
        by (by rewrite length_app, length_replicate).
      rewrite load_app_r, bind_Ok. cbn [Ascii.eqb NUL zero Bool.eqb].
      by rewrite Hset.
  - destruct w as [|c w]; [done|].
    apply not_elem_of_app in Hnul as [_ Hnul].
    apply not_elem_of_app in Hnul as [Hnulw Hnulr].
    pose proof Hnulw as Hnulw'. pose proof Hsp as Hsp'.
    apply not_elem_of_cons in Hnulw as [Hc0 Hw0], Hsp as [Hc1 Hw1].
    assert (∃ d tl, rest ++ NUL :: post = d :: tl ∧ (d = SP ∨ d = NUL))
      as (d & tl & Htl & Hd).
    { destruct Hrest as [-> | [r ->]]; simpl; eauto. }
    set (m := pre ++ (replicate k SP ++ (c :: w) ++ rest) ++ NUL :: post).
    set (post' := w ++ rest ++ NUL :: post).
    assert (Hm : m = pre ++ replicate k SP ++ c :: post').
    { unfold m, post'. by rewrite <- !(assoc_L (++)). }
    assert (Hlen : (k + S (length w) < length m)%nat).
    { unfold m. rewrite !length_app, length_replicate. simpl. lia. }
    cbn [parse_loop].
    assert (∃ c', load m (length pre) = Ok c' ∧ c' ≠ NUL) as (c' & -> & Hc').
    { rewrite Hm. destruct k; simpl; rewrite load_app_r; eauto. }
    rewrite bind_Ok, eqb_NUL_false by done.
    rewrite Hm at 2. rewrite parse_blanks_run by (done || lia).
    rewrite bind_Ok. cbn beta iota.
    set (pre1 := pre ++ replicate k NUL).
    assert (Hpre1 : (length pre + k)%nat = length pre1).
    { unfold pre1. by rewrite length_app, length_replicate. }
    replace (pre ++ replicate k NUL ++ c :: post') with (pre1 ++ c :: post')
      by (unfold pre1; by rewrite <- (assoc_L (++))).
    rewrite Hpre1, load_app_r, bind_Ok, eqb_NUL_false by done.
    unfold ptr_set at 1. case_decide as Hroom; [|done].
    rewrite bind_Ok.
    replace (pre1 ++ c :: post') with (pre1 ++ (c :: w) ++ d :: tl)
      by (unfold post'; by rewrite <- Htl).
    rewrite parse_word_run by (done || simpl; lia).
    rewrite bind_Ok.
    replace (pre1 ++ (c :: w) ++ d :: tl) with ((pre1 ++ c :: w) ++ rest ++ NUL :: post)
      by (rewrite <- Htl; by rewrite <- !(assoc_L (++))).
    rewrite <- Hpre1.
    apply (IH (pre1 ++ c :: w) post); [| done | |].
    + unfold pre1. rewrite !length_app, length_replicate. simpl. lia.
    + rewrite length_insert. simpl in Hi. lia.
    + simpl in Hf. lia.
Qed.

Lemma tokens_length line : (length (tokens line) ≤ length line)%nat.
Proof.
  induction line as [|c l IH]; [done|].
  cbn [tokens]. destruct (c =? SP)%char; [simpl; lia|].
  destruct (head l), (tokens l) as [|w ws]; simpl in *; try lia.
  destruct (a =? SP)%char; simpl; lia.
Qed.

(** X3. [parse] has no bound on the number of pointers it stores: on a line
    with at least as many runs as the vector has elements it writes past the
    end of the vector, whatever the size of the vector. *)
Theorem parse_overflow (pre line post : list ascii) (argv : list ptr) :
  NUL ∉ line → (length argv ≤ length (tokens line))%nat →
  parse (pre ++ line ++ NUL :: post) (length pre) argv = Undef.
Proof.
  intros Hnul Hcap.
  destruct (runs_at_total line (length pre)) as [ts Hts].
  pose proof (runs_at_tokens _ _ _ Hts) as Htok.
  assert (Hlen : length ts = length (tokens line)).
  { by rewrite <- Htok, length_fmap. }
  unfold parse. apply (parse_loop_overflow _ _ _ Hts); try done.
  - lia.
  - rewrite !length_app. simpl. pose proof (tokens_length line). lia.
Qed.

Lemma parse_overflow_witness :
  parse (lit "calc 1 + 2 3" ++ [NUL]) 5 (replicate 4 Uninit) = Undef.
Proof.
  apply (parse_overflow (lit "calc ") (lit "1 + 2 3") [] (replicate 4 Uninit)).
  - apply not_elem_of_lit. reflexivity.
  - vm_compute. lia.
Defined.

(** ** [readline] (lines 73-89) *)






(** ** The prompt loop (lines 199-207) *)

(** X5. A command line that is empty, or whose first character is NUL, is
    skipped: the iteration prints the prompt, reads the line and ends, with
    the history and the argument vector as they were and no other call. *)
Theorem empty_line_skipped (s : shell) (w : world) :
  length (buf s) = Z.to_nat MAXLINE →
  command_line (w_stdin w) = [] →
  let line := line_of LINE_CAP (w_stdin w) in
  run (main_iteration s) w
  = (emits (EvPrintf prompt [] :: reads_of LINE_CAP (w_stdin w))
           (set_stdin (rest_of LINE_CAP (w_stdin w)) w),
     Returned (Shell (hist s) (line ++ NUL :: drop (S (length line)) (buf s)) (argv s))).
Proof.
  intros Hb Hcmd line. rewrite <- run_ret_r, run_main_iteration by done.
  unfold command_line in Hcmd. fold line in Hcmd. fold line.
  destruct line as [|c l]; [done|].
  cbn [upto_nul] in Hcmd. destruct (c =? NUL)%char; [done | discriminate].
Qed.

Lemma empty_line_skipped_witness :
  let r := run (main_iteration shell_init)
               (boot ([NL] ++ lit "ls" ++ [NL]) (λ _, true) 8) in
  w_log r.1 = [EvPrintf prompt []; EvRead (Some NL)]
  ∧ w_stdin r.1 = lit "ls" ++ [NL]
  ∧ w_kids r.1 = []
  ∧ hist <$> (match r.2 with Returned s => Some s | _ => None end) = Some history_init.
Proof.
  intros r. unfold r.
  rewrite (empty_line_skipped shell_init (boot ([NL] ++ lit "ls" ++ [NL]) (λ _, true) 8));
    [|reflexivity|reflexivity].
  repeat split.
Defined.

(** ** The builtins of [main] (lines 209-287) *)

Lemma retained_last es e :
  last (retained (es ++ [e])) = Some (Z.of_nat (length es) + 1, e).
Proof.
  unfold retained. rewrite last_lookup, length_drop, lookup_drop.
  unfold numbered at 1. rewrite length_imap, length_app. cbn [length].
  replace (length es + 1 - 10 + Init.Nat.pred (length es + 1 - (length es + 1 - 10)))%nat
    with (length es) by lia.
  apply numbered_lookup. rewrite lookup_app_r by lia. by rewrite Nat.sub_diag.
Qed.

(** X6. The line "historial" is recorded before it is carried out, so the
    listing it prints ends with the line itself under the newest number. *)
Theorem historial_lists_itself (s : shell) (es : list cstr) (post : list ascii) (w : world) :
  buf s = lit "historial" ++ NUL :: post →
  retains (hist s) es → Z.of_nat (length es) < INT_MAX →
  ∃ h,
    run (eval_line s) w
    = (emits ([EvPrintf (COLOR_CYAN +:+ "\nUltimos comandos:\n" +:+ COLOR_RESET) []]
              ++ (history_line <$> retained (es ++ [lit "historial"]))
              ++ [EvPrintf "\n" []]) w,
       Returned (Shell h (buf s) (argv s)))
    ∧ retains h (es ++ [lit "historial"])
    ∧ last (retained (es ++ [lit "historial"]))
      = Some (Z.of_nat (length es) + 1, lit "historial").
Proof.
  intros Hbuf Hret Hmax.
  assert (Hline : cstring_at (buf s) 0 = Ok (lit "historial")).
  { rewrite Hbuf. apply (cstring_at_app []). by apply not_elem_of_lit. }
  destruct (add_history_retains (hist s) es (lit "historial") Hret) as [Hadd Hret'];
    [differ|done|done|].
  eexists. split; [|split; [exact Hret'|apply retained_last]].
  rewrite <- run_ret_r. unfold eval_line.
  rewrite run_assoc, Hline, run_lift_Ok, run_assoc, Hadd, run_lift_Ok. cbn zeta.
  rewrite !decide_False by differ. rewrite decide_True by done.
  rewrite run_assoc, (run_show_history _ _ Hret').
  - reflexivity.
  - rewrite length_app. cbn [length]. lia.
Qed.

Lemma historial_lists_itself_witness :
  ∃ h,
    run (eval_line (Shell history_init (lit "historial" ++ replicate 91 NUL)
                          (replicate MAXARGS Uninit)))
        (boot [] (λ _, false) 1)
    = (emits [EvPrintf (COLOR_CYAN +:+ "\nUltimos comandos:\n" +:+ COLOR_RESET) [];
              history_line (1, lit "historial");
              EvPrintf "\n" []] (boot [] (λ _, false) 1),
       Returned (Shell h (lit "historial" ++ replicate 91 NUL) (replicate MAXARGS Uninit))).
Proof.
  destruct (historial_lists_itself
              (Shell history_init (lit "historial" ++ replicate 91 NUL)
                     (replicate MAXARGS Uninit))
              [] (replicate 90 NUL) (boot [] (λ _, false) 1)) as (h & Hrun & _).
  - reflexivity.
  - apply retains_init.
  - unfold INT_MAX. simpl. lia.
  - exists h. exact Hrun.
Defined.

(** ** Generic execution (lines 289-325) *)

Lemma aliased_without (c : ascii) (line : cstr) :
  c ∉ line → c ∉ lit "ls" → c ∉ lit "cat " → c ∉ aliased line.
Proof.
  intros H1 H2 H3 Hin. apply aliased_elem in Hin as [?|[?|?]]; done.
Qed.

(** X7. A line in the buffer that has no '|', is no builtin and, its alias
    rewritten, has fewer than [MAXARGS] tokens, is recorded in the history
    and split into its tokens. If the shell has no child outstanding and
    [fork] succeeds, the shell forks once; the child calls [exec] with the
    first token as the path and all the tokens as the vector, printing an
    error and exiting with 1 when that fails; and the shell calls [wait]
    with a null status pointer, which collects that child, and ends the
    iteration with its descriptors and the free entries of the process
    table as they were. *)
Theorem external_command (s : shell) (es : list cstr) (line post : list ascii) (w : world) :
  buf s = line ++ NUL :: post → NUL ∉ line → BAR ∉ line → line ≠ [] →
  length (buf s) = Z.to_nat MAXLINE → length (argv s) = MAXARGS →
  retains (hist s) es → Z.of_nat (length es) < INT_MAX →
  line ∉ [lit "salir"; lit "limpiar"; lit "historial"; lit "ayuda"; lit "tiempo"] →
  starts_with line (lit "calc ") = false →
  (length (tokens (aliased line)) < MAXARGS)%nat →
  w_live w = [] → (0 < w_slots w)%nat →
  let args := tokens (aliased line) in
  let pid := Z.pos (w_next w) in
  ∃ w' s',
    run (eval_line s) w = (w', Returned s')
    ∧ retains (hist s') (es ++ [line])
    ∧ read_argv (buf s') (argv s') = Ok args
    ∧ w_log w' = w_log w ++ [EvFork pid; EvWait 0 pid]
    ∧ w_kids w'
      = w_kids w ++ [Child pid
                       (EvExec (head args) args (exec_loads w args)
                        :: if exec_loads w args then []
                           else [EvPrintf (COLOR_RED +:+ "Error ejecutando comando\n"
                                           +:+ COLOR_RESET) []])
                       (w_fds w) (exec_or_exit w args)]
    ∧ w_fds w' = w_fds w ∧ w_live w' = [] ∧ w_slots w' = w_slots w.
Proof.
  intros Hbuf Hnul Hbar Hne Hb Ha Hret Hmax Hbuiltin Hcalc Hcap Hlive Hslots args pid.
  repeat (apply not_elem_of_cons in Hbuiltin as [? Hbuiltin]).
  assert (Hnul' : NUL ∉ aliased line).
  { apply aliased_without; [done| |]; by apply not_elem_of_lit. }
  assert (Hbar' : BAR ∉ aliased line).
  { apply aliased_without; [done| |]; by apply not_elem_of_lit. }
  assert (Hll : Z.of_nat (length line) < MAXLINE).
  { pose proof Hb as Hb'. change (Z.to_nat MAXLINE) with 100%nat in Hb'.
    rewrite Hbuf, length_app in Hb'. cbn [length] in Hb'. unfold MAXLINE. lia. }
  destruct (add_history_retains (hist s) es line Hret Hne Hll Hmax) as [_ Hret'].
  rewrite <- run_ret_r.
  rewrite (eval_line_generic s es line post) by done.
  set (s2 := Shell _ _ _).
  destruct (execute_single s2 (aliased line) (drop (S (length (aliased line))) (buf s)))
    as (a & Hexec & Hargs & Hnull); try done.
  { unfold s2. cbn [argv]. by rewrite Ha. }
  rewrite Hexec, run_assoc, (run_run_cmd _ a args) by done.
  rewrite ret_bind. cbn [run].
  eexists _, _. split; [reflexivity|].
  cbn [hist buf argv s2]. wsimpl.
  split; [exact Hret'|]. split; [exact Hargs|]. by repeat split.
Qed.

Lemma external_command_witness :
  ∃ w' s',
    run (eval_line (Shell history_init (lit "leer  a.txt" ++ replicate 89 NUL)
                          (replicate MAXARGS Uninit)))
        (boot [] (λ p, bool_decide (p = lit "cat")) 8)
    = (w', Returned s')
    ∧ history (hist s') !! 0%nat = Some (lit "leer  a.txt")
    ∧ w_kids w' = [Child 3 [EvExec (Some (lit "cat")) [lit "cat"; lit "a.txt"] true]
                         (replicate 3 (Some Console) ++ replicate 13 None)
                         (Replaced (lit "cat") [lit "cat"; lit "a.txt"])].
Proof.
  destruct (external_command
              (Shell history_init (lit "leer  a.txt" ++ replicate 89 NUL)
                     (replicate MAXARGS Uninit))
              [] (lit "leer  a.txt") (replicate 88 NUL)
              (boot [] (λ p, bool_decide (p = lit "cat")) 8))
    as (w' & s' & Hrun & Hret & _ & _ & Hkids & _).
  - reflexivity.
  - by apply not_elem_of_lit.
  - by apply not_elem_of_lit.
  - differ.
  - reflexivity.
  - reflexivity.
  - apply retains_init.
  - unfold INT_MAX. simpl. lia.
  - apply (bool_decide_unpack _). vm_compute. exact I.
  - reflexivity.
  - vm_compute. lia.
  - reflexivity.
  - vm_compute. lia.
  - exists w', s'. split; [exact Hrun|]. split; [|exact Hkids].
    destruct Hret as (_ & _ & Hrow & _). apply (Hrow 0%nat). cbn. lia.
Defined.

(** X8. The alias rewriting on a terminated line in the 100-character
    buffer never leaves the buffer: the line "listar" becomes "ls", a line
    "leer " followed by a text becomes "cat " followed by that text, and any
    other line, "listar " with a trailing space and "leer" alone among them,
    leaves the buffer as it is. *)
Theorem alias_rewrite (b : mem) (line post : list ascii) :
  b = line ++ NUL :: post → NUL ∉ line → length b = Z.to_nat MAXLINE →
  ∃ b',
    rewrite_aliases b = Ok b' ∧ length b' = length b
    ∧ (line = lit "listar" → cstring_at b' 0 = Ok (lit "ls"))
    ∧ (∀ x, line = lit "leer " ++ x → cstring_at b' 0 = Ok (lit "cat " ++ x))
    ∧ (line ≠ lit "listar" → starts_with line (lit "leer ") = false → b' = b).
Proof.
  intros Hb Hnul Hlen.
  assert (Hnul' : NUL ∉ aliased line).
  { apply aliased_without; [done| |]; by apply not_elem_of_lit. }
  assert (Hll : (length (aliased line) ≤ length line)%nat).
  { unfold aliased. case_decide as Hl; [by rewrite Hl; cbn; lia|].
    destruct (starts_with line (lit "leer ")) eqn:Hleer; [|done].
    apply starts_with_true in Hleer. rewrite Hleer at 2.
    rewrite !length_app. cbn. lia. }
  assert (Hlb : (length line < length b)%nat).
  { rewrite Hb, length_app. cbn. lia. }
  eexists. split; [by apply (rewrite_aliases_line b line post)|].
  split; [|split; [|split]].
  - rewrite length_app. cbn [length]. rewrite length_drop. lia.
  - intros Hl. rewrite cstring_at_0 by done. f_equal.
    unfold aliased. by rewrite decide_True.
  - intros x ->. rewrite cstring_at_0 by done. by f_equal.
  - intros Hl Hleer. unfold aliased. rewrite decide_False, Hleer by done.
    subst b. rewrite drop_app_ge by lia.
    by replace (S (length line) - length line)%nat with 1%nat by lia.
Qed.

Lemma alias_rewrite_witness :
  ∃ b', rewrite_aliases (lit "leer a b" ++ replicate 92 NUL) = Ok b'
      ∧ cstring_at b' 0 = Ok (lit "cat a b").
Proof.
  destruct (alias_rewrite (lit "leer a b" ++ replicate 92 NUL) (lit "leer a b")
              (replicate 91 NUL)) as (b' & Hb' & _ & _ & Hleer & _).
  - reflexivity.
  - by apply not_elem_of_lit.
  - reflexivity.
  - exists b'. split; [exact Hb'|]. by apply (Hleer (lit "a b")).
Defined.

(** ** The launchers (lines 117-159) *)

(** X9. When [fork] fails in [run_cmd], the shell takes the branch of the
    parent: it never looks at the argument vector, calls [wait], which fails
    as well without a child to wait for, prints nothing and returns. *)
Theorem run_cmd_fork_fails (m : mem) (a : list ptr) (w : world) :
  w_slots w = 0%nat → w_live w = [] →
  run (run_cmd m a) w = (emits [EvFork (-1); EvWait 0 (-1)] w, Returned tt).
Proof.
  intros Hslots Hlive. unfold run_cmd.
  rewrite run_fork, Hslots. rewrite decide_False by done.
  rewrite run_wait. unfold sys_wait. wsimpl. rewrite Hlive. wsimpl.
  cbn [run mbind prog_bind bind mret prog_ret]. unfold emit, emits. wsimpl.
  by rewrite <- (assoc_L (++)).
Qed.

Lemma run_cmd_fork_fails_witness :
  run (run_cmd [] []) (boot [] (λ _, true) 0)
  = (emits [EvFork (-1); EvWait 0 (-1)] (boot [] (λ _, true) 0), Returned tt).
Proof. apply run_cmd_fork_fails; reflexivity. Defined.

(** ** Programs whose calls stay within a class *)

Lemma within_bind {A B} (ok : ∀ X, call X → bool) (Q : A → Prop) (P : B → Prop) (p : prog A) (f : A → prog B) :
  within ok Q p → (∀ a, Q a → within ok P (f a)) → within ok P (p ≫= f).
Proof.
  intros Hp Hf. induction Hp as [a Ha| | | |X c k Hc Hk IH].
  - by apply Hf.
  - constructor.
  - constructor.
  - constructor.
  - change (within ok P (Sys c (λ x, k x ≫= f))). by constructor.
Qed.

Lemma within_weaken {A} (ok : ∀ X, call X → bool) (P Q : A → Prop) (p : prog A) :
  within ok P p → (∀ a, P a → Q a) → within ok Q p.
Proof.
  intros Hp HPQ. induction Hp; constructor; auto.
Qed.

Lemma within_lift {A} (ok : ∀ X, call X → bool) (P : A → Prop) (r : res A) :
  (∀ a, r = Ok a → P a) → within ok P (lift r).
Proof. destruct r; intros H; constructor. by apply H. Qed.

Lemma within_sys {X} (ok : ∀ X, call X → bool) (P : X → Prop) (c : call X) :
  ok X c → (∀ x, P x) → within ok P (sys c).
Proof. intros Hc HP. constructor; [done|]. intros x. by constructor. Qed.

Lemma within_printf (ok : ∀ X, call X → bool) fmt args :
  ok unit (Printf fmt args) → within ok (λ _, True) (printf fmt args).
Proof. intros H. by apply within_sys. Qed.

(** What a program returns satisfies the condition of its leaves. *)
Lemma within_returned {A} (ok : ∀ X, call X → bool) (P : A → Prop) (p : prog A) :
  within ok P p → ∀ w w' a, run p w = (w', Returned a) → P a.
Proof.
  induction 1 as [a Ha| | | |X c k Hc Hk IH]; intros w w' a' Hrun;
    try (cbn in Hrun; congruence).
  destruct c; cbn in Hrun.
  - destruct (w_stdin w); eauto.
  - eauto.
  - destruct (w_slots w); [eauto|].
    destruct (run (k 0) (child_world w)). eauto.
  - destruct (sys_pipe w). eauto.
  - destruct (sys_close fd w). eauto.
  - destruct (sys_dup fd w). eauto.
  - destruct path as [f|]; [destruct (w_programs w f); [congruence|]|]; eauto.
  - destruct (sys_wait w). eauto.
  - eauto.
Qed.

Lemma reads_snoc log e : (∀ r, e ≠ EvRead r) → reads (log ++ [e]) = reads log.
Proof.
  intros He. unfold reads. rewrite omap_app.
  destruct e; cbn; try by rewrite app_nil_r. by destruct (He answer).
Qed.

(** A program that never reads adds no [read] to the log of its process. *)
Lemma within_no_read {A} (P : A → Prop) (p : prog A) :
  within (@no_read) P p → ∀ w, reads (w_log (run p w).1) = reads (w_log w).
Proof.
  induction 1 as [a Ha| | | |X c k Hc Hk IH]; intros w; try done.
  destruct c; cbn [run]; try done.
  - rewrite IH. by apply reads_snoc.
  - destruct (w_slots w); [rewrite IH; by apply reads_snoc|].
    destruct (run (k 0) (child_world w)). rewrite IH. by apply reads_snoc.
  - unfold sys_pipe. destruct (fd_alloc (w_fds w)) as [r|];
      [|rewrite IH; by apply reads_snoc].
    destruct (fd_alloc _) as [wr|]; rewrite IH; by apply reads_snoc.
  - unfold sys_close. destruct (fd_file _ _); rewrite IH; by apply reads_snoc.
  - unfold sys_dup. destruct (fd_file _ _); [destruct (fd_alloc _)|];
      rewrite IH; by apply reads_snoc.
  - destruct path as [f|]; [destruct (w_programs w f); [by apply reads_snoc|]|];
      rewrite IH; by apply reads_snoc.
  - unfold sys_wait. destruct (w_live w); rewrite IH; by apply reads_snoc.
  - rewrite IH. by apply reads_snoc.
Qed.

(** A program that only prints and asks the time changes nothing of the
    machine but the log of the process. *)
Lemma within_console {A} (P : A → Prop) (p : prog A) :
  within (@console_call) P p →
  ∀ w, ∃ out, (run p w).1 = emits out w ∧ Forall is_output out.
Proof.
  induction 1 as [a Ha| | | |X c k Hc Hk IH]; intros w;
    try (exists []; split; [by rewrite emits_nil | constructor]).
  destruct c; try done; cbn [run].
  - destruct (IH tt (emit (EvPrintf fmt args) w)) as (out & -> & Hout).
    exists (EvPrintf fmt args :: out). split; [by rewrite emits_cons|].
    by constructor.
  - destruct (IH (w_ticks w) (emit (EvUptime (w_ticks w)) w)) as (out & -> & Hout).
    exists (EvUptime (w_ticks w) :: out). split; [by rewrite emits_cons|].
    by constructor.
Qed.

Lemma within_mono {A} (ok ok' : ∀ X, call X → bool) (P : A → Prop) (p : prog A) :
  (∀ X (c : call X), ok X c → ok' X c) → within ok P p → within ok' P p.
Proof. intros Hok Hp. induction Hp; constructor; auto. Qed.

Lemma console_no_read {X} (c : call X) : console_call c → no_read c.
Proof. by destruct c. Qed.

(** One step through a sequence whose first part returns nothing of use. *)
Ltac within_seq :=
  apply (within_bind _ (λ _, True)); [|intros ? _].

Lemma console_show_history_loop fuel : ∀ h i,
  within (@console_call) (λ _, True) (show_history_loop fuel h i).
Proof.
  induction fuel as [|fuel IH]; intros h i; cbn [show_history_loop];
    case_decide; try by constructor.
  within_seq; [by apply within_lift|].
  within_seq; [by apply within_printf|]. apply IH.
Qed.

Lemma console_show_history h : within (@console_call) (λ _, True) (show_history h).
Proof.
  unfold show_history.
  within_seq; [by apply within_printf|].
  within_seq; [apply console_show_history_loop|]. by apply within_printf.
Qed.

Lemma console_clear_screen : within (@console_call) (λ _, True) clear_screen.
Proof. by apply within_printf. Qed.

Lemma console_ayuda : within (@console_call) (λ _, True) ayuda.
Proof.
  unfold ayuda. repeat (within_seq; [by apply within_printf|]). by apply within_printf.
Qed.

Lemma console_print_two_digits n : within (@console_call) (λ _, True) (print_two_digits n).
Proof. unfold print_two_digits. case_decide; by apply within_printf. Qed.

Lemma console_tiempo : within (@console_call) (λ _, True) tiempo.
Proof.
  unfold tiempo. within_seq; [by apply within_sys|]. cbn zeta.
  repeat (within_seq; [by apply within_printf || apply console_print_two_digits|]).
  by apply within_printf.
Qed.

(** [parse] changes no length. *)
Lemma parse_blanks_length fuel : ∀ m b m' b',
  parse_blanks fuel m b = Ok (m', b') → length m' = length m.
Proof.
  induction fuel as [|fuel IH]; intros m b m' b' H; cbn [parse_blanks] in H; [done|].
  destruct (load m b) as [c| |]; [|done..]. rewrite bind_Ok in H.
  destruct (c =? SP)%char.
  - unfold store in H. case_decide; [|done]. rewrite bind_Ok in H.
    apply IH in H. by rewrite length_insert in H.
  - by injection H as <- _.
Qed.

Lemma ptr_set_length a i v a' : ptr_set a i v = Ok a' → length a' = length a.
Proof.
  unfold ptr_set. case_decide; [|done]. intros [= <-]. by rewrite length_insert.
Qed.

Lemma parse_loop_length fuel : ∀ m b a i m' a',
  parse_loop fuel m b a i = Ok (m', a') → length m' = length m ∧ length a' = length a.
Proof.
  induction fuel as [|fuel IH]; intros m b a i m' a' H; cbn [parse_loop] in H; [done|].
  destruct (load m b) as [c| |]; [|done..]. rewrite bind_Ok in H.
  destruct (c =? NUL)%char.
  { destruct (ptr_set a i Null) as [a1| |] eqn:Hset; [|done..]. rewrite bind_Ok in H.
    injection H as <- <-. split; [done|]. by eapply ptr_set_length. }
  destruct (parse_blanks _ m b) as [[m1 b1]| |] eqn:Hbl; [|done..]. rewrite bind_Ok in H.
  apply parse_blanks_length in Hbl.
  destruct (load m1 b1) as [c1| |]; [|done..]. rewrite bind_Ok in H.
  destruct (c1 =? NUL)%char.
  { destruct (ptr_set a i Null) as [a1| |] eqn:Hset; [|done..]. rewrite bind_Ok in H.
    injection H as <- <-. split; [done|]. by eapply ptr_set_length. }
  destruct (ptr_set a i (Ptr b1)) as [a1| |] eqn:Hset; [|done..]. rewrite bind_Ok in H.
  destruct (parse_word _ m1 b1) as [b2| |]; [|done..]. rewrite bind_Ok in H.
  apply IH in H as [-> ->]. split; [done|]. by eapply ptr_set_length.
Qed.

Lemma parse_length m b a m' a' :
  parse m b a = Ok (m', a') → length m' = length m ∧ length a' = length a.
Proof. apply parse_loop_length. Qed.

Lemma console_calc b : within (@console_call) (λ b', length b' = length b) (calc b).
Proof.
  unfold calc.
  apply (within_bind _ (λ ma, length ma.1 = length b)).
  { apply within_lift. intros [m a] H. by apply parse_length in H as [H _]. }
  intros [m a] Hm. cbn [fst] in Hm.
  assert (Husage : within (@console_call) (λ b', length b' = length b) (usage;; Ret m)).
  { within_seq; [by apply within_printf|]. by constructor. }
  apply (within_bind _ (λ _, True)); [by apply within_lift|]. intros [| |p0] _; try done.
  apply (within_bind _ (λ _, True)); [by apply within_lift|]. intros [| |p1] _; try done.
  apply (within_bind _ (λ _, True)); [by apply within_lift|]. intros [| |p2] _; try done.
  within_seq; [by apply within_lift|].
  within_seq; [by apply within_lift|].
  within_seq; [by apply within_lift|].
  within_seq; [by apply within_printf|].
  within_seq; [|by constructor].
  repeat match goal with
         | |- within _ _ (if ?c then _ else _) => destruct c
         end; try by apply within_printf.
  apply (within_bind _ (λ _, True)); [by apply within_lift|].
  intros q _. by apply within_printf.
Qed.

Lemma console_builtins (s : shell) (line : cstr) :
  cstring_at (buf s) 0 = Ok line →
  line ∈ [lit "limpiar"; lit "historial"; lit "ayuda"; lit "tiempo"]
    ∨ starts_with line (lit "calc ") = true →
  line ≠ lit "salir" ∧ within (@console_call) (λ _, True) (eval_line s).
Proof.
  intros Hline Hcase.
  assert (Hend : ∀ (p : prog unit) (s' : shell),
            within (@console_call) (λ _, True) p →
            within (@console_call) (λ _ : shell, True) (p;; Ret s')).
  { intros p s' Hp. within_seq; [done | by constructor]. }
  unfold eval_line. rewrite Hline, lift_Ok_bind.
  destruct (add_history line (hist s)) as [h| |];
    [rewrite lift_Ok_bind; cbn zeta | destruct Hcase as [Hin | Hcalc]..].
  - destruct Hcase as [Hin | Hcalc].
    + repeat (apply elem_of_cons in Hin as [-> | Hin]); [..|by apply elem_of_nil in Hin];
        (split; [differ|]); rewrite !decide_False by differ.
      * rewrite decide_True by done. apply Hend, console_clear_screen.
      * rewrite decide_True by done. apply Hend, console_show_history.
      * rewrite decide_True by done. apply Hend, console_ayuda.
      * change (starts_with (lit "tiempo") (lit "calc ")) with false. cbn iota.
        rewrite decide_True by done. apply Hend, console_tiempo.
    + pose proof (starts_with_true _ _ Hcalc) as Hl.
      split; [rewrite Hl; differ|].
      rewrite !decide_False by (rewrite Hl; differ). rewrite Hcalc.
      apply (within_bind _ (λ _, True)); [|intros ? _; by constructor].
      eapply within_weaken; [apply console_calc | done].
  - split; [|constructor].
    repeat (apply elem_of_cons in Hin as [-> | Hin]); [..|by apply elem_of_nil in Hin]; differ.
  - split; [|constructor]. rewrite (starts_with_true _ _ Hcalc). differ.
  - split; [|constructor].
    repeat (apply elem_of_cons in Hin as [-> | Hin]); [..|by apply elem_of_nil in Hin]; differ.
  - split; [|constructor]. rewrite (starts_with_true _ _ Hcalc). differ.
Qed.

(** X10. The builtins "limpiar", "historial", "ayuda", "tiempo" and every
    line that starts with "calc " are carried out in the shell process
    itself : whatever the state of the shell and of the machine, the
    iteration makes no call but [printf] and [uptime] (no [fork], no
    [read], no descriptor is touched) and does not end the process with
    [exit]. *)
Theorem builtins_print_only (s : shell) (line : cstr) (w : world) :
  cstring_at (buf s) 0 = Ok line →
  line ∈ [lit "limpiar"; lit "historial"; lit "ayuda"; lit "tiempo"]
    ∨ starts_with line (lit "calc ") = true →
  ∃ out,
    (run (eval_line s) w).1 = emits out w ∧ Forall is_output out
    ∧ ∀ st, (run (eval_line s) w).2 ≠ Exited st.
Proof.
  intros Hline Hcase.
  destruct (console_builtins s line Hline Hcase) as [Hsalir Hwithin].
  destruct (within_console _ _ Hwithin w) as (out & Hw & Hout).
  exists out. split; [done|]. split; [done|].
  apply quiet_run, quiet_eval_line. rewrite Hline. congruence.
Qed.

Lemma builtins_print_only_witness :
  ∃ out,
    (run (eval_line (Shell history_init (lit "tiempo" ++ replicate 94 NUL)
                           (replicate MAXARGS Uninit)))
         (boot [] (λ _, true) 8)).1
    = emits out (boot [] (λ _, true) 8)
    ∧ length out = 8%nat ∧ Forall is_output out.
Proof.
  destruct (builtins_print_only
              (Shell history_init (lit "tiempo" ++ replicate 94 NUL)
                     (replicate MAXARGS Uninit))
              (lit "tiempo") (boot [] (λ _, true) 8)) as (out & Hout & Hall & _).
  - reflexivity.
  - left. apply (bool_decide_unpack _). vm_compute. exact I.
  - exists out. split; [exact Hout|]. split; [|exact Hall].
    apply (f_equal w_log) in Hout. vm_compute in Hout.
    apply (f_equal length) in Hout. exact (eq_sym Hout).
Defined.

(** ** The simulated clock (lines 263-286) *)

Lemma run_uptime {B} (f : Z → prog B) w :
  run (sys Uptime ≫= f) w = run (f (w_ticks w)) (emit (EvUptime (w_ticks w)) w).
Proof. done. Qed.

Lemma run_print_two_digits {B} n (f : unit → prog B) w :
  run (print_two_digits n ≫= f) w = run (f tt) (emits [two_digits n] w).
Proof.
  unfold print_two_digits, two_digits. case_decide; by rewrite run_printf.
Qed.

Lemma run_printf_end fmt args w :
  run (printf fmt args) w = (emits [EvPrintf fmt args] w, Returned tt).
Proof. done. Qed.

(** The calls of [tiempo] for the fields it passes to [print_two_digits]. *)
Lemma run_tiempo w :
  let total := int_add (int_add START_TIME (int_div (w_ticks w) TICKS_PER_SECOND))
                       TIMEZONE_OFFSET in
  let horas := int_rem (int_div total 3600) 24 in
  run tiempo w
  = (emits (EvUptime (w_ticks w)
            :: clock_output (if decide (horas < 0) then int_add horas 24 else horas)
                            (int_rem (int_div total 60) 60) (int_rem total 60)) w,
     Returned tt).
Proof.
  intros total horas. unfold tiempo. rewrite run_uptime. cbn zeta.
  fold total. fold horas.
  rewrite run_printf, run_print_two_digits, run_printf, run_print_two_digits,
    run_printf, run_print_two_digits.
  clearbody total horas.
  rewrite run_printf_end, emit_emits, <- !emits_app. reflexivity.
Qed.

(** X11. Once the uptime has reached the five hours of the time-zone offset,
    [tiempo] prints the time of day of [uptime / 100 - 18000] seconds: hours
    in 0..23, minutes and seconds in 0..59, each through
    [print_two_digits]. *)
Theorem tiempo_clock (w : world) :
  let t := w_ticks w / 100 - 18000 in
  0 ≤ t → w_ticks w ≤ INT_MAX →
  run tiempo w
  = (emits (EvUptime (w_ticks w)
            :: clock_output ((t / 3600) mod 24) ((t / 60) mod 60) (t mod 60)) w,
     Returned tt).
Proof.
  intros t Ht Hmax. rewrite run_tiempo.
  unfold INT_MAX in Hmax.
  assert (H0 : 0 ≤ w_ticks w) by (unfold t in Ht; Z.div_mod_to_equations; lia).
  assert (Hq : Z.quot (w_ticks w) 100 = w_ticks w / 100) by (apply Z.quot_div_nonneg; lia).
  assert (Hb : 0 ≤ w_ticks w / 100 ≤ 21474836).
  { split; [apply Z.div_pos; lia|].
    pose proof (Z.div_lt_upper_bound (w_ticks w) 100 21474837). lia. }
  assert (Htot : int_add (int_add START_TIME (int_div (w_ticks w) TICKS_PER_SECOND))
                         TIMEZONE_OFFSET = t).
  { unfold int_add, int_div, START_TIME, TICKS_PER_SECOND, TIMEZONE_OFFSET.
    rewrite Hq, (wrap_small (w_ticks w / 100)) by (unfold INT_MIN, INT_MAX; lia).
    rewrite (wrap_small (0 + _)) by (unfold INT_MIN, INT_MAX; lia).
    rewrite wrap_small by (unfold INT_MIN, INT_MAX; lia).
    unfold t. lia. }
  rewrite Htot.
  assert (Ht' : t ≤ 21474836) by (unfold t; lia).
  assert (H3600 : int_div t 3600 = t / 3600).
  { unfold int_div. rewrite Z.quot_div_nonneg by lia.
    apply wrap_small. unfold INT_MIN, INT_MAX.
    split; [transitivity 0; [lia | apply Z.div_pos; lia]|].
    apply Z.div_le_upper_bound; lia. }
  assert (H60 : int_div t 60 = t / 60).
  { unfold int_div. rewrite Z.quot_div_nonneg by lia.
    apply wrap_small. unfold INT_MIN, INT_MAX.
    split; [transitivity 0; [lia | apply Z.div_pos; lia]|].
    apply Z.div_le_upper_bound; lia. }
  assert (Hrem : ∀ a b, 0 ≤ a → 0 < b < 100 → int_rem a b = a mod b).
  { intros a b Ha Hb'. unfold int_rem. rewrite Z.rem_mod_nonneg by lia.
    apply wrap_small. unfold INT_MIN, INT_MAX.
    pose proof (Z.mod_pos_bound a b). lia. }
  rewrite H3600, H60, !Hrem by (lia || apply Z.div_pos; lia).
  rewrite decide_False; [done|].
  pose proof (Z.mod_pos_bound (t / 3600) 24). lia.
Qed.

Lemma tiempo_clock_witness :
  printed (w_log (run tiempo (World [] 4530000 (λ _, false) (λ _, 0) [] 0 0 1 [] [] [])).1)
  = [(COLOR_YELLOW +:+ "Hora actual: " +:+ COLOR_RESET, []);
     ("0%d"%string, [PInt 7]); (":"%string, []);
     ("%d"%string, [PInt 35]); (":"%string, []);
     ("0%d"%string, [PInt 0]); ("\n"%string, [])].
Proof.
  rewrite (tiempo_clock (World [] 4530000 (λ _, false) (λ _, 0) [] 0 0 1 [] [] []));
    [reflexivity | vm_compute; discriminate | vm_compute; discriminate].
Defined.

(** X12. Before that, during the first five hours of uptime, the total is
    negative and C's division and remainder round towards zero: with [u]
    the seconds still missing, the hour printed is [24 - u / 3600] (0 in
    the last hour), and the minutes and seconds handed to
    [print_two_digits] are the negated [(u / 60) mod 60] and [u mod 60],
    not a time of day unless both are 0. *)
Theorem tiempo_before_offset (w : world) :
  let u := 18000 - w_ticks w / 100 in
  0 ≤ w_ticks w → 0 < u →
  run tiempo w
  = (emits (EvUptime (w_ticks w)
            :: clock_output (if decide (3600 ≤ u) then 24 - u / 3600 else 0)
                            (- ((u / 60) mod 60)) (- (u mod 60))) w,
     Returned tt).
Proof.
  intros u H0 Hu. rewrite run_tiempo.
  assert (Hq : Z.quot (w_ticks w) 100 = w_ticks w / 100) by (apply Z.quot_div_nonneg; lia).
  assert (Hb : 0 ≤ w_ticks w / 100 < 18000) by (unfold u in Hu; Z.div_mod_to_equations; lia).
  assert (Hu' : u ≤ 18000) by (unfold u; lia).
  assert (Htot : int_add (int_add START_TIME (int_div (w_ticks w) TICKS_PER_SECOND))
                         TIMEZONE_OFFSET = - u).
  { unfold int_add, int_div, START_TIME, TICKS_PER_SECOND, TIMEZONE_OFFSET.
    rewrite Hq, (wrap_small (w_ticks w / 100)) by (unfold INT_MIN, INT_MAX; lia).
    rewrite (wrap_small (0 + _)) by (unfold INT_MIN, INT_MAX; lia).
    rewrite wrap_small by (unfold INT_MIN, INT_MAX; lia).
    unfold u. lia. }
  rewrite Htot. clearbody u. clear Htot Hq Hb H0.
  assert (Hq3600 : Z.quot (- u) 3600 = - (u / 3600))
    by (Z.quot_rem_to_equations; Z.div_mod_to_equations; lia).
  assert (Hq60 : Z.quot (- u) 60 = - (u / 60))
    by (Z.quot_rem_to_equations; Z.div_mod_to_equations; lia).
  assert (Hh : 0 ≤ u / 3600 ≤ 5) by (Z.div_mod_to_equations; lia).
  assert (Hm : 0 ≤ u / 60 ≤ 300) by (Z.div_mod_to_equations; lia).
  assert (Hr24 : Z.rem (- (u / 3600)) 24 = - (u / 3600)).
  { generalize dependent (u / 3600). intros h _ Hh.
    Z.quot_rem_to_equations. lia. }
  assert (Hr60 : Z.rem (- (u / 60)) 60 = - ((u / 60) mod 60)).
  { generalize dependent (u / 60). intros m _ Hm.
    Z.quot_rem_to_equations. Z.div_mod_to_equations. lia. }
  assert (Hs60 : Z.rem (- u) 60 = - (u mod 60))
    by (Z.quot_rem_to_equations; Z.div_mod_to_equations; lia).
  assert (Hmm : 0 ≤ (u / 60) mod 60 < 60) by (apply Z.mod_pos_bound; lia).
  assert (Hss : 0 ≤ u mod 60 < 60) by (apply Z.mod_pos_bound; lia).
  unfold int_rem, int_div. rewrite Hq3600, Hq60.
  rewrite (wrap_small (- (u / 3600))), (wrap_small (- (u / 60)))
    by (unfold INT_MIN, INT_MAX; lia).
  rewrite Hr24, Hr60, Hs60.
  rewrite !wrap_small by (unfold INT_MIN, INT_MAX; lia).
  do 3 f_equal.
  destruct (decide (3600 ≤ u)) as [Hge | Hlt].
  - rewrite decide_True by (Z.div_mod_to_equations; lia).
    unfold int_add. rewrite wrap_small by (unfold INT_MIN, INT_MAX; lia). f_equal. lia.
  - rewrite decide_False by (Z.div_mod_to_equations; lia).
    f_equal. Z.div_mod_to_equations. lia.
Qed.

Lemma tiempo_before_offset_witness :
  printed (w_log (run tiempo (World [] 100 (λ _, false) (λ _, 0) [] 0 0 1 [] [] [])).1)
  = [(COLOR_YELLOW +:+ "Hora actual: " +:+ COLOR_RESET, []);
     ("%d"%string, [PInt 20]); (":"%string, []);
     ("0%d"%string, [PInt (-59)]); (":"%string, []);
     ("0%d"%string, [PInt (-59)]); ("\n"%string, [])].
Proof.
  rewrite (tiempo_before_offset (World [] 100 (λ _, false) (λ _, 0) [] 0 0 1 [] [] []));
    [reflexivity | vm_compute; discriminate | vm_compute; reflexivity].
Defined.

(** ** What an iteration keeps (lines 199-325) *)

Ltac within_auto :=
  repeat first
    [ by constructor
    | by apply within_lift
    | by apply within_printf
    | by apply within_sys
    | case_decide
    | within_seq ].

Lemma no_read_exec m a : within (@no_read) (λ _, True) (exec m a).
Proof. unfold exec. within_auto. Qed.

Lemma no_read_run_cmd m a : within (@no_read) (λ _, True) (run_cmd m a).
Proof.
  unfold run_cmd. within_seq; [by apply within_sys|]. case_decide.
  - within_seq; [apply no_read_exec|]. within_auto.
  - within_auto.
Qed.

Lemma no_read_pipe_child_a p m l : within (@no_read) (λ _, True) (pipe_child_a p m l).
Proof.
  unfold pipe_child_a. do 7 (within_seq; [within_auto|]).
  within_seq; [apply no_read_exec|]. within_auto.
Qed.

Lemma no_read_pipe_child_b p m r : within (@no_read) (λ _, True) (pipe_child_b p m r).
Proof.
  unfold pipe_child_b. do 7 (within_seq; [within_auto|]).
  within_seq; [apply no_read_exec|]. within_auto.
Qed.

Lemma no_read_run_pipe m l r : within (@no_read) (λ _, True) (run_pipe m l r).
Proof.
  unfold run_pipe. within_seq; [by apply within_sys|].
  within_seq; [by apply within_sys|].
  within_seq; [case_decide; [apply no_read_pipe_child_a | by constructor]|].
  within_seq; [by apply within_sys|].
  within_seq; [case_decide; [apply no_read_pipe_child_b | by constructor]|].
  within_auto.
Qed.

Lemma strcpy_length m p s m' : strcpy m p s = Ok m' → length m' = length m.
Proof.
  unfold strcpy. case_decide; [|done]. intros [= <-].
  rewrite !length_app. cbn [length]. rewrite length_take, length_drop. lia.
Qed.

Lemma store_length m p c m' : store m p c = Ok m' → length m' = length m.
Proof. unfold store. case_decide; [|done]. intros [= <-]. by rewrite length_insert. Qed.

Lemma rewrite_aliases_length b b' : rewrite_aliases b = Ok b' → length b' = length b.
Proof.
  unfold rewrite_aliases.
  destruct (cstring_at b 0) as [line| |]; [|done..]. rewrite bind_Ok.
  destruct (if decide (line = lit "listar") then strcpy b 0 (lit "ls") else Ok b)
    as [b1| |] eqn:H1; [|done..].
  assert (Hb1 : length b1 = length b).
  { case_decide; [by apply strcpy_length in H1 | by injection H1 as <-]. }
  rewrite bind_Ok.
  destruct (cstring_at b1 0) as [line1| |]; [|done..]. rewrite bind_Ok.
  destruct (starts_with line1 (lit "leer ")); [|by intros [= <-]].
  destruct (strcpy _ 0 (lit "cat ")) as [t1| |]; [|done..]. rewrite bind_Ok.
  destruct (cstring_at b1 5) as [rest| |]; [|done..]. rewrite bind_Ok.
  destruct (strcpy t1 4 rest) as [t2| |]; [|done..]. rewrite bind_Ok.
  destruct (cstring_at t2 0) as [copy| |]; [|done..]. rewrite bind_Ok.
  intros H. apply strcpy_length in H. congruence.
Qed.

(** What generic execution returns: the history it was given and arrays of
    the same sizes. *)
Lemma no_read_execute s :
  within (@no_read)
    (λ s', hist s' = hist s ∧ length (buf s') = length (buf s)
           ∧ length (argv s') = length (argv s))
    (execute s).
Proof.
  unfold execute.
  apply (within_bind _ (λ _, True)); [by apply within_lift|]. intros [pos|] _.
  - apply (within_bind _ (λ b, length b = length (buf s))).
    { apply within_lift. intros b H. by apply store_length in H. }
    intros b Hb. within_seq; [by apply within_lift|].
    apply (within_bind _ (λ ma, length ma.1 = length (buf s))).
    { apply within_lift. intros [m1 a1] H. apply parse_length in H as [H _]. cbn. congruence. }
    intros [m1 a1] Hm1. cbn [fst] in Hm1.
    apply (within_bind _ (λ ma, length ma.1 = length (buf s))).
    { apply within_lift. intros [m2 a2] H. apply parse_length in H as [H _]. cbn. congruence. }
    intros [m2 a2] Hm2. cbn [fst] in Hm2.
    within_seq; [apply no_read_run_pipe|]. by constructor.
  - apply (within_bind _ (λ ma, length ma.1 = length (buf s)
                                 ∧ length ma.2 = length (argv s))).
    { apply within_lift. intros [m1 a1] H. by apply parse_length in H. }
    intros [m1 a1] [Hm Ha]. cbn [fst snd] in Hm, Ha.
    within_seq; [apply no_read_run_cmd|]. by constructor.
Qed.

(** What an iteration returns once the line was recorded as [h]. *)
Lemma no_read_eval_line s line h :
  cstring_at (buf s) 0 = Ok line → add_history line (hist s) = Ok h →
  within (@no_read)
    (λ s', hist s' = h ∧ length (buf s') = length (buf s)
           ∧ length (argv s') = length (argv s))
    (eval_line s).
Proof.
  intros Hline Hadd. unfold eval_line.
  rewrite Hline, lift_Ok_bind, Hadd, lift_Ok_bind. cbn zeta.
  assert (Hend : ∀ p : prog unit,
            within (@console_call) (λ _, True) p →
            within (@no_read)
              (λ s', hist s' = h ∧ length (buf s') = length (buf s)
                     ∧ length (argv s') = length (argv s))
              (p;; Ret (Shell h (buf s) (argv s)))).
  { intros p Hp. within_seq; [|by constructor].
    eapply within_mono; [|exact Hp]. intros X c. apply console_no_read. }
  case_decide; [within_auto|].
  case_decide; [apply Hend, console_clear_screen|].
  case_decide; [apply Hend, console_show_history|].
  case_decide; [apply Hend, console_ayuda|].
  destruct (starts_with line (lit "calc ")).
  { apply (within_bind _ (λ b, length b = length (buf s))).
    - eapply within_mono; [|apply console_calc]. intros X c. apply console_no_read.
    - intros b Hb. by constructor. }
  case_decide; [apply Hend, console_tiempo|].
  apply (within_bind _ (λ b, length b = length (buf s))).
  { apply within_lift. intros b Hrw. by apply rewrite_aliases_length in Hrw. }
  intros b Hb. eapply within_weaken; [apply no_read_execute|].
  cbn [hist buf argv]. intros s' (-> & -> & ->). done.
Qed.

Lemma upto_nul_length l : (length (upto_nul l) ≤ length l)%nat.
Proof.
  induction l as [|c l IH]; [done|]. cbn [upto_nul].
  destruct (c =? NUL)%char; cbn; lia.
Qed.

(** An iteration that reaches its end has recorded the command line it
    read, unless that line is empty, has kept the sizes of [buf] and
    [argv], and the shell has read nothing after [readline]. *)
Lemma iteration_keeps (s s' : shell) (es : list cstr) (w w' : world) :
  length (buf s) = Z.to_nat MAXLINE →
  retains (hist s) es → Z.of_nat (length es) < INT_MAX →
  run (main_iteration s) w = (w', Returned s') →
  retains (hist s') (es ++ entries [command_line (w_stdin w)])
  ∧ length (buf s') = Z.to_nat MAXLINE
  ∧ length (argv s') = length (argv s)
  ∧ reads (w_log w') = reads (w_log w) ++ reads (reads_of LINE_CAP (w_stdin w)).
Proof.
  intros Hb Hret Hmax Hrun.
  rewrite <- run_ret_r, run_main_iteration in Hrun by done.
  unfold command_line.
  pose proof (length_line_of LINE_CAP (w_stdin w)) as Hll.
  set (line := line_of LINE_CAP (w_stdin w)) in *.
  set (s1 := Shell (hist s) (line ++ NUL :: drop (S (length line)) (buf s)) (argv s)) in *.
  set (w1 := emits _ _) in Hrun.
  assert (Hcap : LINE_CAP = 99%nat) by done.
  assert (Hmaxl : Z.to_nat MAXLINE = 100%nat) by done.
  assert (Hb1 : length (buf s1) = Z.to_nat MAXLINE).
  { unfold s1. cbn [buf]. rewrite length_app. cbn [length]. rewrite length_drop. lia. }
  assert (Hw1 : reads (w_log w1)
                = reads (w_log w) ++ reads (reads_of LINE_CAP (w_stdin w))).
  { unfold w1, emits, set_stdin. cbn [w_log]. unfold reads. by rewrite omap_app. }
  assert (Hskip : run (Ret s1) w1 = (w', Returned s') → upto_nul line = [] →
            retains (hist s') (es ++ entries [upto_nul line])
            ∧ length (buf s') = Z.to_nat MAXLINE
            ∧ length (argv s') = length (argv s)
            ∧ reads (w_log w')
              = reads (w_log w) ++ reads (reads_of LINE_CAP (w_stdin w))).
  { intros [= <- <-] ->. unfold entries.
    rewrite filter_cons_False by (intros H; by apply H).
    by rewrite filter_nil, app_nil_r. }
  destruct line as [|c l] eqn:Hline; [by apply Hskip|].
  destruct (c =? NUL)%char eqn:Hc.
  { apply Hskip; [done|]. cbn [upto_nul]. by rewrite Hc. }
  clear Hskip. rewrite run_ret_r in Hrun. rewrite <- Hline in *.
  set (cl := upto_nul line).
  assert (Hcl : cl ≠ []).
  { unfold cl. rewrite Hline. cbn [upto_nul]. by rewrite Hc. }
  assert (Hstr : cstring_at (buf s1) 0 = Ok cl).
  { unfold cstring_at. rewrite decide_True by lia. unfold s1, cl. cbn [buf].
    rewrite drop_0, Hline. apply (cstring_upto_nul (c :: l)). }
  pose proof (upto_nul_length line) as Hul. fold cl in Hul.
  destruct (add_history_retains (hist s) es cl Hret Hcl) as [Hadd Hret'];
    [unfold MAXLINE; lia | done |].
  pose proof (no_read_eval_line s1 cl _ Hstr Hadd) as Hwithin.
  destruct (within_returned _ _ _ Hwithin _ _ _ Hrun) as (Hh & Hbuf & Hargv).
  pose proof (within_no_read _ _ Hwithin w1) as Hin. rewrite Hrun in Hin.
  cbn [fst] in Hin.
  split; [|split; [|split]].
  - rewrite Hh. unfold entries. by rewrite filter_cons_True, filter_nil.
  - by rewrite Hbuf.
  - by rewrite Hargv.
  - by rewrite Hin.
Qed.

(** No call reads the record of the children spawned. *)
Lemma run_strip {A} (p : prog A) : ∀ w1 w2,
  strip w1 = strip w2 →
  strip (run p w1).1 = strip (run p w2).1 ∧ (run p w1).2 = (run p w2).2.
Proof.
  induction p as [a| | |st|X c k IH]; intros w1 w2 Hw; try done.
  destruct w1 as [i1 t1 g1 f1 d1 n1 l1 x1 v1 k1 o1], w2 as [i2 t2 g2 f2 d2 n2 l2 x2 v2 k2 o2].
  injection Hw as -> -> -> -> -> -> -> -> -> ->.
  destruct c; cbn [run].
  - cbn [w_stdin]. destruct i2; by apply IH.
  - by apply IH.
  - cbn [w_slots]. destruct l2; [by apply IH|].
    change (child_world (World i2 t2 g2 f2 d2 n2 (S l2) x2 v2 k1 o2))
      with (child_world (World i2 t2 g2 f2 d2 n2 (S l2) x2 v2 k2 o2)).
    destruct (run (k 0) _). by apply IH.
  - unfold sys_pipe. cbn [w_fds w_pipes].
    destruct (fd_alloc d2) as [r|]; [|by apply IH].
    destruct (fd_alloc _) as [wr|]; by apply IH.
  - unfold sys_close. cbn [w_fds]. destruct (fd_file _ _); by apply IH.
  - unfold sys_dup. cbn [w_fds]. destruct (fd_file _ _); [destruct (fd_alloc _)|]; by apply IH.
  - cbn [w_programs]. destruct path as [f|]; [destruct (g2 f); [done|]|]; by apply IH.
  - unfold sys_wait. cbn [w_live]. destruct v2; by apply IH.
  - by apply IH.
Qed.

(** A sequence that returns: its first part returned, and its second part
    ran from the machine the first part left, up to the record of the
    children, which their copies of the second part may have extended. *)
Lemma run_bind_returned {A B} (p : prog A) (f : A → prog B) : ∀ w w' b,
  run (p ≫= f) w = (w', Returned b) →
  ∃ a w1, (run p w).2 = Returned a ∧ strip w1 = strip (run p w).1
          ∧ run (f a) w1 = (w', Returned b).
Proof.
  induction p as [a| | |st|X c k IH]; intros w w' b Hrun; try done.
  { by exists a, w. }
  change (run (Sys c (λ x, k x ≫= f)) w = (w', Returned b)) in Hrun.
  destruct c; cbn [run] in Hrun |- *.
  - destruct (w_stdin w); eauto.
  - eauto.
  - destruct (w_slots w); [eauto|].
    destruct (run (k 0 ≫= f) (child_world w)) as [wc' ec'].
    destruct (run (k 0) (child_world w)) as [wc ec].
    apply IH in Hrun as (a & w1 & Ha & Hw1 & Hf).
    set (W' := emit _ (parent_world _ w)) in Ha, Hw1.
    set (W := emit _ (parent_world _ w)).
    destruct (run_strip (k (Z.pos (w_next w))) W W') as [Hs He]; [done|].
    exists a, w1. by rewrite Hs, He.
  - destruct (sys_pipe w). eauto.
  - destruct (sys_close fd w). eauto.
  - destruct (sys_dup fd w). eauto.
  - destruct path as [g|]; [destruct (w_programs w g); [done|]|]; eauto.
  - destruct (sys_wait w). eauto.
  - eauto.
Qed.

Lemma entries_cons l ls : entries (l :: ls) = entries [l] ++ entries ls.
Proof. unfold entries. by rewrite (filter_app _ [l] ls). Qed.

Lemma entries_length_one l : (length (entries [l]) ≤ 1)%nat.
Proof.
  unfold entries. destruct (decide (l ≠ [])).
  - by rewrite filter_cons_True.
  - rewrite filter_cons_False by done. cbn. lia.
Qed.

(** The answers to the reads of one [readline(buf, MAXLINE)] make one line:
    the one it stores. *)
Lemma lines_read_readline n : ∀ inp cur rest,
  (0 < n)%nat → (length cur + n = LINE_CAP)%nat →
  lines_read cur (reads (reads_of n inp) ++ rest)
  = upto_nul (cur ++ line_of n inp) :: lines_read [] rest.
Proof.
  induction n as [|n IH]; intros inp cur rest Hn Hlen; [lia|].
  destruct inp as [|c inp]; cbn [reads_of line_of].
  { cbn. by rewrite app_nil_r. }
  change (reads (EvRead (Some c) :: ?l)) with (Some c :: reads l).
  cbn [app lines_read].
  destruct (c =? NL)%char eqn:Hc.
  { cbn. by rewrite app_nil_r. }
  case_decide as Hfull.
  - assert (n = 0%nat) as -> by lia. done.
  - rewrite IH; [|lia|rewrite length_app; cbn; lia].
    by rewrite <- (assoc_L (++)).
Qed.

(** X13. The history follows what the shell reads. When [rounds] iterations
    of the loop reach their end in the shell process, whatever the lines
    were and whatever their commands did, the history retains the non-empty
    command lines that the answers to the [read] calls of the shell in
    these iterations make, in the order read, and [buf] and [argv] have kept
    their sizes. *)
Theorem session_history (n : nat) (s s' : shell) (es : list cstr) (w w' : world) :
  length (buf s) = Z.to_nat MAXLINE →
  retains (hist s) es → Z.of_nat (length es + n) ≤ INT_MAX →
  run (main_loop n s) w = (w', Returned s') →
  ∃ rs, reads (w_log w') = reads (w_log w) ++ rs
    ∧ retains (hist s') (es ++ entries (lines_read [] rs))
    ∧ length (buf s') = Z.to_nat MAXLINE
    ∧ length (argv s') = length (argv s).
Proof.
  revert s es w. induction n as [|n IH]; intros s es w Hb Hret Hmax Hrun.
  { injection Hrun as <- <-. exists []. rewrite app_nil_r. cbn [lines_read].
    unfold entries. by rewrite filter_nil, app_nil_r. }
  cbn [main_loop] in Hrun.
  apply run_bind_returned in Hrun as (s1 & w1 & Hs1 & Hw1 & Hrest).
  destruct (run (main_iteration s) w) as [w0 e0] eqn:Hit.
  cbn [fst snd] in Hs1, Hw1. subst e0.
  destruct (iteration_keeps s s1 es w w0) as (Hret1 & Hb1 & Ha1 & Hin1);
    [done | done | lia | done |].
  pose proof (entries_length_one (command_line (w_stdin w))) as Hone.
  destruct (IH s1 (es ++ entries [command_line (w_stdin w)]) w1)
    as (rs & Hlog & Hret' & Hb' & Ha'); [done | done | | done |].
  { rewrite length_app. lia. }
  assert (Hlog1 : w_log w1 = w_log w0).
  { apply (f_equal w_log) in Hw1. by cbn [strip w_log] in Hw1. }
  exists (reads (reads_of LINE_CAP (w_stdin w)) ++ rs).
  split; [by rewrite Hlog, Hlog1, Hin1, (assoc_L (++))|].
  split; [|split; [done | congruence]].
  rewrite (lines_read_readline LINE_CAP (w_stdin w) [] rs) by (vm_compute; lia).
  cbn [app]. fold (command_line (w_stdin w)).
  by rewrite entries_cons, (assoc_L (++)).
Qed.

Lemma session_history_witness :
  ∃ w' s',
    run (main_loop 3 shell_init)
        (boot (lit "echo hola | wc" ++ [NL; NL] ++ lit "ayuda" ++ [NL] ++ lit "ls")
              (λ _, true) 8)
    = (w', Returned s')
    ∧ retains (hist s') [lit "echo hola | wc"; lit "ayuda"].
Proof.
  pose (w0 := boot (lit "echo hola | wc" ++ [NL; NL] ++ lit "ayuda" ++ [NL] ++ lit "ls")
                   (λ _, true) 8).
  destruct (run (main_loop 3 shell_init) w0) as [w' e] eqn:Hrun.
  assert (He : ∃ s', e = Returned s').
  { apply (f_equal snd) in Hrun. cbn [snd] in Hrun. rewrite <- Hrun.
    vm_compute. by eexists. }
  destruct He as [s' ->].
  destruct (session_history 3 shell_init s' [] w0 w') as (rs & Hlog & Hret & _).
  - reflexivity.
  - apply retains_init.
  - unfold INT_MAX. simpl. lia.
  - exact Hrun.
  - exists w', s'. split; [done|].
    assert (Hw : w' = (run (main_loop 3 shell_init) w0).1) by (by rewrite Hrun).
    assert (Hl : entries (lines_read [] rs) = [lit "echo hola | wc"; lit "ayuda"]).
    { change (reads (w_log w') = rs) in Hlog. rewrite <- Hlog, Hw. by vm_compute. }
    rewrite <- Hl. exact Hret.
Defined.

(** ** A piped line, from the buffer to the two children (lines 299-321) *)

Lemma world_ext (w1 w2 : world) :
  w_stdin w1 = w_stdin w2 → w_ticks w1 = w_ticks w2 → w_programs w1 = w_programs w2 →
  w_first w1 = w_first w2 → w_fds w1 = w_fds w2 → w_pipes w1 = w_pipes w2 →
  w_slots w1 = w_slots w2 → w_next w1 = w_next w2 → w_live w1 = w_live w2 →
  w_kids w1 = w_kids w2 → w_log w1 = w_log w2 → w1 = w2.
Proof. destruct w1, w2. cbn. by intros -> -> -> -> -> -> -> -> -> -> ->. Qed.

Ltac wsimpl_in H :=
  cbn [w_stdin w_ticks w_programs w_first w_fds w_pipes w_slots w_next w_live
       w_kids w_log emit emits reaped set_fds set_stdin parent_world child_world
       c_pid c_log c_fds c_end fst snd Nat.pred] in H.

(** [run_pipe] followed by the rest of the iteration. *)
Lemma run_run_pipe (m : mem) (left right : list ptr) (ls rs : list cstr)
    (w : world) (r wr : nat) (f0 f1 : file) B (f : unit → prog B) :
  read_argv m left = Ok ls → read_argv m right = Ok rs →
  w_fds w !! 0%nat = Some (Some f0) → w_fds w !! 1%nat = Some (Some f1) →
  fd_alloc (w_fds w) = Some r →
  fd_alloc (<[r:=Some (PipeRead (w_pipes w))]> (w_fds w)) = Some wr →
  (2 ≤ w_slots w)%nat → w_live w = [] →
  let pa := Z.pos (w_next w) in
  let pb := Z.pos (Pos.succ (w_next w)) in
  let a := Child pa
             [EvClose 1 0; EvDup (Z.of_nat wr) 1;
              EvClose (Z.of_nat r) 0; EvClose (Z.of_nat wr) 0;
              EvExec (head ls) ls (exec_loads w ls)]
             (<[1%nat:=Some (PipeWrite (w_pipes w))]> (w_fds w))
             (exec_or_exit w ls) in
  let b := Child pb
             [EvClose 0 0; EvDup (Z.of_nat r) 0;
              EvClose (Z.of_nat wr) 0; EvClose (Z.of_nat r) 0;
              EvExec (head rs) rs (exec_loads w rs)]
             (<[0%nat:=Some (PipeRead (w_pipes w))]> (w_fds w))
             (exec_or_exit w rs) in
  ∃ x y,
    (x = pa ∧ y = pb ∨ x = pb ∧ y = pa)
    ∧ run (run_pipe m left right ≫= f) w
      = run (f tt)
          (World (w_stdin w) (w_ticks w) (w_programs w) (w_first w) (w_fds w)
                 (S (w_pipes w)) (w_slots w) (Pos.succ (Pos.succ (w_next w))) []
                 (w_kids w ++ [a; b])
                 (w_log w ++ [EvPipe (Some (Z.of_nat r, Z.of_nat wr));
                              EvFork pa; EvFork pb;
                              EvClose (Z.of_nat r) 0; EvClose (Z.of_nat wr) 0;
                              EvWait 0 x; EvWait 0 y])).
Proof.
  intros Hls Hrs H0 H1 Hr Hwr Hslots Hlive pa pb a b.
  destruct (fd_alloc_Some _ _ Hr) as [Hr0 _].
  destruct (fd_alloc_Some _ _ Hwr) as [Hwr0 _].
  assert (Hne : r ≠ wr).
  { intros <-. rewrite list_lookup_insert_eq in Hwr0; [done|]. by eapply lookup_lt_Some. }
  rewrite list_lookup_insert_ne in Hwr0 by done.
  pose (t := w_fds w). pose (pr := PipeRead (w_pipes w)).
  pose (pw := PipeWrite (w_pipes w)).
  pose proof (lookup_lt_Some _ _ _ Hr0) as Hrlt.
  pose proof (lookup_lt_Some _ _ _ Hwr0) as Hwrlt.
  remember (run (run_pipe m left right ≫= f) w) as R eqn:HR.
  unfold run_pipe in HR.
  rewrite run_assoc, run_pipe_call, (sys_pipe_ok w r wr) in HR by done.
  wsimpl_in HR. rewrite run_assoc, run_fork in HR. wsimpl_in HR.
  destruct (w_slots w) as [|[|n]] eqn:Hs; [lia..|]. clear Hslots.
  cbn zeta in HR. rewrite decide_True in HR by done.
  rewrite (decide_False (P := Z.pos _ = 0)) in HR by done.
  (* child A *)
  rewrite run_assoc in HR.
  match type of HR with
  | context [run (pipe_child_a _ _ _ ≫= ?rest) ?W] =>
      destruct (run_pipe_child_a t r wr pr pw f0 f1 H0 H1 Hr0 Hwr0 Hne
                  W m left ls _ rest eq_refl Hls)
        as (cwa & Hcwa & Hloga & Hfdsa)
  end.
  rewrite Hcwa in HR. clear Hcwa.
  cbn iota in HR. rewrite run_assoc, ret_bind, run_assoc, run_fork in HR. wsimpl_in HR.
  cbn zeta in HR. rewrite decide_True in HR by done.
  rewrite (decide_False (P := Z.pos _ = 0)) in HR by done.
  (* child B *)
  rewrite run_assoc in HR.
  match type of HR with
  | context [run (pipe_child_b _ _ _ ≫= ?rest) ?W] =>
      destruct (run_pipe_child_b t r wr pr pw f0 f1 H0 H1 Hr0 Hwr0 Hne
                  W m right rs _ rest eq_refl Hrs)
        as (cwb & Hcwb & Hlogb & Hfdsb)
  end.
  rewrite Hcwb in HR. clear Hcwb.
  cbn iota in HR. rewrite run_assoc, ret_bind in HR. cbn [pipe_end] in HR.
  (* the parent closes both ends, then waits twice *)
  rewrite run_assoc, run_lift_Ok, run_assoc, run_close in HR.
  rewrite (sys_close_open r pr) in HR by (wsimpl; lk).
  wsimpl_in HR. rewrite run_assoc, run_lift_Ok, run_assoc, run_close in HR.
  rewrite (sys_close_open wr pw) in HR by (wsimpl; lk).
  wsimpl_in HR. rewrite run_assoc, run_wait in HR.
  match type of HR with
  | context [sys_wait ?W] =>
      destruct (sys_wait_pair W pa pb) as (x & y & Hxy & Hw);
        [wsimpl; by rewrite Hlive | unfold pa, pb; lia |]
  end.
  rewrite Hw in HR. clear Hw.
  wsimpl_in HR. rewrite run_assoc, run_wait, (sys_wait_one _ y) in HR by done.
  wsimpl_in HR. rewrite ret_bind in HR.
  exists x, y. split; [done|]. rewrite HR. f_equal.
  apply world_ext; wsimpl; try done.
  - by rewrite (parent_fds_restored (w_fds w) r wr _ _ f0 f1).
  - rewrite <- !(assoc_L (++)), Hloga, Hlogb, Hfdsa, Hfdsb.
    subst t pr pw. wsimpl. unfold a, b, exec_or_exit, exec_loads.
    assert (Hf : ∀ xs : list cstr,
              forget (match head xs return ending B with
                      | Some p => if w_programs w p then Replaced p xs else Exited 1
                      | None => Exited 1
                      end)
              = match head xs with
                | Some p => if w_programs w p then Replaced p xs else Exited 1
                | None => Exited 1
                end).
    { intros xs. by destruct (head xs) as [p|]; [destruct (w_programs w p)|]. }
    by rewrite !Hf.
  - by rewrite <- !(assoc_L (++)).
Qed.

(** X14. A line with a '|' from the buffer to the two children. Let the line
    not start with "calc " and, its alias rewritten, have fewer than
    [MAXARGS] tokens on each side of its first '|'; let the shell have no
    child outstanding, its descriptors 0 and 1 open, two free descriptors
    for the pipe and two free entries of the process table, so that [pipe]
    and both [fork]s succeed. Then the line is recorded and the shell makes
    one pipe and two children. The first calls [exec] on the tokens before
    the first '|' with its descriptor 1 on the write end, the second on the
    tokens after it with its descriptor 0 on the read end. A child whose
    [exec] fails, as it does when its side of the '|' is empty, exits with 1
    and prints nothing. The shell collects both and is left with its own
    descriptors and its argument vector as they were. *)
Theorem piped_command (s : shell) (es : list cstr) (line post l r : list ascii)
    (w : world) (fr fw : nat) (f0 f1 : file) :
  buf s = line ++ NUL :: post → NUL ∉ line → length (buf s) = Z.to_nat MAXLINE →
  retains (hist s) es → Z.of_nat (length es) < INT_MAX →
  starts_with line (lit "calc ") = false →
  aliased line = l ++ BAR :: r → BAR ∉ l →
  (length (tokens l) < MAXARGS)%nat → (length (tokens r) < MAXARGS)%nat →
  w_fds w !! 0%nat = Some (Some f0) → w_fds w !! 1%nat = Some (Some f1) →
  fd_alloc (w_fds w) = Some fr →
  fd_alloc (<[fr:=Some (PipeRead (w_pipes w))]> (w_fds w)) = Some fw →
  (2 ≤ w_slots w)%nat → w_live w = [] →
  ∃ w' s' a b,
    run (eval_line s) w = (w', Returned s')
    ∧ retains (hist s') (es ++ [line])
    ∧ argv s' = argv s
    ∧ w_kids w' = w_kids w ++ [a; b]
    ∧ c_log a = [EvClose 1 0; EvDup (Z.of_nat fw) 1;
                 EvClose (Z.of_nat fr) 0; EvClose (Z.of_nat fw) 0;
                 EvExec (head (tokens l)) (tokens l) (exec_loads w (tokens l))]
    ∧ c_fds a = <[1%nat:=Some (PipeWrite (w_pipes w))]> (w_fds w)
    ∧ c_end a = exec_or_exit w (tokens l)
    ∧ c_log b = [EvClose 0 0; EvDup (Z.of_nat fr) 0;
                 EvClose (Z.of_nat fw) 0; EvClose (Z.of_nat fr) 0;
                 EvExec (head (tokens r)) (tokens r) (exec_loads w (tokens r))]
    ∧ c_fds b = <[0%nat:=Some (PipeRead (w_pipes w))]> (w_fds w)
    ∧ c_end b = exec_or_exit w (tokens r)
    ∧ w_fds w' = w_fds w ∧ w_live w' = [] ∧ w_slots w' = w_slots w.
Proof.
  intros Hbuf Hnul Hlen Hret Hmax Hcalc Hsplit Hbar Hcapl Hcapr H0 H1 Hfr Hfw Hslots Hlive.
  assert (Hin : BAR ∈ line).
  { destruct (aliased_elem BAR line) as [H | [H | H]]; [|done|..].
    - rewrite Hsplit. apply elem_of_app. right. by left.
    - by apply not_elem_of_lit in H.
    - by apply not_elem_of_lit in H. }
  assert (Hnot : ∀ b : string, bool_decide (BAR ∈ lit b) = false → line ≠ lit b).
  { intros b Hb ->. by apply not_elem_of_lit in Hin. }
  assert (Hne : line ≠ []) by (intros ->; by apply elem_of_nil in Hin).
  assert (Hll : Z.of_nat (length line) < MAXLINE).
  { pose proof Hlen as Hlen'. change (Z.to_nat MAXLINE) with 100%nat in Hlen'.
    rewrite Hbuf, length_app in Hlen'. cbn [length] in Hlen'. unfold MAXLINE. lia. }
  destruct (add_history_retains (hist s) es line Hret Hne Hll Hmax) as [_ Hret'].
  assert (Hnula : NUL ∉ aliased line).
  { apply aliased_without; [done| |]; by apply not_elem_of_lit. }
  rewrite Hsplit in Hnula.
  apply not_elem_of_app in Hnula as [Hnull Hnulr].
  apply not_elem_of_cons in Hnulr as [_ Hnulr].
  set (s1 := Shell (History (<[(length es mod 10)%nat:=line]> (history (hist s)))
                            (Z.of_nat (length es) + 1))
                   (aliased line ++ NUL :: drop (S (length (aliased line))) (buf s))
                   (argv s)).
  destruct (execute_pipe s1 l r (drop (S (length (aliased line))) (buf s)))
    as (m & la & ra & Hexec & Hla & Hra); try done.
  { unfold s1. cbn [buf]. by rewrite Hsplit, <- (assoc_L (++)). }
  rewrite tokens_trim_left in Hra.
  rewrite <- run_ret_r.
  rewrite (eval_line_generic s es line post); try done; try (by apply Hnot).
  fold s1. rewrite Hexec, run_assoc.
  destruct (run_run_pipe m la ra (tokens l) (tokens r) w fr fw f0 f1 _
              (λ x, (λ _ : unit, Ret (Shell (hist s1) m (argv s1))) x ≫= Ret)
              Hla Hra H0 H1 Hfr Hfw Hslots Hlive)
    as (x & y & _ & ->).
  cbn beta. rewrite ret_bind. cbn [run].
  eexists _, _, _, _. split; [reflexivity|].
  cbn [hist argv s1]. wsimpl. split; [exact Hret'|]. by repeat split.
Qed.

Lemma piped_command_witness :
  ∃ w' s' a b,
    run (eval_line (Shell history_init (lit "| wc" ++ replicate 96 NUL)
                          (replicate MAXARGS Uninit)))
        (boot [] (λ _, true) 8)
    = (w', Returned s')
    ∧ w_kids w' = [a; b]
    ∧ c_log a = [EvClose 1 0; EvDup 4 1; EvClose 3 0; EvClose 4 0; EvExec None [] false]
    ∧ c_end a = Exited 1
    ∧ c_end b = Replaced (lit "wc") [lit "wc"].
Proof.
  destruct (piped_command
              (Shell history_init (lit "| wc" ++ replicate 96 NUL) (replicate MAXARGS Uninit))
              [] (lit "| wc") (replicate 95 NUL) [] (lit " wc")
              (boot [] (λ _, true) 8) 3 4 Console Console)
    as (w' & s' & a & b & Hrun & _ & _ & Hkids & Hla & _ & Hea & _ & _ & Heb & _).
  - reflexivity.
  - by apply not_elem_of_lit.
  - reflexivity.
  - apply retains_init.
  - unfold INT_MAX. simpl. lia.
  - reflexivity.
  - reflexivity.
  - apply not_elem_of_nil.
  - vm_compute. lia.
  - vm_compute. lia.
  - reflexivity.
  - reflexivity.
  - reflexivity.
  - reflexivity.
  - vm_compute. lia.
  - reflexivity.
  - exists w', s', a, b. split; [exact Hrun|]. split; [exact Hkids|].
    split; [exact Hla|]. split; [exact Hea | exact Heb].
Defined.

(** ** The resources of the shell across an iteration *)



Lemma console_local {X} (c : call X) : console_call c → local_call c.
Proof. by destruct c. Qed.











Lemma local_readline_loop k : ∀ b i,
  within (@local_call) (λ _, True) (readline_loop k b i).
Proof.
  induction k as [|k IH]; intros b i; cbn [readline_loop]; [by constructor|].
  apply (within_bind _ (λ _, True)); [by apply within_sys|]. intros [c|] _; [|by constructor].
  destruct (c =? NL)%char; [by constructor|].
  within_seq; [by apply within_lift|]. apply IH.
Qed.

Lemma local_readline b max : within (@local_call) (λ _, True) (readline b max).
Proof.
  unfold readline. within_seq; [apply local_readline_loop|].
  destruct a as [b' i]. within_seq; [by apply within_lift|]. by constructor.
Qed.







(** ** Within the limits, every iteration is defined *)







(** ** Every loop of the shell ends *)

Lemma ends_with_bind {A B} (Q : A → Prop) (P : B → Prop) (p : prog A) (f : A → prog B) :
  ends_with Q p → (∀ a, Q a → ends_with P (f a)) → ends_with P (p ≫= f).
Proof.
  intros Hp Hf. induction Hp as [a Ha| | |X c k Hk IH].
  - by apply Hf.
  - constructor.
  - constructor.
  - change (ends_with P (Sys c (λ x, k x ≫= f))). by constructor.
Qed.

Lemma ends_with_weaken {A} (P Q : A → Prop) (p : prog A) :
  ends_with P p → (∀ a, P a → Q a) → ends_with Q p.
Proof. intros Hp HPQ. induction Hp; constructor; auto. Qed.

Lemma ends_with_lift {A} (P : A → Prop) (r : res A) :
  r ≠ NoFuel → (∀ a, r = Ok a → P a) → ends_with P (lift r).
Proof. destruct r; intros H HP; [constructor; by apply HP | constructor | done]. Qed.

Lemma ends_with_sys {X} (P : X → Prop) (c : call X) : (∀ x, P x) → ends_with P (sys c).
Proof. intros HP. constructor. intros x. by constructor. Qed.

Lemma ends_with_printf fmt args : ends_with (λ _, True) (printf fmt args).
Proof. by apply ends_with_sys. Qed.

Lemma forget_ended {A} (e : ending A) : e ≠ Starved → forget e ≠ Starved.
Proof. by destruct e. Qed.

(** What [ends_with] says of a run: the process and the children it made
    are not cut short, and a value returned satisfies the condition. *)
Lemma ends_with_run {A} (P : A → Prop) (p : prog A) :
  ends_with P p →
  ∀ w, (run p w).2 ≠ Starved
       ∧ (∀ a, (run p w).2 = Returned a → P a)
       ∧ (Forall child_ended (w_kids w) → Forall child_ended (w_kids (run p w).1)).
Proof.
  induction 1 as [a Ha| | |X c k Hk IH]; intros w; cbn [run fst snd];
    try (split; [done|]; split; [|done]; intros a' [= <-]; done);
    try (split; [done|]; split; [|done]; done).
  destruct c; cbn [run].
  - destruct (w_stdin w) as [|c rest];
      [exact (IH _ (emit (EvRead None) w))
      | exact (IH _ (emit (EvRead (Some c)) (set_stdin rest w)))].
  - exact (IH _ (emit (EvPrintf fmt args) w)).
  - destruct (w_slots w); [exact (IH _ (emit (EvFork (-1)) w))|].
    destruct (run (k 0) (child_world w)) as [wc ec] eqn:Hc.
    destruct (IH 0 (child_world w)) as (Hec & _ & _). rewrite Hc in Hec. cbn [snd] in Hec.
    destruct (IH (Z.pos (w_next w))
                 (emit (EvFork (Z.pos (w_next w)))
                    (parent_world (Child (Z.pos (w_next w)) (w_log wc) (w_fds wc) (forget ec))
                                  w))) as (H1 & H2 & H3).
    split; [done|]. split; [done|]. intros Hk0. apply H3. cbn.
    apply Forall_app. split; [done|]. constructor; [|constructor].
    by apply forget_ended.
  - destruct (sys_pipe w) as [w1 r] eqn:Hp.
    assert (w_kids w1 = w_kids w) as Hk1.
    { unfold sys_pipe in Hp. destruct (fd_alloc (w_fds w)); [|by injection Hp as <- _].
      destruct (fd_alloc _); by injection Hp as <- _. }
    destruct (IH r (emit (EvPipe r) w1)) as (H1 & H2 & H3).
    split; [done|]. split; [done|]. intros Hk0. apply H3. cbn. by rewrite Hk1.
  - destruct (sys_close fd w) as [w1 r] eqn:Hp.
    assert (w_kids w1 = w_kids w) as Hk1.
    { unfold sys_close in Hp. destruct (fd_file _ _); by injection Hp as <- _. }
    destruct (IH r (emit (EvClose fd r) w1)) as (H1 & H2 & H3).
    split; [done|]. split; [done|]. intros Hk0. apply H3. cbn. by rewrite Hk1.
  - destruct (sys_dup fd w) as [w1 r] eqn:Hp.
    assert (w_kids w1 = w_kids w) as Hk1.
    { unfold sys_dup in Hp.
      destruct (fd_file _ _); [destruct (fd_alloc _)|]; by injection Hp as <- _. }
    destruct (IH r (emit (EvDup fd r) w1)) as (H1 & H2 & H3).
    split; [done|]. split; [done|]. intros Hk0. apply H3. cbn. by rewrite Hk1.
  - destruct path as [f|]; [destruct (w_programs w f)|].
    + cbn. split; [done|]. split; [done|]. done.
    + exact (IH _ (emit (EvExec (Some f) _ false) w)).
    + exact (IH _ (emit (EvExec None _ false) w)).
  - destruct (sys_wait w) as [w1 r] eqn:Hp.
    assert (w_kids w1 = w_kids w) as Hk1.
    { unfold sys_wait in Hp. destruct (w_live w); by injection Hp as <- _. }
    destruct (IH r (emit (EvWait status r) w1)) as (H1 & H2 & H3).
    split; [done|]. split; [done|]. intros Hk0. apply H3. cbn. by rewrite Hk1.
  - exact (IH _ (emit (EvUptime (w_ticks w)) w)).
Qed.

(** The fuel of each loop covers the array it walks. *)
Lemma bind_fuel {A B} (r : res A) (f : A → res B) :
  r ≠ NoFuel → (∀ a, r = Ok a → f a ≠ NoFuel) → (r ≫= f) ≠ NoFuel.
Proof. destruct r; intros H Hf; [by apply Hf | by cbn | done]. Qed.

Lemma load_fuel (m : mem) p : load m p ≠ NoFuel.
Proof. unfold load. by destruct (m !! p). Qed.

Lemma store_fuel (m : mem) p c : store m p c ≠ NoFuel.
Proof. unfold store. by case_decide. Qed.

Lemma load_lt (m : mem) p c : load m p = Ok c → (p < length m)%nat.
Proof.
  unfold load. destruct (m !! p) eqn:H; [|done]. intros _. by eapply lookup_lt_Some.
Qed.

Lemma parse_blanks_fuel fuel : ∀ m b,
  (length m - b < fuel)%nat → parse_blanks fuel m b ≠ NoFuel.
Proof.
  induction fuel as [|fuel IH]; intros m b Hf; [lia|]. cbn [parse_blanks].
  apply bind_fuel; [apply load_fuel|]. intros c Hl.
  apply load_lt in Hl. destruct (c =? SP)%char; [|done].
  apply bind_fuel; [apply store_fuel|]. intros m' Hm'. apply store_length in Hm'.
  apply IH. lia.
Qed.

Lemma parse_blanks_stop fuel : ∀ m b m' b',
  parse_blanks fuel m b = Ok (m', b') →
  (b ≤ b')%nat ∧ ∃ c, load m' b' = Ok c ∧ c ≠ SP.
Proof.
  induction fuel as [|fuel IH]; intros m b m' b' H; cbn [parse_blanks] in H; [done|].
  destruct (load m b) as [c| |] eqn:Hl; [|done..]. rewrite bind_Ok in H.
  destruct (c =? SP)%char eqn:Hc.
  - unfold store in H. case_decide; [|done]. rewrite bind_Ok in H.
    apply IH in H as [Hle Hstop]. split; [lia | done].
  - injection H as <- <-. split; [done|]. exists c. split; [done|].
    intros ->. by rewrite Ascii.eqb_refl in Hc.
Qed.

Lemma parse_word_fuel fuel : ∀ m b,
  (length m - b < fuel)%nat → parse_word fuel m b ≠ NoFuel.
Proof.
  induction fuel as [|fuel IH]; intros m b Hf; [lia|]. cbn [parse_word].
  apply bind_fuel; [apply load_fuel|]. intros c Hl.
  apply load_lt in Hl. destruct (negb (c =? SP)%char && negb (c =? NUL)%char); [|done].
  apply IH. lia.
Qed.

Lemma parse_word_advance fuel : ∀ m b b',
  parse_word fuel m b = Ok b' →
  (b ≤ b')%nat ∧ ∀ c, load m b = Ok c → c ≠ SP → c ≠ NUL → (b < b')%nat.
Proof.
  induction fuel as [|fuel IH]; intros m b b' H; cbn [parse_word] in H; [done|].
  destruct (load m b) as [c| |] eqn:Hl; [|done..]. rewrite bind_Ok in H.
  destruct (negb (c =? SP)%char && negb (c =? NUL)%char) eqn:Hc.
  - apply IH in H as [Hle _]. split; [lia|]. intros; lia.
  - injection H as <-. split; [done|]. intros c' [= <-] Hsp Hnul.
    rewrite eqb_SP_false, eqb_NUL_false in Hc by done. done.
Qed.

Lemma ptr_set_fuel a i v : ptr_set a i v ≠ NoFuel.
Proof. unfold ptr_set. by case_decide. Qed.

Lemma parse_loop_fuel fuel : ∀ m b a i,
  (length m - b < fuel)%nat → parse_loop fuel m b a i ≠ NoFuel.
Proof.
  induction fuel as [|fuel IH]; intros m b a i Hf; [lia|]. cbn [parse_loop].
  apply bind_fuel; [apply load_fuel|]. intros c Hl. apply load_lt in Hl.
  destruct (c =? NUL)%char.
  { apply bind_fuel; [apply ptr_set_fuel | done]. }
  apply bind_fuel; [apply parse_blanks_fuel; lia|]. intros [m1 b1] Hbl.
  pose proof (parse_blanks_length _ _ _ _ _ Hbl) as Hlen.
  apply parse_blanks_stop in Hbl as (Hle & c1 & Hl1 & Hc1).
  rewrite Hl1, bind_Ok.
  destruct (c1 =? NUL)%char eqn:Hn.
  { apply bind_fuel; [apply ptr_set_fuel | done]. }
  apply bind_fuel; [apply ptr_set_fuel|]. intros a1 _.
  apply bind_fuel; [apply parse_word_fuel; lia|]. intros b2 Hw.
  apply parse_word_advance in Hw as [_ Hadv].
  assert (b1 < b2)%nat.
  { apply (Hadv c1); [done | done |]. intros ->. by rewrite Ascii.eqb_refl in Hn. }
  apply IH. lia.
Qed.

Lemma parse_fuel m b a : parse m b a ≠ NoFuel.
Proof. apply parse_loop_fuel. lia. Qed.

Lemma find_pipe_fuel fuel : ∀ m i, (length m - i < fuel)%nat → find_pipe fuel m i ≠ NoFuel.
Proof.
  induction fuel as [|fuel IH]; intros m i Hf; [lia|]. cbn [find_pipe].
  apply bind_fuel; [apply load_fuel|]. intros c Hl.
  apply load_lt in Hl. destruct (c =? NUL)%char; [done|].
  destruct (c =? BAR)%char; [done|]. apply IH. lia.
Qed.

Lemma skip_blanks_fuel fuel : ∀ m i, (length m - i < fuel)%nat → skip_blanks fuel m i ≠ NoFuel.
Proof.
  induction fuel as [|fuel IH]; intros m i Hf; [lia|]. cbn [skip_blanks].
  apply bind_fuel; [apply load_fuel|]. intros c Hl.
  apply load_lt in Hl. destruct (c =? SP)%char; [|done]. apply IH. lia.
Qed.

(** The string functions have no loop of their own in the embedding. *)
Lemma cstring_fuel l : cstring l ≠ NoFuel.
Proof.
  induction l as [|c l IH]; [done|]. cbn [cstring].
  destruct (c =? NUL)%char; [done|]. by apply bind_fuel.
Qed.

Lemma cstring_at_fuel m p : cstring_at m p ≠ NoFuel.
Proof. unfold cstring_at. case_decide; [apply cstring_fuel | done]. Qed.

Lemma strcpy_fuel m p s : strcpy m p s ≠ NoFuel.
Proof. unfold strcpy. by case_decide. Qed.

Lemma read_argv_fuel m a : read_argv m a ≠ NoFuel.
Proof.
  induction a as [|[| |p] a IH]; try done. cbn [read_argv].
  apply bind_fuel; [apply cstring_at_fuel|]. intros s _. by apply bind_fuel.
Qed.

Lemma add_history_fuel cmd h : add_history cmd h ≠ NoFuel.
Proof.
  unfold add_history. destruct cmd; [done|]. apply bind_fuel; [|done].
  unfold row_set. by case_decide.
Qed.

Lemma rewrite_aliases_fuel b : rewrite_aliases b ≠ NoFuel.
Proof.
  unfold rewrite_aliases.
  apply bind_fuel; [apply cstring_at_fuel|]. intros line _.
  apply bind_fuel; [case_decide; [apply strcpy_fuel | done]|]. intros b1 _.
  apply bind_fuel; [apply cstring_at_fuel|]. intros line1 _.
  destruct (starts_with line1 (lit "leer ")); [|done].
  apply bind_fuel; [apply strcpy_fuel|]. intros t1 _.
  apply bind_fuel; [apply cstring_at_fuel|]. intros rest _.
  apply bind_fuel; [apply strcpy_fuel|]. intros t2 _.
  apply bind_fuel; [apply cstring_at_fuel|]. intros copy _.
  apply strcpy_fuel.
Qed.

Ltac ends_seq :=
  apply (ends_with_bind (λ _, True)); [|intros ? _].

Ltac ends_auto :=
  repeat first
    [ by constructor
    | by apply ends_with_printf
    | by apply ends_with_sys
    | case_decide
    | ends_seq ].

Lemma ends_readline_loop k : ∀ b i, ends_with (λ _, True) (readline_loop k b i).
Proof.
  induction k as [|k IH]; intros b i; cbn [readline_loop]; [by constructor|].
  apply (ends_with_bind (λ _, True)); [by apply ends_with_sys|].
  intros [c|] _; [|by constructor].
  destruct (c =? NL)%char; [by constructor|].
  ends_seq; [apply ends_with_lift; [apply store_fuel | done]|]. apply IH.
Qed.

Lemma ends_readline b max : ends_with (λ _, True) (readline b max).
Proof.
  unfold readline. apply (ends_with_bind (λ _, True)); [apply ends_readline_loop|].
  intros [b' i] _. ends_seq; [apply ends_with_lift; [apply store_fuel | done]|].
  by constructor.
Qed.

Lemma wrap_range z : is_int (wrap z).
Proof. unfold is_int, wrap, INT_MIN, INT_MAX. Z.div_mod_to_equations. lia. Qed.

Lemma row_get_fuel rows i : row_get rows i ≠ NoFuel.
Proof. unfold row_get. case_decide; [|done]. by destruct (rows !! Z.to_nat i). Qed.

Lemma ends_show_history_loop fuel : ∀ h i,
  0 ≤ i → history_count h ≤ INT_MAX → history_count h - i ≤ Z.of_nat fuel →
  ends_with (λ _, True) (show_history_loop fuel h i).
Proof.
  induction fuel as [|fuel IH]; intros h i Hi Hmax Hf; cbn [show_history_loop];
    case_decide; try by constructor.
  { lia. }
  ends_seq; [apply ends_with_lift; [apply row_get_fuel | done]|].
  ends_seq; [apply ends_with_printf|].
  assert (int_add i 1 = i + 1) as ->.
  { apply wrap_small. unfold INT_MIN, INT_MAX in *. lia. }
  apply IH; lia.
Qed.

Lemma ends_show_history h :
  is_int (history_count h) → ends_with (λ _, True) (show_history h).
Proof.
  intros [Hlo Hhi]. unfold show_history.
  ends_seq; [apply ends_with_printf|]. cbn zeta.
  ends_seq; [|apply ends_with_printf].
  unfold int_sub, wrap, HISTORY_SIZE, INT_MIN, INT_MAX in *.
  apply ends_show_history_loop.
  - case_decide; lia.
  - unfold INT_MAX. lia.
  - change (Z.of_nat (Z.to_nat 10)) with 10.
    case_decide; Z.div_mod_to_equations; lia.
Qed.

Lemma ends_exec m a : ends_with (λ _, True) (exec m a).
Proof.
  unfold exec. ends_seq; [apply ends_with_lift; [apply read_argv_fuel | done]|].
  by apply ends_with_sys.
Qed.

Lemma ends_run_cmd m a : ends_with (λ _, True) (run_cmd m a).
Proof.
  unfold run_cmd. ends_seq; [by apply ends_with_sys|]. case_decide.
  - ends_seq; [apply ends_exec|]. ends_auto.
  - ends_auto.
Qed.

Lemma pipe_end_fuel p i : pipe_end p i ≠ NoFuel.
Proof. by destruct p as [[? ?]|], i as [|[|?]]. Qed.

Lemma ends_pipe_end {B} p i (f : Z → prog B) :
  (∀ x, ends_with (λ _, True) (f x)) → ends_with (λ _, True) (lift (pipe_end p i) ≫= f).
Proof.
  intros Hf. apply (ends_with_bind (λ _, True)); [|by intros].
  apply ends_with_lift; [apply pipe_end_fuel | done].
Qed.

Lemma ends_pipe_child_a p m l : ends_with (λ _, True) (pipe_child_a p m l).
Proof.
  unfold pipe_child_a. ends_seq; [by apply ends_with_sys|].
  apply ends_pipe_end. intros p1. ends_seq; [by apply ends_with_sys|].
  apply ends_pipe_end. intros p0. ends_seq; [by apply ends_with_sys|].
  apply ends_pipe_end. intros p1'. ends_seq; [by apply ends_with_sys|].
  ends_seq; [apply ends_exec|]. by constructor.
Qed.

Lemma ends_pipe_child_b p m r : ends_with (λ _, True) (pipe_child_b p m r).
Proof.
  unfold pipe_child_b. ends_seq; [by apply ends_with_sys|].
  apply ends_pipe_end. intros p0. ends_seq; [by apply ends_with_sys|].
  apply ends_pipe_end. intros p1. ends_seq; [by apply ends_with_sys|].
  apply ends_pipe_end. intros p0'. ends_seq; [by apply ends_with_sys|].
  ends_seq; [apply ends_exec|]. by constructor.
Qed.

Lemma ends_run_pipe m l r : ends_with (λ _, True) (run_pipe m l r).
Proof.
  unfold run_pipe. apply (ends_with_bind (λ _, True)); [by apply ends_with_sys|].
  intros p _. ends_seq; [by apply ends_with_sys|].
  ends_seq; [case_decide; [apply ends_pipe_child_a | by constructor]|].
  ends_seq; [by apply ends_with_sys|].
  ends_seq; [case_decide; [apply ends_pipe_child_b | by constructor]|].
  apply ends_pipe_end. intros p0. ends_seq; [by apply ends_with_sys|].
  apply ends_pipe_end. intros p1. ends_seq; [by apply ends_with_sys|].
  ends_auto.
Qed.

Lemma ptr_get_fuel a i : ptr_get a i ≠ NoFuel.
Proof. unfold ptr_get. by destruct (a !! i) as [[| |?]|]. Qed.

Lemma ends_calc b : ends_with (λ _, True) (calc b).
Proof.
  unfold calc.
  apply (ends_with_bind (λ _, True)); [apply ends_with_lift; [apply parse_fuel | done]|].
  intros [m a] _.
  assert (Husage : ends_with (λ _ : mem, True) (usage;; Ret m)).
  { ends_seq; [apply ends_with_printf | by constructor]. }
  apply (ends_with_bind (λ _, True)); [apply ends_with_lift; [apply ptr_get_fuel | done]|].
  intros [| |p0] _; try done.
  apply (ends_with_bind (λ _, True)); [apply ends_with_lift; [apply ptr_get_fuel | done]|].
  intros [| |p1] _; try done.
  apply (ends_with_bind (λ _, True)); [apply ends_with_lift; [apply ptr_get_fuel | done]|].
  intros [| |p2] _; try done.
  ends_seq; [apply ends_with_lift; [apply cstring_at_fuel | done]|].
  ends_seq; [apply ends_with_lift; [apply cstring_at_fuel | done]|].
  ends_seq; [apply ends_with_lift; [apply load_fuel | done]|].
  ends_seq; [apply ends_with_printf|].
  ends_seq; [|by constructor].
  repeat match goal with
         | |- ends_with _ (if ?c then _ else _) => destruct c
         end; try apply ends_with_printf.
  apply (ends_with_bind (λ _, True)).
  - apply ends_with_lift; [|done]. unfold checked_div. by case_decide.
  - intros q _. apply ends_with_printf.
Qed.

Lemma ends_tiempo : ends_with (λ _, True) tiempo.
Proof.
  unfold tiempo. ends_seq; [by apply ends_with_sys|]. cbn zeta.
  unfold print_two_digits.
  repeat (ends_seq; [first [apply ends_with_printf | case_decide; apply ends_with_printf]|]).
  apply ends_with_printf.
Qed.

Lemma ends_ayuda : ends_with (λ _, True) ayuda.
Proof.
  unfold ayuda. repeat (ends_seq; [apply ends_with_printf|]). apply ends_with_printf.
Qed.

Lemma ends_execute s : ends_with (λ s', hist s' = hist s) (execute s).
Proof.
  unfold execute.
  apply (ends_with_bind (λ _, True));
    [apply ends_with_lift; [apply find_pipe_fuel; lia | done]|].
  intros [pos|] _.
  - apply (ends_with_bind (λ _, True)); [apply ends_with_lift; [apply store_fuel | done]|].
    intros b _.
    apply (ends_with_bind (λ _, True));
      [apply ends_with_lift; [apply skip_blanks_fuel; lia | done]|].
    intros right _.
    apply (ends_with_bind (λ _, True)); [apply ends_with_lift; [apply parse_fuel | done]|].
    intros [b1 la] _.
    apply (ends_with_bind (λ _, True)); [apply ends_with_lift; [apply parse_fuel | done]|].
    intros [b2 ra] _.
    ends_seq; [apply ends_run_pipe|]. by constructor.
  - apply (ends_with_bind (λ _, True)); [apply ends_with_lift; [apply parse_fuel | done]|].
    intros [b a] _.
    ends_seq; [apply ends_run_cmd|]. by constructor.
Qed.

Lemma add_history_int cmd h h' :
  is_int (history_count h) → add_history cmd h = Ok h' → is_int (history_count h').
Proof.
  intros Hh. unfold add_history. destruct cmd; [by intros [= <-]|].
  destruct (row_set _ _ _); [|done..]. rewrite bind_Ok. intros [= <-].
  apply wrap_range.
Qed.

Lemma ends_eval_line s :
  is_int (history_count (hist s)) →
  ends_with (λ s', is_int (history_count (hist s'))) (eval_line s).
Proof.
  intros Hint. unfold eval_line.
  apply (ends_with_bind (λ _, True)); [apply ends_with_lift; [apply cstring_at_fuel | done]|].
  intros line _.
  apply (ends_with_bind (λ h, is_int (history_count h))).
  { apply ends_with_lift; [apply add_history_fuel|]. intros h. by apply add_history_int. }
  intros h Hh. cbn zeta.
  assert (Hend : ∀ p : prog unit,
            ends_with (λ _, True) p →
            ends_with (λ s', is_int (history_count (hist s')))
                      (p;; Ret (Shell h (buf s) (argv s)))).
  { intros p Hp. ends_seq; [done | by constructor]. }
  case_decide; [ends_seq; [apply ends_with_printf | constructor]|].
  case_decide; [apply Hend, ends_with_printf|].
  case_decide; [by apply Hend, ends_show_history|].
  case_decide; [apply Hend, ends_ayuda|].
  destruct (starts_with line (lit "calc ")).
  { apply (ends_with_bind (λ _, True)); [apply ends_calc|]. intros b _. by constructor. }
  case_decide; [apply Hend, ends_tiempo|].
  apply (ends_with_bind (λ _, True));
    [apply ends_with_lift; [apply rewrite_aliases_fuel | done]|].
  intros b _. eapply ends_with_weaken; [apply ends_execute|].
  cbn [hist]. by intros s' ->.
Qed.

Lemma ends_main_iteration s :
  is_int (history_count (hist s)) →
  ends_with (λ s', is_int (history_count (hist s'))) (main_iteration s).
Proof.
  intros Hint. unfold main_iteration.
  ends_seq; [apply ends_with_printf|].
  apply (ends_with_bind (λ _, True)); [apply ends_readline|]. intros [b k] _.
  cbn zeta. case_decide; [by constructor|].
  apply (ends_with_bind (λ _, True)); [apply ends_with_lift; [apply load_fuel | done]|].
  intros c _. destruct (c =? NUL)%char; [by constructor|].
  by apply ends_eval_line.
Qed.

Lemma ends_main_loop rounds : ∀ s,
  is_int (history_count (hist s)) →
  ends_with (λ s', is_int (history_count (hist s'))) (main_loop rounds s).
Proof.
  induction rounds as [|k IH]; intros s Hint; cbn [main_loop]; [by constructor|].
  eapply ends_with_bind; [by apply ends_main_iteration|]. intros s' Hs'. by apply IH.
Qed.

(** X17. Every loop of the shell ends: the fuel the embedding gives to the
    loops of [parse], of the search for '|', of the skipping of blanks and
    of the history listing always covers them, so that no number of
    iterations of the prompt loop, on any input and in any state whose
    [history_count] is an [int], is cut short for lack of fuel, in the shell
    or in any child it makes. *)
Theorem loop_ends (rounds : nat) (s : shell) (w : world) :
  INT_MIN ≤ history_count (hist s) ≤ INT_MAX →
  (run (main_loop rounds s) w).2 ≠ Starved
  ∧ (Forall (λ c, c_end c ≠ Starved) (w_kids w) →
     Forall (λ c, c_end c ≠ Starved) (w_kids (run (main_loop rounds s) w).1)).
Proof.
  intros Hint.
  destruct (ends_with_run _ _ (ends_main_loop rounds s Hint) w) as (H1 & _ & H2).
  split; [exact H1 | exact H2].
Qed.

Lemma loop_ends_witness :
  let r := run (main_loop 2 shell_init)
               (boot (lit "ls | wc" ++ [NL] ++ lit "a b c d e f g h i j" ++ [NL])
                     (λ _, true) 8) in
  r.2 = Crashed ∧ Forall (λ c, c_end c ≠ Starved) (w_kids r.1).
Proof.
  intros r.
  destruct (loop_ends 2 shell_init
              (boot (lit "ls | wc" ++ [NL] ++ lit "a b c d e f g h i j" ++ [NL])
                    (λ _, true) 8)) as [_ Hkids].
  - vm_compute. split; discriminate.
  - split; [vm_compute; reflexivity|]. apply Hkids. constructor.
Defined.

(** ** No child comes back to the prompt *)

Lemma exits_1_bind {A B} (p : prog A) (f : A → prog B) : exits_1 p → exits_1 (p ≫= f).
Proof.
  induction 1 as [| |X c k Hk IH]; [constructor | constructor |].
  change (exits_1 (Sys c (λ x, k x ≫= f))). by constructor.
Qed.

Lemma exits_1_lift {A B} (r : res A) (f : A → prog B) :
  r ≠ NoFuel → (∀ a, exits_1 (f a)) → exits_1 (lift r ≫= f).
Proof. destruct r; intros H Hf; [apply Hf | constructor | done]. Qed.

Lemma exits_1_sys {X B} (c : call X) (f : X → prog B) :
  (∀ x, exits_1 (f x)) → exits_1 (sys c ≫= f).
Proof. intros Hf. change (exits_1 (Sys c (λ x, Ret x ≫= f))). by constructor. Qed.

Lemma exits_1_run {A} (p : prog A) :
  exits_1 p →
  ∀ w, (run p w).2 = Exited 1 ∨ (run p w).2 = Crashed
       ∨ ∃ path args, (run p w).2 = Replaced path args.
Proof.
  induction 1 as [| |X c k Hk IH]; intros w; [by right; left | by left |].
  destruct c; cbn [run].
  - destruct (w_stdin w); apply IH.
  - apply IH.
  - destruct (w_slots w); [apply IH|].
    destruct (run (k 0) (child_world w)). apply IH.
  - destruct (sys_pipe w). apply IH.
  - destruct (sys_close fd w). apply IH.
  - destruct (sys_dup fd w). apply IH.
  - destruct path as [f|]; [destruct (w_programs w f)|]; try apply IH.
    right. right. by eexists _, _.
  - destruct (sys_wait w). apply IH.
  - apply IH.
Qed.

Lemma forget_child_end {A} (e : ending A) pid log fds :
  (e = Exited 1 ∨ e = Crashed ∨ ∃ path args, e = Replaced path args) →
  child_end (Child pid log fds (forget e)).
Proof.
  unfold child_end. cbn.
  intros [-> | [-> | (path & args & ->)]]; cbn; eauto.
Qed.

Lemma spawns_run {A} (p : prog A) :
  spawns p →
  ∀ w, Forall child_end (w_kids w) → Forall child_end (w_kids (run p w).1).
Proof.
  induction 1 as [a| | |st|k Hk0 Hk IH|X c k Hc Hk IH]; intros w Hw; try done.
  - cbn [run]. destruct (w_slots w).
    { apply (IH (-1)); [done|]. exact Hw. }
    destruct (run (k 0) (child_world w)) as [wc ec] eqn:Hrun.
    pose proof (exits_1_run _ Hk0 (child_world w)) as Hec. rewrite Hrun in Hec.
    apply (IH (Z.pos (w_next w))); [done|]. cbn.
    apply Forall_app. split; [done|]. constructor; [|constructor].
    by apply forget_child_end.
  - destruct c; try done; cbn [run].
    + destruct (w_stdin w); by apply IH.
    + by apply IH.
    + unfold sys_pipe. destruct (fd_alloc (w_fds w)); [|by apply IH].
      destruct (fd_alloc _); by apply IH.
    + unfold sys_close. destruct (fd_file _ _); by apply IH.
    + unfold sys_dup. destruct (fd_file _ _); [destruct (fd_alloc _)|]; by apply IH.
    + destruct path as [f|]; [destruct (w_programs w f)|]; try by apply IH. done.
    + unfold sys_wait. destruct (w_live w); by apply IH.
    + by apply IH.
Qed.

Lemma spawns_bind {A B} (p : prog A) (f : A → prog B) :
  spawns p → (∀ a, spawns (f a)) → spawns (p ≫= f).
Proof.
  intros Hp Hf. induction Hp as [a| | |st|k Hk0 Hk IH|X c k Hc Hk IH].
  - apply Hf.
  - constructor.
  - constructor.
  - constructor.
  - change (spawns (Sys Fork (λ x, k x ≫= f))).
    apply spawns_Fork; [by apply exits_1_bind | done].
  - change (spawns (Sys c (λ x, k x ≫= f))). by apply spawns_Sys.
Qed.

Lemma spawns_lift {A} (r : res A) : spawns (lift r).
Proof. destruct r; constructor. Qed.

Lemma spawns_sys {X} (c : call X) : is_fork c = false → spawns (sys c).
Proof. intros H. apply spawns_Sys; [done|]. intros x. constructor. Qed.

(** A program that does not fork. *)
Lemma spawns_local {A} (P : A → Prop) (p : prog A) : within (@local_call) P p → spawns p.
Proof.
  induction 1 as [a Ha| | | |X c k Hc Hk IH]; try by constructor.
  apply spawns_Sys; [by destruct c | done].
Qed.

Lemma spawns_console {A} (P : A → Prop) (p : prog A) :
  within (@console_call) P p → spawns p.
Proof.
  intros H. apply (spawns_local P). eapply within_mono; [|exact H].
  intros X c. apply console_local.
Qed.

Lemma exits_1_exec {B} m a (f : Z → prog B) :
  (∀ x, exits_1 (f x)) → exits_1 (exec m a ≫= f).
Proof.
  intros Hf. unfold exec. pose proof (read_argv_fuel m a) as Hr.
  destruct (read_argv m a) as [args| |]; [|exact exits_Crash | done].
  rewrite lift_Ok_bind. by apply exits_1_sys.
Qed.

Lemma spawns_run_cmd m a : spawns (run_cmd m a).
Proof.
  unfold run_cmd. apply spawns_Fork.
  - cbn [bind mbind prog_bind mret prog_ret]. rewrite decide_True by done.
    apply exits_1_exec. intros _. apply exits_1_sys. intros _. constructor.
  - intros pid Hpid. cbn [bind mbind prog_bind mret prog_ret].
    rewrite decide_False by done.
    apply spawns_bind; [by apply spawns_sys | intros; constructor].
Qed.

Lemma exits_1_pipe_child_a p m l : exits_1 (pipe_child_a p m l).
Proof.
  unfold pipe_child_a. apply exits_1_sys. intros _.
  apply exits_1_lift; [apply pipe_end_fuel|]. intros p1. apply exits_1_sys. intros _.
  apply exits_1_lift; [apply pipe_end_fuel|]. intros p0. apply exits_1_sys. intros _.
  apply exits_1_lift; [apply pipe_end_fuel|]. intros p1'. apply exits_1_sys. intros _.
  apply exits_1_exec. intros _. constructor.
Qed.

Lemma exits_1_pipe_child_b p m r : exits_1 (pipe_child_b p m r).
Proof.
  unfold pipe_child_b. apply exits_1_sys. intros _.
  apply exits_1_lift; [apply pipe_end_fuel|]. intros p0. apply exits_1_sys. intros _.
  apply exits_1_lift; [apply pipe_end_fuel|]. intros p1. apply exits_1_sys. intros _.
  apply exits_1_lift; [apply pipe_end_fuel|]. intros p0'. apply exits_1_sys. intros _.
  apply exits_1_exec. intros _. constructor.
Qed.

Lemma spawns_run_pipe m l r : spawns (run_pipe m l r).
Proof.
  unfold run_pipe. apply spawns_bind; [by apply spawns_sys|]. intros p.
  apply spawns_Fork.
  - cbn [bind mbind prog_bind mret prog_ret]. rewrite decide_True by done.
    apply (exits_1_bind (pipe_child_a p m l)), exits_1_pipe_child_a.
  - intros pa Hpa. cbn [bind mbind prog_bind mret prog_ret].
    rewrite decide_False by done. rewrite ret_bind.
    apply spawns_Fork.
    + cbn [bind mbind prog_bind mret prog_ret]. rewrite decide_True by done.
      apply (exits_1_bind (pipe_child_b p m r)), exits_1_pipe_child_b.
    + intros pb Hpb. cbn [bind mbind prog_bind mret prog_ret].
      rewrite decide_False by done. rewrite ret_bind.
      apply spawns_bind; [apply spawns_lift|]. intros p0.
      apply spawns_bind; [by apply spawns_sys|]. intros _.
      apply spawns_bind; [apply spawns_lift|]. intros p1.
      apply spawns_bind; [by apply spawns_sys|]. intros _.
      apply spawns_bind; [by apply spawns_sys|]. intros _.
      apply spawns_bind; [by apply spawns_sys|]. intros _. constructor.
Qed.

Lemma spawns_execute s : spawns (execute s).
Proof.
  unfold execute. apply spawns_bind; [apply spawns_lift|]. intros [pos|].
  - apply spawns_bind; [apply spawns_lift|]. intros b.
    apply spawns_bind; [apply spawns_lift|]. intros right.
    apply spawns_bind; [apply spawns_lift|]. intros [b1 la].
    apply spawns_bind; [apply spawns_lift|]. intros [b2 ra].
    apply spawns_bind; [apply spawns_run_pipe|]. intros _. constructor.
  - apply spawns_bind; [apply spawns_lift|]. intros [b a].
    apply spawns_bind; [apply spawns_run_cmd|]. intros _. constructor.
Qed.

Lemma spawns_eval_line s : spawns (eval_line s).
Proof.
  unfold eval_line. apply spawns_bind; [apply spawns_lift|]. intros line.
  apply spawns_bind; [apply spawns_lift|]. intros h. cbn zeta.
  assert (Hend : ∀ (p : prog unit) (s0 : shell),
            within (@console_call) (λ _, True) p → spawns (p;; Ret s0)).
  { intros p s0 Hp. apply spawns_bind; [by apply (spawns_console (λ _, True))|].
    intros _. constructor. }
  case_decide; [apply spawns_bind; [by apply spawns_sys | intros; constructor]|].
  case_decide; [apply Hend, console_clear_screen|].
  case_decide; [apply Hend, console_show_history|].
  case_decide; [apply Hend, console_ayuda|].
  destruct (starts_with line (lit "calc ")).
  { apply spawns_bind; [eapply spawns_console, console_calc|]. intros b. constructor. }
  case_decide; [apply Hend, console_tiempo|].
  apply spawns_bind; [apply spawns_lift|]. intros b. apply spawns_execute.
Qed.

Lemma spawns_main_iteration s : spawns (main_iteration s).
Proof.
  unfold main_iteration. apply spawns_bind; [by apply spawns_sys|]. intros _.
  apply spawns_bind; [eapply spawns_local, local_readline|]. intros [b k]. cbn zeta.
  case_decide; [constructor|].
  apply spawns_bind; [apply spawns_lift|]. intros c.
  destruct (c =? NUL)%char; [constructor | apply spawns_eval_line].
Qed.

Lemma spawns_main_loop rounds : ∀ s, spawns (main_loop rounds s).
Proof.
  induction rounds as [|k IH]; intros s; cbn [main_loop]; [constructor|].
  apply spawns_bind; [apply spawns_main_iteration | apply IH].
Qed.

(** X18. No child comes back to the prompt: whatever the input and the
    state of the shell, every child made during any number of iterations
    ends with the image that [exec] loaded, with [exit(1)], or in undefined
    behaviour. None returns into the loop of the shell, and none exits with
    another status. *)
Theorem children_exit (rounds : nat) (s : shell) (w : world) :
  Forall child_end (w_kids w) →
  Forall child_end (w_kids (run (main_loop rounds s) w).1).
Proof. apply spawns_run, spawns_main_loop. Qed.

Lemma children_exit_witness :
  c_end <$> w_kids (run (main_loop 2 shell_init)
                        (boot (lit "nada | ls" ++ [NL] ++ lit "ls" ++ [NL])
                              (λ p, bool_decide (p = lit "ls")) 8)).1
  = [Exited 1; Replaced (lit "ls") [lit "ls"]; Replaced (lit "ls") [lit "ls"]]
  ∧ Forall child_end
      (w_kids (run (main_loop 2 shell_init)
                   (boot (lit "nada | ls" ++ [NL] ++ lit "ls" ++ [NL])
                         (λ p, bool_decide (p = lit "ls")) 8)).1).
Proof.
  split; [vm_compute; reflexivity|].
  apply (children_exit 2 shell_init). constructor.
Defined.
